(** * mini_game: a shallow embedding of the combat core of [main.py]

    The development follows the layout of the source file: the [BoundedStat]
    descriptor, the effect system, items and inventories, the character
    classes and their signature skills, the boss with its strategies,
    [TurnOrder], and finally [Battle.run].

    Numbers.  The program computes with Python floats.  They are modelled
    by the rationals [Q] with exact arithmetic; the special values inf and
    nan and binary rounding are outside the model.  Comparisons, [min] and
    [max] follow Python's rules for which argument is returned on a tie.
    Computed numbers are compared with [==] ([Qeq]); "unchanged" is
    Leibniz equality.

    Objects.  Characters are mutable objects shared between the party
    list, the combatant list and effect sources.  They live in a store
    ([chars], a list) and are referred to by index, so that aliasing (a
    healer that is one of its own allies) is modelled, not assumed away.

    Randomness and input.  The [random] module and the console are
    explicit streams threaded through a small state monad.  The console
    answers every prompt: an [input()] that blocks for ever or raises
    [EOFError], and a [dump] that cannot write its file, are outside the
    model.

    Text.  Strings are byte strings holding UTF-8. *)

From Stdlib Require Import QArith Qabs Qminmax Qround Lqa.
From Stdlib Require Import Ascii String.
From Stdlib Require Import Sorting.Sorted Sorting.Permutation.
From stdpp Require Import gmap strings list fin_maps.

Open Scope Q_scope.

(* ===================================================================== *)
(** ** Python numbers and values *)
(* ===================================================================== *)

(** [max(a, b)]: the first argument unless the second is strictly greater. *)
Definition py_max (a b : Q) : Q := if Qlt_le_dec a b then b else a.

(** [min(a, b)]: the first argument unless the second is strictly smaller. *)
Definition py_min (a b : Q) : Q := if Qlt_le_dec b a then b else a.

(** The values a program can put on the right of an attribute assignment.
    [PyFloat q] is a finite float.  [PyObject] is an object that [float()]
    refuses: its class defines neither [__float__] nor [__index__] and is
    not a bytes-like type (a list, a dict, a character, ...). *)
Inductive PyValue :=
| PyNone
| PyBool (b : bool)
| PyInt (z : Z)
| PyFloat (q : Q)
| PyStr (s : string)
| PyObject.

Inductive PyExc := TypeError | ValueError | AttributeError | OverflowError.

(** How a call ends: with a value, with an exception, or [Beyond] the
    model.  [Beyond] marks the calls whose outcome the model cannot
    express: a float that is inf or nan, and the reading of a text with
    characters outside ASCII, which depends on the Unicode tables of the
    interpreter.  Nothing is said about such a call. *)
Inductive Result (A : Type) :=
| Ok (a : A)
| Raise (e : PyExc)
| Beyond.
Arguments Ok {A} a.
Arguments Raise {A} e.
Arguments Beyond {A}.

(** *** [float(str)] and [float(int)]

    [float(str)] removes the underscores that stand between two digits,
    strips ASCII whitespace, and reads an optional sign followed by
    [inf], [infinity] or [nan] in any case, or by digits with an optional
    fraction and an optional exponent.  A decimal too large for a double
    gives inf.  [float(int)] raises [OverflowError] for an integer that
    does not round to a finite double. *)

Definition is_space (c : ascii) : bool :=
  let n := nat_of_ascii c in
  ((9 <=? n) && (n <=? 13))%nat || (n =? 32)%nat.

Definition is_digit (c : ascii) : bool :=
  let n := nat_of_ascii c in ((48 <=? n) && (n <=? 57))%nat.

Definition is_ascii (c : ascii) : bool := (nat_of_ascii c <? 128)%nat.

Definition lower_ascii (c : ascii) : ascii :=
  let n := nat_of_ascii c in
  if ((65 <=? n) && (n <=? 90))%nat then ascii_of_nat (n + 32) else c.

Definition digit_val (c : ascii) : Z := Z.of_nat (nat_of_ascii c) - 48.

Fixpoint lstrip (cs : list ascii) : list ascii :=
  match cs with
  | c :: r => if is_space c then lstrip r else cs
  | [] => []
  end.

Definition strip (cs : list ascii) : list ascii :=
  rev (lstrip (rev (lstrip cs))).

(** An underscore is dropped when it stands between two digits; any
    other underscore makes the text invalid ([None]).  [prev] is the
    character before [cs]. *)
Fixpoint drop_underscores (prev : ascii) (cs : list ascii) : option (list ascii) :=
  match cs with
  | [] => if Ascii.eqb prev "_" then None else Some []
  | c :: r =>
      if Ascii.eqb c "_" then
        if is_digit prev then drop_underscores c r else None
      else if (Ascii.eqb prev "_" && negb (is_digit c))%bool then None
      else option_map (cons c) (drop_underscores c r)
  end.

Fixpoint span_digits (cs : list ascii) : list ascii * list ascii :=
  match cs with
  | c :: r =>
      if is_digit c
      then let '(ds, rest) := span_digits r in (c :: ds, rest)
      else ([], cs)
  | [] => ([], [])
  end.

Definition digits_value (ds : list ascii) : Z :=
  fold_left (fun acc c => 10 * acc + digit_val c)%Z ds 0%Z.

Definition take_sign (cs : list ascii) : bool * list ascii :=
  match cs with
  | "-"%char :: r => (true, r)
  | "+"%char :: r => (false, r)
  | _ => (false, cs)
  end.

Definition pow10 (e : Z) : Q := Qpower 10 e.

(** The exponent part: [None] when malformed, [Some 0] when absent. *)
Definition parse_exponent (cs : list ascii) : option Z :=
  match cs with
  | [] => Some 0%Z
  | c :: r =>
      if (Ascii.eqb c "e" || Ascii.eqb c "E")%bool then
        let '(neg, r1) := take_sign r in
        match span_digits r1 with
        | ((_ :: _) as ds, []) =>
            Some (if neg : bool then - digits_value ds else digits_value ds)%Z
        | _ => None
        end
      else None
  end.

(** A number of this magnitude or more does not round to a finite
    double: [2^1024 - 2^970] lies half way between the largest double
    and [2^1024], and the tie goes to [2^1024]. *)
Definition float_overflow_bound : Z := (2 ^ 1024 - 2 ^ 970)%Z.

Definition overflows (q : Q) : bool :=
  Qle_bool (inject_Z float_overflow_bound) (Qabs q).

(** [inf], [infinity] and [nan], in any case. *)
Definition is_inf_or_nan (cs : list ascii) : bool :=
  let low := string_of_list_ascii (map lower_ascii cs) in
  (String.eqb low "inf" || String.eqb low "infinity" || String.eqb low "nan")%bool.

(** What [float(str)] makes of a text. *)
Inductive FloatText :=
| FtFinite (q : Q)       (* a finite float *)
| FtBeyond               (* inf, nan, or a text outside ASCII *)
| FtInvalid.             (* [ValueError] *)

(** The decimal literals: digits with an optional fraction and an
    optional exponent, after the sign. *)
Definition read_decimal (neg : bool) (cs1 : list ascii) : FloatText :=
  let '(ip, cs2) := span_digits cs1 in
  let '(fp, cs3) :=
    match cs2 with
    | "."%char :: r => span_digits r
    | _ => ([], cs2)
    end in
  match ip ++ fp with
  | [] => FtInvalid
  | ds =>
      match parse_exponent cs3 with
      | None => FtInvalid
      | Some e =>
          let m := inject_Z (digits_value ds) * pow10 (e - Z.of_nat (length fp)) in
          if overflows m then FtBeyond
          else FtFinite (Qred (if neg : bool then - m else m))
      end
  end.

Definition read_float (s : string) : FloatText :=
  let cs := list_ascii_of_string s in
  if negb (forallb is_ascii cs) then FtBeyond
  else
    match drop_underscores "000"%char cs with
    | None => FtInvalid
    | Some cs0 =>
        let '(neg, cs1) := take_sign (strip cs0) in
        if is_inf_or_nan cs1 then FtBeyond else read_decimal neg cs1
    end.


(** [float(value)] *)
Definition py_float (value : PyValue) : Result Q :=
  match value with
  | PyNone => Raise TypeError
  | PyBool b => Ok (if b then 1 else 0)
  | PyInt z =>
      if (float_overflow_bound <=? Z.abs z)%Z then Raise OverflowError
      else Ok (inject_Z z)
  | PyFloat q => Ok q
  | PyStr s =>
      match read_float s with
      | FtFinite q => Ok q
      | FtBeyond => Beyond
      | FtInvalid => Raise ValueError
      end
  | PyObject => Raise TypeError
  end.

(** The values whose Python type is a number ([int], [float], [bool]). *)
Definition is_number (value : PyValue) : bool :=
  match value with
  | PyBool _ | PyInt _ | PyFloat _ => true
  | _ => false
  end.

(* ===================================================================== *)
(** ** [BoundedStat]: the descriptor that validates numeric attributes *)
(* ===================================================================== *)

Module BoundedStat.

Record t := {
  name : string;
  min : Q;
  max : option Q;
}.

(** [BoundedStat(name, min_value=0.0, max_value=None)] *)
Definition new (name : string) (min_value : Q) (max_value : option Q) : t :=
  {| name := name; min := min_value; max := max_value |}.

Definition private_name (self : t) : string := "_" +:+ name self.

(** The part of an instance's [__dict__] that holds stat values.  The
    private names are plain attributes: no descriptor of the class is
    installed under the private name of another, as is the case for the
    five stats of [Human].  So [getattr] and [setattr] on a private name
    read and write this dictionary. *)
Abbreviation Instance := (gmap string Q).

(** [__get__]: the stored value, [0.0] before the first assignment. *)
Definition __get__ (self : t) (instance : Instance) : Q :=
  default 0 (instance !! private_name self).

Definition clamp (self : t) (v : Q) : Q :=
  match max self with
  | Some mx => py_max (min self) (py_min mx v)
  | None => py_max (min self) v
  end.

(** The conversion and clamping steps of [__set__]: the value that
    [setattr] will store, or the error raised. *)
Definition validate (self : t) (value : PyValue) : Result Q :=
  match py_float value with
  | Raise TypeError | Raise ValueError => Raise TypeError
  | Raise e => Raise e
  | Ok v => Ok (clamp self v)
  | Beyond => Beyond
  end.

(** [__set__(instance, value)]: the instance after the call, and how the
    call ended.  When it raises, [setattr] was not reached.  An exception
    of [float()] other than [TypeError] and [ValueError] is not caught.
    When the call is [Beyond] the model, the instance returned carries no
    information. *)
Definition __set__ (self : t) (instance : Instance) (value : PyValue)
  : Instance * Result unit :=
  match validate self value with
  | Ok v => (<[private_name self := v]> instance, Ok tt)
  | Raise e => (instance, Raise e)
  | Beyond => (instance, Beyond)
  end.

Definition __delete__ (self : t) (instance : Instance) : Instance * Result unit :=
  (instance, Raise AttributeError).

End BoundedStat.

(* ===================================================================== *)
(** ** Effects, items and inventories *)
(* ===================================================================== *)

(** Object references are indices into the character store. *)
Abbreviation Ref := nat.

(** The four effect classes.  Every effect carries its [source] and its
    remaining [duration]; [SilenceEffect] is a marker without payload. *)
Inductive Effect :=
| ShieldEffect (source : Ref) (amount : Q) (duration : Z)
| DotEffect (source : Ref) (damage : Q) (duration : Z)
| SilenceEffect (source : Ref) (duration : Z)
| RegenEffect (source : Ref) (amount : Q) (duration : Z).

Definition duration (e : Effect) : Z :=
  match e with
  | ShieldEffect _ _ d | DotEffect _ _ d | SilenceEffect _ d
  | RegenEffect _ _ d => d
  end.

Definition set_duration (e : Effect) (d : Z) : Effect :=
  match e with
  | ShieldEffect s a _ => ShieldEffect s a d
  | DotEffect s a _ => DotEffect s a d
  | SilenceEffect s _ => SilenceEffect s d
  | RegenEffect s a _ => RegenEffect s a d
  end.

(** [isinstance(e, SilenceEffect)] *)
Definition is_SilenceEffect (e : Effect) : bool :=
  match e with SilenceEffect _ _ => true | _ => false end.

Record Item := {
  item_name : string;
  description : string;
  hp_restore : Q;
  mp_restore : Q;
}.

(** [Inventory.items]: a dict from item name to (item, count).  Python
    dicts keep insertion order and [list_items] exposes it, so the dict is
    an association list with unique keys. *)
Abbreviation Inventory := (list (string * (Item * Z))).

Fixpoint inv_lookup (name : string) (items : Inventory) : option (Item * Z) :=
  match items with
  | [] => None
  | (k, v) :: r => if String.eqb k name then Some v else inv_lookup name r
  end.

(** [items[name] = v]: in place when the key exists, appended otherwise. *)
Fixpoint inv_store (name : string) (v : Item * Z) (items : Inventory) : Inventory :=
  match items with
  | [] => [(name, v)]
  | (k, w) :: r =>
      if String.eqb k name then (k, v) :: r else (k, w) :: inv_store name v r
  end.

(** [del items[name]] *)
Fixpoint inv_del (name : string) (items : Inventory) : Inventory :=
  match items with
  | [] => []
  | (k, w) :: r => if String.eqb k name then r else (k, w) :: inv_del name r
  end.

Definition Inventory_add (items : Inventory) (item : Item) (count : Z) : Inventory :=
  match inv_lookup (item_name item) items with
  | Some (_, cur) => inv_store (item_name item) (item, (cur + count)%Z) items
  | None => inv_store (item_name item) (item, count) items
  end.

Definition Inventory_remove_by_name (items : Inventory) (name : string) (count : Z)
  : Inventory * bool :=
  match inv_lookup name items with
  | None => (items, false)
  | Some (item, cur) =>
      if (cur <? count)%Z then (items, false)
      else if (cur =? count)%Z then (inv_del name items, true)
      else (inv_store name (item, (cur - count)%Z) items, true)
  end.

Definition Inventory_has (items : Inventory) (name : string) : bool :=
  match inv_lookup name items with
  | Some (_, cnt) => (0 <? cnt)%Z
  | None => false
  end.

Definition Inventory_list_items (items : Inventory) : list (string * Item * Z) :=
  map (fun '(name, (it, cnt)) => (name, it, cnt)) items.

(* ===================================================================== *)
(** ** Characters *)
(* ===================================================================== *)

Inductive CharClass := Warrior | Mage | Healer | Boss.

Definition CharClass_eqb (a b : CharClass) : bool :=
  match a, b with
  | Warrior, Warrior | Mage, Mage | Healer, Healer | Boss, Boss => true
  | _, _ => false
  end.

(** The state of one [Character] object.  [hp], [mp], [strength],
    [agility] and [intelligence] are the values stored behind the
    [BoundedStat] descriptors of [Human]; [max_hp] and [max_mp] are the
    read-only properties over [_max_hp] and [_max_mp]. *)
Record Character := {
  cls : CharClass;
  name : string;
  level : Z;
  max_hp : Q;
  max_mp : Q;
  hp : Q;
  mp : Q;
  strength : Q;
  agility : Q;
  intelligence : Q;
  crit_chance : Q;
  crit_multiplier : Q;
  effects : list Effect;
  shield : Q;
  cooldowns : gmap string Z;
  inventory : Inventory;
}.

(** The five descriptors declared in the body of [Human]: all of them
    have [min_value=0] and no [max_value]. *)
Definition Human_hp := BoundedStat.new "hp" 0 None.
Definition Human_mp := BoundedStat.new "mp" 0 None.
Definition Human_strength := BoundedStat.new "strength" 0 None.
Definition Human_agility := BoundedStat.new "agility" 0 None.
Definition Human_intelligence := BoundedStat.new "intelligence" 0 None.

Definition Human_stats : list BoundedStat.t :=
  [Human_hp; Human_mp; Human_strength; Human_agility; Human_intelligence].

(** Plain attribute writes. *)
Definition with_hp (c : Character) (v : Q) : Character :=
  {| cls := cls c; name := name c; level := level c;
     max_hp := max_hp c; max_mp := max_mp c; hp := v; mp := mp c;
     strength := strength c; agility := agility c;
     intelligence := intelligence c; crit_chance := crit_chance c;
     crit_multiplier := crit_multiplier c; effects := effects c;
     shield := shield c; cooldowns := cooldowns c; inventory := inventory c |}.

Definition with_mp (c : Character) (v : Q) : Character :=
  {| cls := cls c; name := name c; level := level c;
     max_hp := max_hp c; max_mp := max_mp c; hp := hp c; mp := v;
     strength := strength c; agility := agility c;
     intelligence := intelligence c; crit_chance := crit_chance c;
     crit_multiplier := crit_multiplier c; effects := effects c;
     shield := shield c; cooldowns := cooldowns c; inventory := inventory c |}.

Definition with_effects (c : Character) (es : list Effect) : Character :=
  {| cls := cls c; name := name c; level := level c;
     max_hp := max_hp c; max_mp := max_mp c; hp := hp c; mp := mp c;
     strength := strength c; agility := agility c;
     intelligence := intelligence c; crit_chance := crit_chance c;
     crit_multiplier := crit_multiplier c; effects := es;
     shield := shield c; cooldowns := cooldowns c; inventory := inventory c |}.

Definition with_shield (c : Character) (v : Q) : Character :=
  {| cls := cls c; name := name c; level := level c;
     max_hp := max_hp c; max_mp := max_mp c; hp := hp c; mp := mp c;
     strength := strength c; agility := agility c;
     intelligence := intelligence c; crit_chance := crit_chance c;
     crit_multiplier := crit_multiplier c; effects := effects c;
     shield := v; cooldowns := cooldowns c; inventory := inventory c |}.

Definition with_cooldowns (c : Character) (cds : gmap string Z) : Character :=
  {| cls := cls c; name := name c; level := level c;
     max_hp := max_hp c; max_mp := max_mp c; hp := hp c; mp := mp c;
     strength := strength c; agility := agility c;
     intelligence := intelligence c; crit_chance := crit_chance c;
     crit_multiplier := crit_multiplier c; effects := effects c;
     shield := shield c; cooldowns := cds; inventory := inventory c |}.

Definition with_inventory (c : Character) (inv : Inventory) : Character :=
  {| cls := cls c; name := name c; level := level c;
     max_hp := max_hp c; max_mp := max_mp c; hp := hp c; mp := mp c;
     strength := strength c; agility := agility c;
     intelligence := intelligence c; crit_chance := crit_chance c;
     crit_multiplier := crit_multiplier c; effects := effects c;
     shield := shield c; cooldowns := cooldowns c; inventory := inv |}.

(** [self.hp = v] and [self.mp = v] with [v] a float: the write goes
    through the descriptor, which clamps it. *)
Definition set_hp (c : Character) (v : Q) : Character :=
  with_hp c (BoundedStat.clamp Human_hp v).

Definition set_mp (c : Character) (v : Q) : Character :=
  with_mp c (BoundedStat.clamp Human_mp v).

(** [obj.hp = value] and [obj.mp = value] for an arbitrary Python value. *)
Definition assign_hp (c : Character) (value : PyValue) : Character * Result unit :=
  match BoundedStat.validate Human_hp value with
  | Ok v => (with_hp c v, Ok tt)
  | Raise e => (c, Raise e)
  | Beyond => (c, Beyond)
  end.

Definition assign_mp (c : Character) (value : PyValue) : Character * Result unit :=
  match BoundedStat.validate Human_mp value with
  | Ok v => (with_mp c v, Ok tt)
  | Raise e => (c, Raise e)
  | Beyond => (c, Beyond)
  end.

(** [Human.__init__] followed by [Character.__init__]; [crit_chance] and
    [crit_multiplier] start at the class defaults of [CritMixin]. *)
Definition Character_init (k : CharClass) (nm : string) (lvl : Z)
    (mhp mmp str agi int : Q) : Character :=
  {| cls := k; name := nm; level := lvl;
     max_hp := mhp; max_mp := mmp;
     hp := BoundedStat.clamp Human_hp mhp;
     mp := BoundedStat.clamp Human_mp mmp;
     strength := BoundedStat.clamp Human_strength str;
     agility := BoundedStat.clamp Human_agility agi;
     intelligence := BoundedStat.clamp Human_intelligence int;
     crit_chance := 0; crit_multiplier := 1.5;
     effects := []; shield := 0; cooldowns := ∅; inventory := [] |}.

Definition with_crit_chance (c : Character) (v : Q) : Character :=
  {| cls := cls c; name := name c; level := level c;
     max_hp := max_hp c; max_mp := max_mp c; hp := hp c; mp := mp c;
     strength := strength c; agility := agility c;
     intelligence := intelligence c; crit_chance := v;
     crit_multiplier := crit_multiplier c; effects := effects c;
     shield := shield c; cooldowns := cooldowns c; inventory := inventory c |}.

Definition new_Warrior (nm : string) : Character :=
  with_cooldowns
    (with_crit_chance (Character_init Warrior nm 1 150 30 20 12 6) 0.12)
    {[ "power_strike" := 0%Z ]}.

Definition new_Mage (nm : string) : Character :=
  with_cooldowns
    (with_crit_chance (Character_init Mage nm 1 90 140 6 10 22) 0.06)
    {[ "fireball" := 0%Z ]}.

Definition new_Healer (nm : string) : Character :=
  with_cooldowns
    (with_crit_chance (Character_init Healer nm 1 110 130 6 10 20) 0.03)
    {[ "mass_heal" := 0%Z ]}.

Definition new_Boss (nm : string) : Character :=
  Character_init Boss nm 5 600 80 26 8 14.

(** [is_alive] *)
Definition is_alive (c : Character) : bool :=
  if Qlt_le_dec 0 (hp c) then true else false.

(** [SilenceMixin.is_silenced] *)
Definition is_silenced (c : Character) : bool :=
  existsb is_SilenceEffect (effects c).

(** [take_damage(amount)]; [source] and [is_dot] only feed the printed
    message. *)
Definition take_damage (self : Character) (amount : Q) : Character :=
  let '(self, amount) :=
    if Qlt_le_dec 0 (shield self) then
      let absorbed := py_min (shield self) amount in
      (with_shield self (shield self - absorbed), amount - absorbed)
    else (self, amount) in
  if Qlt_le_dec 0 amount
  then set_hp self (py_max 0 (hp self - amount))
  else self.

Definition heal (self : Character) (amount : Q) : Character :=
  set_hp self (py_min (max_hp self) (hp self + amount)).

Definition restore_mp (self : Character) (amount : Q) : Character :=
  set_mp self (py_min (max_mp self) (mp self + amount)).

Definition spend_mp (self : Character) (amount : Q) : Character * bool :=
  if Qlt_le_dec (mp self) amount then (self, false)
  else (set_mp self (mp self - amount), true).

(** [Item.use(target)]: a restore amount of zero is falsy and skipped. *)
Definition Item_use (it : Item) (target : Character) : Character :=
  let target :=
    if Qeq_bool (hp_restore it) 0 then target else heal target (hp_restore it) in
  if Qeq_bool (mp_restore it) 0 then target else restore_mp target (mp_restore it).

(** *** The effect life cycle *)

(** [effect.apply(target)] *)
Definition Effect_apply (e : Effect) (target : Character) : Character :=
  match e with
  | ShieldEffect _ amount _ => with_shield target (shield target + amount)
  | _ => target
  end.

(** [effect.on_turn(target)]: the payload, then [duration -= 1].  Returns
    the target and the effect, both updated. *)
Definition Effect_on_turn (e : Effect) (target : Character) : Character * Effect :=
  let target :=
    match e with
    | DotEffect _ damage _ =>
        if is_alive target then take_damage target damage else target
    | RegenEffect _ amount _ =>
        if is_alive target then heal target amount else target
    | _ => target
    end in
  (target, set_duration e (duration e - 1)%Z).

(** [effect.expire(target)] *)
Definition Effect_expire (e : Effect) (target : Character) : Character :=
  match e with
  | ShieldEffect _ amount _ => with_shield target (py_max 0 (shield target - amount))
  | _ => target
  end.

(** [apply_effect(effect)] *)
Definition apply_effect (self : Character) (e : Effect) : Character :=
  let self := Effect_apply e self in
  with_effects self (effects self ++ [e]).

(** The loop of [remove_expired_effects] over [self.effects], collecting
    the survivors in [still]. *)
Fixpoint expire_loop (self : Character) (es still : list Effect)
  : Character * list Effect :=
  match es with
  | [] => (self, still)
  | e :: r =>
      if (duration e <=? 0)%Z
      then expire_loop (Effect_expire e self) r still
      else expire_loop self r (still ++ [e])
  end.

Definition remove_expired_effects (self : Character) : Character :=
  let '(self', still) := expire_loop self (effects self) [] in
  with_effects self' still.

(** The loop of [start_turn_effects] over a copy of [self.effects].  The
    effect objects are mutated in place, so the list held by the
    character sees the new durations; payloads never read the list. *)
Fixpoint on_turn_loop (self : Character) (es : list Effect)
  : Character * list Effect :=
  match es with
  | [] => (self, [])
  | e :: r =>
      let '(self1, e') := Effect_on_turn e self in
      let '(self2, r') := on_turn_loop self1 r in
      (self2, e' :: r')
  end.

Definition start_turn_effects (self : Character) : Character :=
  let '(self', es) := on_turn_loop self (effects self) in
  remove_expired_effects (with_effects self' es).

(* ===================================================================== *)
(** ** Program state: the object store, [random] and the console *)
(* ===================================================================== *)

(** The generator behind the [random] module: a stream of raw outputs and
    a cursor.  [random()] uses 53 bits of one output; [_randbelow(n)]
    reduces one output modulo [n]. *)
Record Rng := {
  tape : nat -> N;
  pos : nat;
}.

(** Lines typed at the console, consumed by [input()].  Every prompt is
    answered: the stream has a line for each call. *)
Record Console := {
  lines : nat -> string;
  cursor : nat;
}.

(** The records that [Battle.broadcast] and [log_round] append to
    [RoundLogger.entries]; the message text is abstracted. *)
Inductive LogEntry :=
| BattleStart
| RoundBegin (n : Z)
| RoundHeader (n : Z) (phase : Z)
| Retaliation (target : Ref)
| PlayerExit
| RoundEnd (n : Z)
| BossWins
| PartyWins.

Record State := {
  chars : list Character;               (* the character objects *)
  rng : Rng;                            (* state of the random module *)
  stdin : Console;
  round : Z;                            (* Battle.round *)
  entries : list LogEntry;              (* Battle.logger.entries *)
  battle_log_json : option (list LogEntry);   (* written by dump() *)
}.

Definition with_chars (s : State) (cs : list Character) : State :=
  {| chars := cs; rng := rng s; stdin := stdin s; round := round s;
     entries := entries s; battle_log_json := battle_log_json s |}.

Definition with_rng (s : State) (g : Rng) : State :=
  {| chars := chars s; rng := g; stdin := stdin s; round := round s;
     entries := entries s; battle_log_json := battle_log_json s |}.

Definition with_stdin (s : State) (c : Console) : State :=
  {| chars := chars s; rng := rng s; stdin := c; round := round s;
     entries := entries s; battle_log_json := battle_log_json s |}.

Definition with_round (s : State) (r : Z) : State :=
  {| chars := chars s; rng := rng s; stdin := stdin s; round := r;
     entries := entries s; battle_log_json := battle_log_json s |}.

Definition with_entries (s : State) (es : list LogEntry) : State :=
  {| chars := chars s; rng := rng s; stdin := stdin s; round := round s;
     entries := es; battle_log_json := battle_log_json s |}.

Definition with_battle_log_json (s : State) (f : option (list LogEntry)) : State :=
  {| chars := chars s; rng := rng s; stdin := stdin s; round := round s;
     entries := entries s; battle_log_json := f |}.

(** *** The state monad *)

Definition M (A : Type) : Type := State -> A * State.

Definition ret {A} (a : A) : M A := fun s => (a, s).

Definition bind {A B} (m : M A) (k : A -> M B) : M B :=
  fun s => let '(a, s') := m s in k a s'.

Declare Scope prog_scope.
Delimit Scope prog_scope with prog.
Notation "x <- m ;; k" := (bind m (fun x => k))
  (at level 100, m at next level, right associativity) : prog_scope.
Notation "m ;;; k" := (bind m (fun _ => k))
  (at level 100, right associativity) : prog_scope.
Open Scope prog_scope.

Definition gets {A} (f : State -> A) : M A := fun s => (f s, s).
Definition modify (f : State -> State) : M unit := fun s => (tt, f s).

(** Sequencing over a list: a [for] loop without [break]. *)
Fixpoint for_each {A} (xs : list A) (body : A -> M unit) : M unit :=
  match xs with
  | [] => ret tt
  | x :: r => body x ;;; for_each r body
  end.

(** *** The object store *)

(** References held by the program always point at a character.  The read
    of an index outside the store is given a value (a dead, empty
    character) only to keep the functions total. *)
Definition null_character : Character :=
  Character_init Warrior "" 0 0 0 0 0 0.

Definition deref (cs : list Character) (r : Ref) : Character :=
  default null_character (cs !! r).

(** Read the object behind a reference. *)
Definition obj (r : Ref) : M Character := gets (fun s => deref (chars s) r).

(** Mutate the object behind a reference. *)
Definition update (r : Ref) (f : Character -> Character) : M unit :=
  modify (fun s => with_chars s (alter f r (chars s))).

(** [any(h.is_alive for h in refs)] and [[h for h in refs if h.is_alive]] *)
Definition any_alive (cs : list Character) (refs : list Ref) : bool :=
  existsb (fun r => is_alive (deref cs r)) refs.

Definition living (cs : list Character) (refs : list Ref) : list Ref :=
  filter (fun r => is_alive (deref cs r) = true) refs.

(** *** The [random] module *)

Definition next_raw : M N :=
  fun s =>
    let g := rng s in
    (tape g (pos g), with_rng s {| tape := tape g; pos := S (pos g) |}).

(** [random.random()]: a float in [[0, 1)]. *)
Definition random_random : M Q :=
  n <- next_raw ;;
  ret (Z.of_N (n mod 2 ^ 53) # 2 ^ 53).

(** [random.uniform(a, b)] *)
Definition random_uniform (a b : Q) : M Q :=
  u <- random_random ;;
  ret (a + (b - a) * u).

(** [random._randbelow(n)], for [n > 0]. *)
Definition randbelow (n : nat) : M nat :=
  k <- next_raw ;;
  ret (N.to_nat (k mod N.of_nat n)).

(** [random.choice(seq)] on a non-empty sequence of references. *)
Definition random_choice (seq : list Ref) : M Ref :=
  i <- randbelow (length seq) ;;
  ret (nth i seq 0%nat).

(** [x[i], x[j] = x[j], x[i]] *)
Definition swap {A} (x : list A) (i j : nat) : list A :=
  match x !! i, x !! j with
  | Some a, Some b => <[j := a]> (<[i := b]> x)
  | _, _ => x
  end.

(** [random.shuffle(x)]:
    [for i in reversed(range(1, len(x))): j = _randbelow(i + 1); swap]. *)
Fixpoint shuffle_from {A} (i : nat) (x : list A) : M (list A) :=
  match i with
  | O => ret x
  | S i' =>
      j <- randbelow (S i) ;;
      shuffle_from i' (swap x i j)
  end.

Definition random_shuffle {A} (x : list A) : M (list A) :=
  shuffle_from (length x - 1) x.

(** *** The console *)

Definition input : M string :=
  fun s =>
    let c := stdin s in
    (lines c (cursor c), with_stdin s {| lines := lines c; cursor := S (cursor c) |}).

(* ===================================================================== *)
(** ** Attacks and signature skills *)
(* ===================================================================== *)

(** [CritMixin.roll_crit] *)
Definition roll_crit (self : Ref) : M bool :=
  u <- random_random ;;
  c <- obj self ;;
  ret (if Qlt_le_dec u (crit_chance c) then true else false).

(** [basic_attack(target)] *)
Definition basic_attack (self target : Ref) : M unit :=
  c <- obj self ;;
  let base := strength c * 1.0 in
  crit <- roll_crit self ;;
  c <- obj self ;;
  let base := if crit : bool then base * crit_multiplier c else base in
  u <- random_uniform 0.9 1.1 ;;
  let damage := u * base in
  update target (fun t => take_damage t damage).

(** A method call [r.f(...)] that mutates the object and returns a value. *)
Definition call {A} (r : Ref) (f : Character -> Character * A) : M A :=
  c <- obj r ;;
  update r (fun c => fst (f c)) ;;;
  ret (snd (f c)).

(** [self.cooldowns[skill] = cd] *)
Definition set_cooldown (self : Ref) (skill : string) (cd : Z) : M unit :=
  update self (fun c => with_cooldowns c (<[skill := cd]> (cooldowns c))).

(** [self.cooldowns.get(skill, 0)] *)
Definition cooldown_of (c : Character) (skill : string) : Z :=
  default 0%Z (cooldowns c !! skill).

Section Skills.

(** The capability check inherited from [SilenceMixin].  The program
    runs with [is_silenced]; keeping it abstract here lets the battle
    be compared with one in which silence is never reported. *)
Variable silenced : Character -> bool.

(** [Warrior.power_strike(target)] *)
Definition power_strike (self target : Ref) : M bool :=
  let cost := 8 in
  let cd := 2%Z in
  c <- obj self ;;
  if silenced c then ret false
  else if (0 <? cooldown_of c "power_strike")%Z then ret false
  else
    paid <- call self (fun c => spend_mp c cost) ;;
    if negb paid then ret false
    else
      set_cooldown self "power_strike" cd ;;;
      c <- obj self ;;
      let damage := strength c * 2.0 in
      crit <- roll_crit self ;;
      c <- obj self ;;
      let damage := if crit : bool then damage * crit_multiplier c else damage in
      update target (fun t => take_damage t damage) ;;;
      ret true.

(** [Mage.fireball(target)] *)
Definition fireball (self target : Ref) : M bool :=
  let cost := 20 in
  let cd := 3%Z in
  c <- obj self ;;
  if silenced c then ret false
  else if (0 <? cooldown_of c "fireball")%Z then ret false
  else
    paid <- call self (fun c => spend_mp c cost) ;;
    if negb paid then ret false
    else
      set_cooldown self "fireball" cd ;;;
      c <- obj self ;;
      let damage := intelligence c * 3.0 in
      update target (fun t => take_damage t damage) ;;;
      let dot := DotEffect self (damage * 0.25) 2 in
      update target (fun t => apply_effect t dot) ;;;
      ret true.

(** [Healer.mass_heal(allies)] *)
Definition mass_heal (self : Ref) (allies : list Ref) : M bool :=
  let cost := 25 in
  let cd := 3%Z in
  c <- obj self ;;
  if silenced c then ret false
  else if (0 <? cooldown_of c "mass_heal")%Z then ret false
  else
    paid <- call self (fun c => spend_mp c cost) ;;
    if negb paid then ret false
    else
      set_cooldown self "mass_heal" cd ;;;
      c <- obj self ;;
      let amount := intelligence c * 2.0 in
      for_each allies (fun a =>
        ca <- obj a ;;
        if is_alive ca then update a (fun t => heal t amount) else ret tt) ;;;
      ret true.

(** [use_skill(target, allies)] of the three hero classes. *)
Definition Warrior_use_skill (self : Ref) (target : option Ref) : M unit :=
  match target with
  | None => ret tt
  | Some t =>
      used <- power_strike self t ;;
      if negb used then basic_attack self t else ret tt
  end.

Definition Mage_use_skill (self : Ref) (target : option Ref) : M unit :=
  match target with
  | None => ret tt
  | Some t =>
      used <- fireball self t ;;
      if negb used then basic_attack self t else ret tt
  end.

Definition Healer_use_skill (self : Ref) (target : option Ref)
    (allies : option (list Ref)) : M unit :=
  let allies := default [] allies in
  used <- mass_heal self allies ;;
  if negb used then
    match target with
    | None => ret tt
    | Some t =>
        ct <- obj t ;;
        if is_alive ct then basic_attack self t else ret tt
    end
  else ret tt.

End Skills.

(* ===================================================================== *)
(** ** The boss: phases and strategies *)
(* ===================================================================== *)

(** [self.phase_thresholds = [0.66, 0.33]] *)
Definition phase_thresholds : list Q := [0.66; 0.33].

(** The [phase] property. *)
Definition phase (self : Character) : Z :=
  let ratio :=
    if Qlt_le_dec 0 (max_hp self) then hp self / max_hp self else 0 in
  if Qlt_le_dec (nth 0 phase_thresholds 0) ratio then 1%Z
  else if Qlt_le_dec (nth 1 phase_thresholds 0) ratio then 2%Z
  else 3%Z.

Inductive BossStrategy := AggressiveStrategy | DefensiveStrategy.

Inductive Action := ActWait | ActSmash | ActShield.

(** [min(xs, key=key)] and [max(xs, key=key)] on a non-empty list whose
    head is [best]: the first element that attains the extremum. *)
Fixpoint min_by (key : Ref -> Q) (best : Ref) (xs : list Ref) : Ref :=
  match xs with
  | [] => best
  | x :: r => min_by key (if Qlt_le_dec (key x) (key best) then x else best) r
  end.

Fixpoint max_by (key : Ref -> Q) (best : Ref) (xs : list Ref) : Ref :=
  match xs with
  | [] => best
  | x :: r => max_by key (if Qlt_le_dec (key best) (key x) then x else best) r
  end.

(** [strategy.choose_action(boss, allies, enemies)] *)
Definition choose_action (strategy : BossStrategy) (cs : list Character)
    (boss : Ref) (allies enemies : list Ref) : option Ref * Action :=
  match strategy with
  | AggressiveStrategy =>
      match living cs enemies with
      | [] => (None, ActWait)
      | e :: r => (Some (min_by (fun x => hp (deref cs x)) e r), ActSmash)
      end
  | DefensiveStrategy =>
      let b := deref cs boss in
      if Qlt_le_dec (shield b) (max_hp b * 0.15) then (Some boss, ActShield)
      else
        match living cs enemies with
        | [] => (None, ActWait)
        | e :: r => (Some (max_by (fun x => strength (deref cs x)) e r), ActSmash)
        end
  end.

(** [self.strategies[f'phase{self.phase}']] *)
Definition choose_strategy (self : Character) : BossStrategy :=
  if (phase self =? 2)%Z then DefensiveStrategy else AggressiveStrategy.

(** [Boss.smash(target)] *)
Definition smash (self target : Ref) : M unit :=
  b <- obj self ;;
  let damage := strength b * 2.2 in
  update target (fun t => take_damage t damage).

(** [Boss.shield_self()] *)
Definition shield_self (self : Ref) : M unit :=
  b <- obj self ;;
  let amount := intelligence b * 3.5 in
  update self (fun c => apply_effect c (ShieldEffect self amount 2)).

(** [Boss.cast_silence(target)] *)
Definition cast_silence (self target : Ref) : M unit :=
  update target (fun t => apply_effect t (SilenceEffect self 1)).

(** [Boss.use_skill(target, allies)]; here [target] is the list of
    enemies. *)
Definition Boss_use_skill (self : Ref) (target allies : list Ref) : M unit :=
  let enemies := target in
  b <- obj self ;;
  let strategy := choose_strategy b in
  cs <- gets chars ;;
  let '(chosen_target, action) := choose_action strategy cs self allies enemies in
  match action, chosen_target with
  | ActSmash, Some t => smash self t
  | ActShield, _ => shield_self self
  | _, _ => ret tt
  end ;;;
  b <- obj self ;;
  if ((phase b =? 3)%Z && negb (bool_decide (enemies = [])))%bool then
    u <- random_random ;;
    if Qlt_le_dec u 0.5 then
      cs <- gets chars ;;
      let candidates := living cs enemies in
      match candidates with
      | [] => ret tt
      | _ :: _ =>
          t <- random_choice candidates ;;
          cast_silence self t
      end
    else ret tt
  else ret tt.

(* ===================================================================== *)
(** ** [TurnOrder] *)
(* ===================================================================== *)

(** [list.sort(key=agility, reverse=True)]: a stable sort in descending
    key order.  An element is inserted in front of the first element
    whose key is not greater, so equal keys keep their relative order. *)
Fixpoint insert_desc (key : Ref -> Q) (x : Ref) (l : list Ref) : list Ref :=
  match l with
  | [] => [x]
  | y :: r =>
      if Qlt_le_dec (key x) (key y) then y :: insert_desc key x r
      else x :: y :: r
  end.

Fixpoint sort_desc (key : Ref -> Q) (l : list Ref) : list Ref :=
  match l with
  | [] => []
  | x :: r => insert_desc key x (sort_desc key r)
  end.

(** [TurnOrder.prepare_round]: the new contents of [self._order]. *)
Definition prepare_round (combatants : list Ref) : M (list Ref) :=
  cs <- gets chars ;;
  let alive := living cs combatants in
  shuffled <- random_shuffle alive ;;
  ret (sort_desc (fun x => agility (deref cs x)) shuffled).

(** [TurnOrder.__next__] on the queue [order]: the next living combatant
    and the rest of the queue, or [None] for [StopIteration]. *)
Fixpoint TurnOrder_next (order : list Ref) : M (option Ref * list Ref) :=
  match order with
  | [] => ret (None, [])
  | c :: rest =>
      ch <- obj c ;;
      if is_alive ch then ret (Some c, rest) else TurnOrder_next rest
  end.

(** Exhausting the iterator: every value that successive [__next__] calls
    return, up to [StopIteration].  [fuel] bounds the number of calls;
    [None] means that it ran out before the iterator did. *)
Fixpoint TurnOrder_drain (fuel : nat) (order : list Ref) : M (option (list Ref)) :=
  match fuel with
  | O => ret None
  | S fuel' =>
      r <- TurnOrder_next order ;;
      match r with
      | (None, _) => ret (Some [])
      | (Some c, rest) =>
          ys <- TurnOrder_drain fuel' rest ;;
          ret (option_map (cons c) ys)
      end
  end.

(* ===================================================================== *)
(** ** [Battle] *)
(* ===================================================================== *)

(** The fields of a [Battle] that never change after [__init__]; the
    round counter and the logger live in the [State]. *)
Record Battle := {
  party : list Ref;
  boss : Ref;
  combatants : list Ref;
  verbose : bool;
}.

(** [Battle.__init__(party, boss, verbose)] *)
Definition Battle_init (party : list Ref) (boss : Ref) (verbose : bool) : M Battle :=
  modify (fun s => with_entries (with_round s 1) []) ;;;
  ret {| party := party; boss := boss; combatants := party ++ [boss];
         verbose := verbose |}.

(** [RoundLogger.record] and [RoundLogger.dump] *)
Definition record (e : LogEntry) : M unit :=
  modify (fun s => with_entries s (entries s ++ [e])).

(** The log is written to the file; a [dump] that cannot open or write
    its file is outside the model. *)
Definition dump : M unit :=
  modify (fun s => with_battle_log_json s (Some (entries s))).

(** [Battle.broadcast]: printing aside, the message is recorded. *)
Definition broadcast (b : Battle) (e : LogEntry) : M unit := record e.

(** [Battle.tick_cooldowns] *)
Definition tick_cooldowns (b : Battle) : M unit :=
  for_each (combatants b) (fun c =>
    update c (fun ch =>
      with_cooldowns ch
        ((fun v => if (0 <? v)%Z then (v - 1)%Z else v) <$> cooldowns ch))).

(** *** Console input *)

(** The whitespace of [str.strip()], in UTF-8: the ASCII characters 9 to
    13 and 28 to 32, U+0085 and U+00A0 (two bytes), and U+1680, U+2000 to
    U+200A, U+2028, U+2029, U+202F, U+205F and U+3000 (three bytes). *)
Definition is_str_space1 (c : ascii) : bool :=
  let n := nat_of_ascii c in
  (((9 <=? n) && (n <=? 13)) || ((28 <=? n) && (n <=? 32)))%nat.

Definition is_str_space2 (c1 c2 : ascii) : bool :=
  let n1 := nat_of_ascii c1 in
  let n2 := nat_of_ascii c2 in
  ((n1 =? 194) && ((n2 =? 133) || (n2 =? 160)))%nat.

Definition is_str_space3 (c1 c2 c3 : ascii) : bool :=
  let n1 := nat_of_ascii c1 in
  let n2 := nat_of_ascii c2 in
  let n3 := nat_of_ascii c3 in
  (((n1 =? 225) && (n2 =? 154) && (n3 =? 128))
   || ((n1 =? 226) && (n2 =? 128)
       && (((128 <=? n3) && (n3 <=? 138)) || (n3 =? 168) || (n3 =? 169)
           || (n3 =? 175)))
   || ((n1 =? 226) && (n2 =? 129) && (n3 =? 159))
   || ((n1 =? 227) && (n2 =? 128) && (n3 =? 128)))%nat.

(** Whitespace removed at the front of a text. *)
Fixpoint str_lstrip (cs : list ascii) : list ascii :=
  match cs with
  | [] => []
  | c1 :: r1 =>
      if is_str_space1 c1 then str_lstrip r1
      else
        match r1 with
        | [] => cs
        | c2 :: r2 =>
            if is_str_space2 c1 c2 then str_lstrip r2
            else
              match r2 with
              | [] => cs
              | c3 :: r3 =>
                  if is_str_space3 c1 c2 c3 then str_lstrip r3 else cs
              end
        end
  end.

(** The same at the end: the text is given last byte first, so that a
    character of several bytes shows its bytes in reverse. *)
Fixpoint str_lstrip_rev (cs : list ascii) : list ascii :=
  match cs with
  | [] => []
  | c1 :: r1 =>
      if is_str_space1 c1 then str_lstrip_rev r1
      else
        match r1 with
        | [] => cs
        | c2 :: r2 =>
            if is_str_space2 c2 c1 then str_lstrip_rev r2
            else
              match r2 with
              | [] => cs
              | c3 :: r3 =>
                  if is_str_space3 c3 c2 c1 then str_lstrip_rev r3 else cs
              end
        end
  end.

(** [s.strip()] *)
Definition str_strip (s : string) : string :=
  string_of_list_ascii
    (rev (str_lstrip_rev (rev (str_lstrip (list_ascii_of_string s))))).

(** [s.lower()] on the letters of ASCII, which is all that the comparison
    with ["yes"] can see: no other character has a lower case among [y],
    [e] and [s]. *)
Definition str_lower (s : string) : string :=
  string_of_list_ascii (map lower_ascii (list_ascii_of_string s)).

(** [int(s)] on a stripped text: an optional sign and decimal digits,
    with single underscores allowed between digits; [None] stands for
    [ValueError].  Digits outside ASCII are not read. *)
Definition py_int (s : string) : option Z :=
  match drop_underscores "000"%char (list_ascii_of_string s) with
  | None => None
  | Some cs0 =>
      let '(neg, cs) := take_sign cs0 in
      match span_digits cs with
      | ((_ :: _) as ds, []) =>
          Some (if neg : bool then - digits_value ds else digits_value ds)%Z
      | _ => None
      end
  end.

(** [Battle._choose_item_from_hero(hero)] *)
Definition choose_item_from_hero (hero : Ref) : M (option string) :=
  h <- obj hero ;;
  let items := Inventory_list_items (inventory h) in
  match items with
  | [] => ret None
  | _ :: _ =>
      line <- input ;;
      let choice := str_strip line in
      if String.eqb choice "" then ret None
      else
        match py_int choice with
        | Some n =>
            let idx := (n - 1)%Z in
            if ((0 <=? idx) && (idx <? Z.of_nat (length items)))%Z then
              ret (option_map (fun '(nm, _, _) => nm) (items !! Z.to_nat idx))
            else ret None
        | None => ret None
        end
  end.

(** [hero.inventory.use(name, hero)] *)
Definition inventory_use (hero : Ref) (name : string) : M bool :=
  h <- obj hero ;;
  if negb (Inventory_has (inventory h) name) then ret false
  else
    match inv_lookup name (inventory h) with
    | None => ret false
    | Some (item, _) =>
        update hero (Item_use item) ;;;
        update hero (fun c =>
          with_inventory c (fst (Inventory_remove_by_name (inventory c) name 1))) ;;;
        ret true
    end.

(** How the body of the actor loop ends. *)
Inductive Flow :=
| Next                  (* fall through or [continue] *)
| Break
| Return (v : bool).

(** How the [while] loop of [run] ends. *)
Inductive LoopEnd :=
| Exhausted               (* the model's fuel ran out *)
| Finished                (* the loop condition became false *)
| Returned (v : bool).    (* [return] from inside the loop *)

Section Run.

Variable silenced : Character -> bool.

(** [hero.use_skill(target=self.boss, allies=self.party)]: dispatch on
    the class of the hero.  Party members are heroes; a [Boss] in the
    party is outside the model and does nothing here. *)
Definition use_skill (hero : Ref) (target : Ref) (allies : list Ref) : M unit :=
  h <- obj hero ;;
  match cls h with
  | Warrior => Warrior_use_skill silenced hero (Some target)
  | Mage => Mage_use_skill silenced hero (Some target)
  | Healer => Healer_use_skill silenced hero (Some target) (Some allies)
  | Boss => ret tt
  end.

(** [Battle._hero_menu_action(hero)]: [true] when the player leaves. *)
Definition hero_menu_action (b : Battle) (hero : Ref) : M bool :=
  line <- input ;;
  let choice := str_strip line in
  if String.eqb choice "0" then
    line <- input ;;
    let confirm := str_lower (str_strip line) in
    if String.eqb confirm "yes" then ret true else ret false
  else
    (if String.eqb choice "1" then basic_attack hero (boss b)
     else if String.eqb choice "2" then use_skill hero (boss b) (party b)
     else if String.eqb choice "3" then
       item_name <- choose_item_from_hero hero ;;
       match item_name with
       | Some nm =>
           if String.eqb nm "" then ret tt
           else used <- inventory_use hero nm ;; ret tt
       | None => ret tt
       end
     else basic_attack hero (boss b)) ;;;
    ret false.

(** The boss's immediate answer to a damaging hero action. *)
Definition retaliation (b : Battle) (boss_hp_before : Q) : M Flow :=
  cs <- gets chars ;;
  let boss_took_damage :=
    if Qlt_le_dec (hp (deref cs (boss b))) boss_hp_before then true else false in
  if (boss_took_damage && is_alive (deref cs (boss b))
      && any_alive cs (party b))%bool then
    target <- random_choice (living cs (party b)) ;;
    broadcast b (Retaliation target) ;;;
    smash (boss b) target ;;;
    cs <- gets chars ;;
    if negb (any_alive cs (party b)) then ret Break else ret Next
  else ret Next.

(** The hero branch of the loop body, from [boss_hp_before = ...] on. *)
Definition hero_turn (b : Battle) (hero : Ref) : M Flow :=
  bs <- obj (boss b) ;;
  let boss_hp_before := hp bs in
  exit_battle <- hero_menu_action b hero ;;
  if exit_battle : bool then
    broadcast b PlayerExit ;;;
    dump ;;;
    ret (Return false)
  else
    flow <- retaliation b boss_hp_before ;;
    match flow with
    | Next =>
        cs <- gets chars ;;
        if (negb (any_alive cs (party b)) || negb (is_alive (deref cs (boss b))))%bool
        then ret Break else ret Next
    | other => ret other
    end.

(** The body of [for actor in order]. *)
Definition actor_turn (b : Battle) (actor : Ref) : M Flow :=
  a <- obj actor ;;
  if negb (is_alive a) then ret Next
  else
    update actor start_turn_effects ;;;
    a <- obj actor ;;
    if negb (is_alive a) then ret Next
    else if CharClass_eqb (cls a) Boss then
      Boss_use_skill actor (party b) [boss b] ;;;
      cs <- gets chars ;;
      if negb (any_alive cs (party b)) then ret Break else ret Next
    else hero_turn b actor.

(** [for actor in order: ...]: the iterator's skip of dead combatants
    ([TurnOrder.__next__]) and the loop body, until the queue is empty,
    a [break] or a [return]. *)
Fixpoint for_actors (b : Battle) (order : list Ref) : M Flow :=
  match order with
  | [] => ret Next
  | c :: rest =>
      ch <- obj c ;;
      if is_alive ch then
        flow <- actor_turn b c ;;
        match flow with
        | Next => for_actors b rest
        | other => ret other
        end
      else for_actors b rest
  end.

(** One iteration of the [while] loop, inside [with log_round(...)]. *)
Definition one_round (b : Battle) : M Flow :=
  r <- gets round ;;
  record (RoundBegin r) ;;;
  bs <- obj (boss b) ;;
  broadcast b (RoundHeader r (phase bs)) ;;;
  order <- prepare_round (combatants b) ;;
  flow <- for_actors b order ;;
  match flow with
  | Return _ => ret tt
  | _ => tick_cooldowns b
  end ;;;
  record (RoundEnd r) ;;;
  ret flow.

Fixpoint battle_loop (fuel : nat) (b : Battle) (max_rounds : Z) : M LoopEnd :=
  r <- gets round ;;
  cs <- gets chars ;;
  if ((r <=? max_rounds)%Z && is_alive (deref cs (boss b))
      && any_alive cs (party b))%bool then
    match fuel with
    | O => ret Exhausted
    | S fuel' =>
        flow <- one_round b ;;
        match flow with
        | Return v => ret (Returned v)
        | _ =>
            modify (fun s => with_round s (round s + 1)%Z) ;;;
            battle_loop fuel' b max_rounds
        end
    end
  else ret Finished.

(** [Battle.run(max_rounds)].  The round counter grows by one per
    iteration, so [max_rounds - round + 1] iterations are enough;
    [None] would mean that the fuel ran out. *)
Definition run (b : Battle) (max_rounds : Z) : M (option bool) :=
  broadcast b BattleStart ;;;
  r <- gets round ;;
  e <- battle_loop (Z.to_nat (max_rounds - r + 1)) b max_rounds ;;
  match e with
  | Exhausted => ret None
  | Returned v => ret (Some v)
  | Finished =>
      bs <- obj (boss b) ;;
      if is_alive bs then
        broadcast b BossWins ;;; dump ;;; ret (Some false)
      else
        broadcast b PartyWins ;;; dump ;;; ret (Some true)
  end.

End Run.

(* ===================================================================== *)
(** ** Bootstrap: the sample party and the state [main] starts from *)
(* ===================================================================== *)

Definition with_items (c : Character) (item : Item) (count : Z) : Character :=
  with_inventory c (Inventory_add (inventory c) item count).

(** [make_sample_party()] *)
Definition make_sample_party : list Character :=
  let w := new_Warrior "Леголас" in
  let m := new_Mage "Гэндальф" in
  let h := new_Healer "Арагорн" in
  let potion :=
    {| item_name := "Элексир жизни"; description := "Восстанавливает 50 HP";
       hp_restore := 50; mp_restore := 0 |} in
  let mana_potion :=
    {| item_name := "Исидас мортум"; description := "Восстанавливает 40 MP";
       hp_restore := 0; mp_restore := 40 |} in
  let m := with_items m potion 1 in
  let w := with_items w potion 1 in
  let h := with_items h mana_potion 1 in
  [w; m; h].

(** The store that [main] builds: the party, then the boss.  The
    generator repeats one raw output and the player types the same line
    at every prompt. *)
Definition main_state (raw : N) (line : string) : State :=
  {| chars := make_sample_party ++ [new_Boss "Огнедышащий дракон"];
     rng := {| tape := fun _ => raw; pos := 0 |};
     stdin := {| lines := fun _ => line; cursor := 0 |};
     round := 1; entries := []; battle_log_json := None |}.

(** [Battle(party, boss, verbose=True)] over that store. *)
Definition main_battle : Battle :=
  {| party := [0; 1; 2]%nat; boss := 3%nat;
     combatants := [0; 1; 2]%nat ++ [3%nat]; verbose := true |}.

(* ===================================================================== *)
(** ** Vocabulary of the statements *)
(* ===================================================================== *)

(** A skill call is refused when the caster is silenced, the skill is on
    cooldown, or the mana does not cover the cost ... *)
Definition blocked (c : Character) (skill : string) (cost : Q) : Prop :=
  is_silenced c = true \/ (0 < cooldown_of c skill)%Z \/ mp c < cost.

(** ... and goes through otherwise. *)
Definition ready (c : Character) (skill : string) (cost : Q) : Prop :=
  is_silenced c = false /\ (cooldown_of c skill <= 0)%Z /\ cost <= mp c.

(** The caster after paying for a skill. *)
Definition paid (skill : string) (cost : Q) (cd : Z) (c : Character) : Character :=
  with_cooldowns (set_mp c (mp c - cost)) (<[skill := cd]> (cooldowns c)).

(** What [mass_heal] does to one ally. *)
Definition heal_living (amount : Q) (cs : list Character) (a : Ref) : list Character :=
  if is_alive (deref cs a) then alter (fun t => heal t amount) a cs else cs.

(** Descending order of a key on references. *)
Definition ge_key (key : Ref -> Q) (x y : Ref) : Prop := key y <= key x.

(** The bound of the data model: hp and mp within the (non-negative)
    maxima fixed at construction. *)
Definition within_max (c : Character) : Prop :=
  0 <= max_hp c /\ 0 <= max_mp c /\ hp c <= max_hp c /\ mp c <= max_mp c.

(** The maxima never change, and the bound, once true, stays true. *)
Definition keeps_max (c c' : Character) : Prop :=
  max_hp c' = max_hp c /\ max_mp c' = max_mp c /\ (within_max c -> within_max c').

(** The effects that the program attaches: the boss's shield and silence
    and the mage's burn, each with its fixed duration. *)
Definition attachable (e : Effect) : Prop :=
  match e with
  | ShieldEffect _ _ d | DotEffect _ _ d => d = 2%Z
  | SilenceEffect _ d => d = 1%Z
  | RegenEffect _ _ _ => False
  end.

(** [evolves R m]: running [m] keeps every object in place and relates its
    new state to its old one by [R]. *)
Definition evolves (R : Character -> Character -> Prop) {A} (m : M A) : Prop :=
  forall s, Forall2 R (chars s) (chars (snd (m s))).

(** [preserves f m]: running [m] does not change the component [f] of the
    state. *)
Definition preserves {X A} (f : State -> X) (m : M A) : Prop :=
  forall s, f (snd (m s)) = f s.

(** Every silence on the character has at most one round left. *)
Definition brief_silences (c : Character) : Prop :=
  Forall (fun e => is_SilenceEffect e = true -> (duration e <= 1)%Z) (effects c).

Definition keeps_brief (c c' : Character) : Prop :=
  brief_silences c -> brief_silences c'.

(** A state in which every silence is brief. *)
Definition calm (s : State) : Prop := Forall brief_silences (chars s).

(** [duration -= 1] *)
Definition tick (e : Effect) : Effect := set_duration e (duration e - 1)%Z.

(** The silence check that never fires. *)
Definition never_silenced (c : Character) : bool := false.

(** Two computations that agree on calm states. *)
Definition same_when_calm {A} (m1 m2 : M A) : Prop :=
  forall s, calm s -> m1 s = m2 s.

(** What [__set__] raises when [float()] raised [e]: [TypeError] and
    [ValueError] are caught and answered with [TypeError]; any other
    exception is not caught and passes. *)
Definition reraised (e : PyExc) : PyExc :=
  match e with
  | TypeError | ValueError => TypeError
  | _ => e
  end.

(** The state after the boss's answer to a hero's action: one generator
    output used, one log record, one [smash]. *)
Definition retaliated (b : Battle) (target : Ref) (s1 s2 : State) : Prop :=
  entries s2 = entries s1 ++ [Retaliation target] /\
  chars s2 = alter (fun t => take_damage t (strength (deref (chars s1) (boss b)) * 2.2))
               target (chars s1) /\
  pos (rng s2) = S (pos (rng s1)).

(** *** Vocabulary of the further properties *)

(** The names in an inventory, in insertion order. *)
Definition inv_keys (items : list (string * (Item * Z))) : list string :=
  map fst items.

(** The count held under a name, 0 when the name is absent. *)
Definition inv_count (items : list (string * (Item * Z))) (name : string) : Z :=
  match inv_lookup name items with
  | Some (_, cnt) => cnt
  | None => 0%Z
  end.


(** One round's change to a cooldown counter. *)
Definition cooled (v : Z) : Z := if (0 <? v)%Z then (v - 1)%Z else v.

(** One round's change to the cooldowns of a character. *)
Definition cool_down (ch : Character) : Character :=
  with_cooldowns ch (cooled <$> cooldowns ch).

(** The attributes that identify a character and its base stats. *)
Definition same_base (c c' : Character) : Prop :=
  cls c' = cls c /\ name c' = name c /\ level c' = level c /\
  strength c' = strength c /\ agility c' = agility c /\
  intelligence c' = intelligence c /\
  crit_chance c' = crit_chance c /\ crit_multiplier c' = crit_multiplier c.

(** hp and mp are not negative. *)
Definition vitals_nonneg (c : Character) : Prop := 0 <= hp c /\ 0 <= mp c.

Definition keeps_nonneg (c c' : Character) : Prop :=
  vitals_nonneg c -> vitals_nonneg c'.

(** The records that a turn can add to the log. *)
Definition is_turn_entry (e : LogEntry) : Prop :=
  match e with
  | Retaliation _ | PlayerExit => True
  | _ => False
  end.

(** [turn_log s flow s' mid]: between [s] and [s'] the records [mid] were
    added, all of them turn records; and if the code left [run] through
    [return], it returned [False], the last record is the player's exit and
    the log was dumped right after it. *)
Definition turn_log (s : State) (flow : Flow) (s' : State)
    (mid : list LogEntry) : Prop :=
  entries s' = entries s ++ mid /\
  Forall is_turn_entry mid /\
  forall v, flow = Return v ->
    v = false /\ battle_log_json s' = Some (entries s') /\
    exists mid', mid = mid' ++ [PlayerExit].

(** The condition of the [while] loop of [Battle.run]. *)
Definition loop_condition (b : Battle) (max_rounds : Z) (s : State) : bool :=
  ((round s <=? max_rounds)%Z && is_alive (deref (chars s) (boss b))
   && any_alive (chars s) (party b))%bool.

(** The log of consecutive rounds, from round [r] up to (not including)
    round [r']: each round is bracketed by its begin and end records, the
    header follows the begin record, and only turn records lie between. *)
Inductive round_blocks : Z -> list LogEntry -> Z -> Prop :=
| blocks_nil (r : Z) : round_blocks r [] r
| blocks_cons (r : Z) (ph : Z) (mid rest : list LogEntry) (r' : Z) :
    Forall is_turn_entry mid ->
    round_blocks (r + 1) rest r' ->
    round_blocks r
      (RoundBegin r :: RoundHeader r ph :: mid ++ RoundEnd r :: rest) r'.

(** How [Battle.run] can end. *)
Inductive Ending := PartyWon | BossWon | PlayerLeft.

(** What [run] returns for each ending. *)
Definition verdict (e : Ending) : bool :=
  match e with PartyWon => true | _ => false end.

(** The records that close the log for each ending. *)
Definition closing (e : Ending) : list LogEntry :=
  match e with
  | PartyWon => [PartyWins]
  | BossWon => [BossWins]
  | PlayerLeft => []
  end.

(** The base damage of a basic attack: the strength, multiplied on a
    critical hit. *)
Definition attack_base (c : Character) (crit : bool) : Q :=
  if crit then strength c * crit_multiplier c else strength c.

(** A damage that is not lost to rounding: a base damage of [2^-50] or
    more does not underflow, and a damage of [hp / 2^50] or more is well
    above half a unit in the last place of [hp], which is at most
    [hp / 2^53], so that subtracting it from [hp] in floating point gives
    less than [hp]. *)
Definition float_margin : Q := inject_Z (2 ^ 50).

(** *** States and items used in examples *)

(** A potion, and a state in which the boss of the sample party has lost
    half of its hp. *)
Definition sample_potion : Item :=
  {| item_name := "potion"; description := ""; hp_restore := 50; mp_restore := 0 |}.

Definition wounded_boss_state : State :=
  with_chars (main_state 0 "")
    (alter (fun c => with_hp c 300) 3%nat (chars (main_state 0 ""))).

(** A console on which the player asks to leave and then declines. *)
Definition hesitant_state : State :=
  with_stdin (main_state 0 "")
    {| lines := fun n => match n with O => "0" | _ => "no" end; cursor := 0 |}.

(** A console on which the player asks to leave and confirms. *)
Definition leaving_state : State :=
  with_stdin (main_state 0 "")
    {| lines := fun n => match n with O => "0" | _ => "yes" end; cursor := 0 |}.

(* ===================================================================== *)
(** ** Arithmetic of [min], [max] and the clamp *)
(* ===================================================================== *)

Lemma py_max_spec a b : py_max a b == Qmax a b.
Proof.
  unfold py_max. destruct (Qlt_le_dec a b) as [H|H].
  - symmetry. apply Q.max_r. lra.
  - symmetry. apply Q.max_l. exact H.
Qed.

Lemma py_min_spec a b : py_min a b == Qmin a b.
Proof.
  unfold py_min. destruct (Qlt_le_dec b a) as [H|H].
  - symmetry. apply Q.min_r. lra.
  - symmetry. apply Q.min_l. exact H.
Qed.

(** Case analysis on every comparison, minimum and maximum in sight,
    then linear arithmetic. *)
Ltac qcases :=
  repeat match goal with
  | |- context [Qlt_le_dec ?a ?b] => destruct (Qlt_le_dec a b)
  | H : context [Qlt_le_dec ?a ?b] |- _ => destruct (Qlt_le_dec a b)
  | |- context [Qmax ?a ?b] =>
      let H := fresh in
      destruct (Q.max_spec a b) as [[? H]|[? H]]; rewrite H in *; clear H
  | |- context [Qmin ?a ?b] =>
      let H := fresh in
      destruct (Q.min_spec a b) as [[? H]|[? H]]; rewrite H in *; clear H
  end.

Lemma clamp_unbounded nm v :
  BoundedStat.clamp (BoundedStat.new nm 0 None) v = py_max 0 v.
Proof. reflexivity. Qed.

Lemma py_max_0_nonneg v : 0 <= py_max 0 v.
Proof. unfold py_max. qcases; lra. Qed.

Lemma py_max_0_le v m : 0 <= m -> v <= m -> py_max 0 v <= m.
Proof. unfold py_max. intros. qcases; lra. Qed.

Lemma py_max_0_id v : 0 <= v -> py_max 0 v == v.
Proof. unfold py_max. intros. qcases; lra. Qed.

(** Unfold the attribute writes and the descriptor clamp. *)
Ltac unfold_stats :=
  cbv [set_hp set_mp heal restore_mp
       BoundedStat.clamp BoundedStat.new BoundedStat.max BoundedStat.min
       Human_hp Human_mp Human_strength Human_agility Human_intelligence
       with_hp with_mp with_shield with_effects with_cooldowns with_inventory
       with_crit_chance
       cls name level max_hp max_mp hp mp strength agility intelligence
       crit_chance crit_multiplier effects shield cooldowns inventory] in *.

(* ===================================================================== *)
(** ** Damage and the shield *)
(* ===================================================================== *)

Example take_damage_through_shield :
  let c := with_shield (new_Warrior "w") 10 in
  shield (take_damage c 25) == 0 /\ hp (take_damage c 25) == 135.
Proof. vm_compute. split; reflexivity. Qed.

(** C2.  For a character with shield [S >= 0] (and stored hp [>= 0], as
    the descriptor guarantees) and an incoming amount [A >= 0],
    [take_damage] absorbs [min(S, A)] into the shield, which is left at
    [S - min(S, A)], and lowers hp by [max(0, A - S)], floored at 0. *)
Theorem take_damage_shield_arithmetic (c : Character) (A : Q) :
  0 <= shield c -> 0 <= A -> 0 <= hp c ->
  let S := shield c in
  let absorbed := Qmin S A in
  shield (take_damage c A) == S - absorbed /\
  hp (take_damage c A) == Qmax 0 (hp c - Qmax 0 (A - S)) /\
  hp c - hp (take_damage c A) == Qmin (hp c) (Qmax 0 (A - S)).
Proof.
  intros HS HA Hhp S absorbed. subst S absorbed.
  unfold take_damage, py_min.
  destruct c as [k nm lv mh mm h m st ag it cc cm es shield0 cds inv]. unfold_stats.
  destruct (Qlt_le_dec 0 shield0) as [Hs|Hs].
  - destruct (Qlt_le_dec A shield0) as [Hlt|Hge].
    + destruct (Qlt_le_dec 0 (A - A)) as [Habs|_]; [lra|].
      qcases; lra.
    + destruct (Qlt_le_dec 0 (A - shield0)) as [Hpos|Hnp];
        unfold py_max; qcases; lra.
  - destruct (Qlt_le_dec 0 A) as [Hpos|Hnp];
      unfold py_max; qcases; lra.
Qed.

Lemma take_damage_witness :
  let c := with_shield (new_Warrior "Arthur") 10 in
  (0 <= shield c /\ 0 <= 25 /\ 0 <= hp c) /\
  shield (take_damage c 25) == shield c - Qmin (shield c) 25.
Proof.
  split.
  - vm_compute. repeat split; discriminate.
  - apply (take_damage_shield_arithmetic (with_shield (new_Warrior "Arthur") 10) 25);
      vm_compute; discriminate.
Defined.

(* ===================================================================== *)
(** ** The phase of the boss *)
(* ===================================================================== *)

Example phase_at_ratio_04 : phase (with_hp (new_Boss "Dragon") 240) = 2%Z.
Proof. reflexivity. Qed.

(** C3.  For a boss whose [max_hp] is positive (600 for every [Boss]),
    the phase is determined by the ratio [hp / max_hp] alone: above 0.66
    it is 1, in (0.33, 0.66] it is 2, at or below 0.33 it is 3; two boss
    states with the same ratio are in the same phase, whatever happened
    before. *)
Theorem phase_is_function_of_ratio (b : Character) :
  0 < max_hp b ->
  let ratio := hp b / max_hp b in
  (0.66 < ratio -> phase b = 1%Z) /\
  (0.33 < ratio /\ ratio <= 0.66 -> phase b = 2%Z) /\
  (ratio <= 0.33 -> phase b = 3%Z) /\
  (forall b' : Character,
     0 < max_hp b' -> hp b' / max_hp b' == ratio -> phase b' = phase b).
Proof.
  intros Hmax ratio.
  assert (Hphase : forall c : Character, 0 < max_hp c ->
            phase c = if Qlt_le_dec 0.66 (hp c / max_hp c) then 1%Z
                      else if Qlt_le_dec 0.33 (hp c / max_hp c) then 2%Z
                      else 3%Z).
  { intros c Hc. unfold phase. cbn [nth phase_thresholds].
    destruct (Qlt_le_dec 0 (max_hp c)) as [_|Hle]; [reflexivity | lra]. }
  rewrite (Hphase b Hmax). fold ratio.
  repeat split.
  - intros H. destruct (Qlt_le_dec 0.66 ratio); [reflexivity | lra].
  - intros [H1 H2]. destruct (Qlt_le_dec 0.66 ratio); [lra|].
    destruct (Qlt_le_dec 0.33 ratio); [reflexivity | lra].
  - intros H. destruct (Qlt_le_dec 0.66 ratio); [lra|].
    destruct (Qlt_le_dec 0.33 ratio); [lra | reflexivity].
  - intros b' Hmax' Heq. rewrite (Hphase b' Hmax').
    set (ratio' := hp b' / max_hp b') in *.
    destruct (Qlt_le_dec 0.66 ratio'), (Qlt_le_dec 0.66 ratio); try lra;
      try reflexivity.
    destruct (Qlt_le_dec 0.33 ratio'), (Qlt_le_dec 0.33 ratio); try lra;
      reflexivity.
Qed.

Lemma phase_witness :
  let b := with_hp (new_Boss "Dragon") 240 in
  0 < max_hp b /\ (0.33 < hp b / max_hp b /\ hp b / max_hp b <= 0.66) /\
  phase b = 2%Z.
Proof.
  assert (H0 : 0 < max_hp (with_hp (new_Boss "Dragon") 240)) by reflexivity.
  split; [exact H0|].
  assert (H1 : 0.33 < hp (with_hp (new_Boss "Dragon") 240)
                      / max_hp (with_hp (new_Boss "Dragon") 240)
               /\ hp (with_hp (new_Boss "Dragon") 240)
                      / max_hp (with_hp (new_Boss "Dragon") 240) <= 0.66).
  { split; vm_compute; [reflexivity | discriminate]. }
  split; [exact H1|].
  exact (proj1 (proj2 (phase_is_function_of_ratio _ H0)) H1).
Defined.

(* ===================================================================== *)
(** ** Assignment to a bounded stat *)
(* ===================================================================== *)

Example set_hp_from_string :
  BoundedStat.__set__ Human_hp ∅ (PyStr "42") = ({[ "_hp" := 42 ]}, Ok tt).
Proof. vm_compute. reflexivity. Qed.

Lemma validate_cases (d : BoundedStat.t) (value : PyValue) :
  match py_float value with
  | Ok v => BoundedStat.validate d value = Ok (BoundedStat.clamp d v)
  | Raise e => BoundedStat.validate d value = Raise (reraised e)
  | Beyond => BoundedStat.validate d value = Beyond
  end.
Proof.
  unfold BoundedStat.validate.
  destruct (py_float value) as [v|e|]; [reflexivity | | reflexivity].
  destruct e; reflexivity.
Qed.

Lemma py_float_int (z : Z) :
  py_float (PyInt z)
  = if (float_overflow_bound <=? Z.abs z)%Z then Raise OverflowError
    else Ok (inject_Z z).
Proof. reflexivity. Qed.

Example float_of_huge_int : py_float (PyInt (10 ^ 400)) = Raise OverflowError.
Proof. vm_compute. reflexivity. Qed.

Example float_of_texts :
  py_float (PyStr " 1_000.5e1 ") = Ok 10005 /\
  py_float (PyStr "-Infinity") = Beyond /\
  py_float (PyStr "1e400") = Beyond /\
  py_float (PyStr "1__0") = Raise ValueError /\
  py_float (PyStr "") = Raise ValueError.
Proof. vm_compute. repeat split; reflexivity. Qed.

Lemma clamp_spec (d : BoundedStat.t) (v : Q) :
  match BoundedStat.max d with
  | None => BoundedStat.clamp d v == Qmax (BoundedStat.min d) v
  | Some mx => BoundedStat.clamp d v == Qmax (BoundedStat.min d) (Qmin mx v)
  end.
Proof.
  unfold BoundedStat.clamp. destruct (BoundedStat.max d) as [mx|].
  - rewrite py_max_spec.
    apply Q.max_compat; [reflexivity | apply py_min_spec].
  - apply py_max_spec.
Qed.

(** C7, as amended.  What an assignment does is decided by [float(value)].
    If [float] raises [TypeError] or [ValueError] (for [None], for an
    object that is no number, for a text that is no literal), the
    assignment raises [TypeError], the validation error of the design.  If
    [float] raises anything else, which it does with [OverflowError] for
    an integer of magnitude [2^1024 - 2^970] or more, that exception is
    not caught and passes.  In both cases the instance is left as it was.
    If [float] returns a finite number [v], a numeric text included, the
    clamp of [v] is stored: at least [min], equal to [max(min, v)] without
    a maximum and to [max(min, min(max, v))] with one, hence at most [max]
    when [min <= max].  The values for which [float] returns inf or nan,
    and the texts outside ASCII, are beyond the model. *)
Theorem set_converts_then_clamps (d : BoundedStat.t)
    (instance : gmap string Q) (value : PyValue) :
  match py_float value with
  | Raise e =>
      BoundedStat.__set__ d instance value = (instance, Raise (reraised e))
  | Ok v =>
      exists stored : Q,
        BoundedStat.__set__ d instance value
          = (<[BoundedStat.private_name d := stored]> instance, Ok tt) /\
        BoundedStat.__get__ d (fst (BoundedStat.__set__ d instance value)) = stored /\
        BoundedStat.min d <= stored /\
        match BoundedStat.max d with
        | None => stored == Qmax (BoundedStat.min d) v
        | Some mx =>
            stored == Qmax (BoundedStat.min d) (Qmin mx v) /\
            (BoundedStat.min d <= mx -> stored <= mx)
        end
  | Beyond => snd (BoundedStat.__set__ d instance value) = Beyond
  end /\
  (forall z : Z, value = PyInt z ->
     if (float_overflow_bound <=? Z.abs z)%Z
     then BoundedStat.__set__ d instance value = (instance, Raise OverflowError)
     else py_float value = Ok (inject_Z z)) /\
  (value = PyNone \/ value = PyObject ->
     BoundedStat.__set__ d instance value = (instance, Raise TypeError)).
Proof.
  pose proof (validate_cases d value) as Hv.
  split; [|split].
  - unfold BoundedStat.__set__.
    destruct (py_float value) as [v|e|]; rewrite Hv; [|reflexivity|reflexivity].
    exists (BoundedStat.clamp d v). split; [reflexivity|]. split.
    { cbn [fst]. unfold BoundedStat.__get__. rewrite lookup_insert_eq. reflexivity. }
    pose proof (clamp_spec d v) as Hc.
    destruct (BoundedStat.max d) as [mx|].
    + split; [|split; [exact Hc|]].
      * rewrite Hc. apply Q.le_max_l.
      * intros Hle. rewrite Hc. apply Q.max_lub; [exact Hle | apply Q.le_min_l].
    + split; [|exact Hc]. rewrite Hc. apply Q.le_max_l.
  - intros z ->. rewrite py_float_int in Hv |- *.
    unfold BoundedStat.__set__.
    destruct (float_overflow_bound <=? Z.abs z)%Z; [|reflexivity].
    rewrite Hv. reflexivity.
  - intros [-> | ->]; reflexivity.
Qed.

(** C7 as stated fails: the string ["42"] is not a number, yet assigning
    it raises nothing and stores 42. *)
Lemma set_accepts_numeric_string :
  is_number (PyStr "42") = false /\
  BoundedStat.__set__ Human_hp ∅ (PyStr "42") = ({[ "_hp" := 42 ]}, Ok tt).
Proof. split; vm_compute; reflexivity. Qed.

Lemma set_converts_witness :
  BoundedStat.min (BoundedStat.new "hp" 0 (Some 100)) <= 100 /\
  (exists stored : Q,
     BoundedStat.__set__ (BoundedStat.new "hp" 0 (Some 100)) ∅ (PyInt 250)
       = (<["_hp" := stored]> ∅, Ok tt) /\
     stored <= 100) /\
  BoundedStat.__set__ (BoundedStat.new "hp" 0 (Some 100)) ∅ (PyInt (10 ^ 400))
    = (∅, Raise OverflowError).
Proof.
  split; [discriminate|]. split.
  - destruct (proj1 (set_converts_then_clamps
                       (BoundedStat.new "hp" 0 (Some 100)) ∅ (PyInt 250)))
      as (stored & Hset & _ & _ & _ & Hle).
    exists stored. split; [exact Hset | apply Hle; discriminate].
  - pose proof (set_converts_then_clamps
                  (BoundedStat.new "hp" 0 (Some 100)) ∅ (PyInt (10 ^ 400))) as H.
    destruct H as (_ & H & _).
    specialize (H (10 ^ 400)%Z). specialize (H eq_refl).
    assert (E : (float_overflow_bound <=? Z.abs (10 ^ 400))%Z = true).
    { vm_compute. reflexivity. }
    rewrite E in H. exact H.
Defined.



(* ===================================================================== *)
(** ** The object store *)
(* ===================================================================== *)

Lemma with_chars_id (s : State) : with_chars s (chars s) = s.
Proof. destruct s; reflexivity. Qed.

(** Reading an object does not change the state. *)
Lemma obj_bind {B} (r : Ref) (k : Character -> M B) (s : State) :
  bind (obj r) k s = k (deref (chars s) r) s.
Proof. reflexivity. Qed.

Lemma alter_fixed {A} (f : A -> A) (l : list A) (i : nat) :
  (forall x, l !! i = Some x -> f x = x) -> alter f i l = l.
Proof.
  revert i. induction l as [|a l IH]; intros [|i] H; cbn; try reflexivity.
  - f_equal. apply H. reflexivity.
  - f_equal. apply IH. intros x Hx. apply H. exact Hx.
Qed.

Lemma deref_alter_eq (f : Character -> Character) (cs : list Character) (r : Ref) :
  (r < length cs)%nat -> deref (alter f r cs) r = f (deref cs r).
Proof.
  intros Hr. unfold deref. rewrite list_lookup_alter_eq.
  destruct (lookup_lt_is_Some_2 cs r Hr) as [c Hc]. rewrite Hc. reflexivity.
Qed.

Lemma deref_alter_ne (f : Character -> Character) (cs : list Character) (r r' : Ref) :
  r <> r' -> deref (alter f r cs) r' = deref cs r'.
Proof. intros Hne. unfold deref. rewrite list_lookup_alter_ne; auto. Qed.

Lemma deref_alter_invalid (f : Character -> Character) (cs : list Character) (r r' : Ref) :
  (length cs <= r)%nat -> deref (alter f r cs) r' = deref cs r'.
Proof.
  intros Hr. unfold deref.
  destruct (decide (r = r')) as [<-|Hne].
  - rewrite list_lookup_alter_eq, (lookup_ge_None_2 cs r); [reflexivity | lia].
  - rewrite list_lookup_alter_ne; auto.
Qed.

Lemma deref_valid (cs : list Character) (r : Ref) :
  0 < mp (deref cs r) \/ 0 < hp (deref cs r) -> (r < length cs)%nat.
Proof.
  intros H. destruct (le_lt_dec (length cs) r) as [Hge|Hlt]; [|exact Hlt].
  unfold deref in H. rewrite (lookup_ge_None_2 cs r) in H by lia.
  cbn in H. destruct H as [H|H]; vm_compute in H; discriminate.
Qed.

(* ===================================================================== *)
(** ** Skills that fail *)
(* ===================================================================== *)

Lemma spend_mp_insufficient (c : Character) (cost : Q) :
  mp c < cost -> spend_mp c cost = (c, false).
Proof.
  intros H. unfold spend_mp. destruct (Qlt_le_dec (mp c) cost); [reflexivity | lra].
Qed.

Lemma call_spend_mp_insufficient (s : State) (self : Ref) (cost : Q) :
  mp (deref (chars s) self) < cost ->
  call self (fun c => spend_mp c cost) s = (false, s).
Proof.
  intros H. unfold call, bind, obj, gets, update, modify, ret. cbn.
  rewrite (spend_mp_insufficient _ _ H). cbn [snd].
  rewrite alter_fixed, with_chars_id; [reflexivity|].
  intros x Hx. unfold deref in H. rewrite Hx in H. cbn in H.
  rewrite (spend_mp_insufficient _ _ H). reflexivity.
Qed.

(** Run the guards of a skill on a caster that is [blocked]. *)
Ltac refuse Hblocked :=
  unfold bind at 1, obj at 1, gets at 1;
  destruct Hblocked as [Hsil | [Hcd | Hmp]];
  [ rewrite Hsil; reflexivity
  | destruct (is_silenced _); [reflexivity|];
    apply Z.ltb_lt in Hcd; rewrite Hcd; reflexivity
  | destruct (is_silenced _); [reflexivity|];
    destruct (0 <? cooldown_of _ _)%Z; [reflexivity|];
    unfold bind at 1; rewrite (call_spend_mp_insufficient _ _ _ Hmp);
    reflexivity ].

Lemma power_strike_refused (s : State) (self target : Ref) :
  blocked (deref (chars s) self) "power_strike" 8 ->
  power_strike is_silenced self target s = (false, s).
Proof. intros H. unfold power_strike. refuse H. Qed.

Lemma fireball_refused (s : State) (self target : Ref) :
  blocked (deref (chars s) self) "fireball" 20 ->
  fireball is_silenced self target s = (false, s).
Proof. intros H. unfold fireball. refuse H. Qed.

Lemma mass_heal_refused (s : State) (self : Ref) (allies : list Ref) :
  blocked (deref (chars s) self) "mass_heal" 25 ->
  mass_heal is_silenced self allies s = (false, s).
Proof. intros H. unfold mass_heal. refuse H. Qed.

(** C1.  A signature skill called by a caster that is silenced, or whose
    cooldown counter for the skill is positive, or whose mp is below the
    cost (8, 20 and 25), returns [False] and changes nothing: the
    caster's mp and cooldowns, like the rest of the state, are as
    before.  Silence alone is enough, whatever the cooldown and the mp. *)
Theorem blocked_skill_fails_without_effect
    (s : State) (self target : Ref) (allies : list Ref) :
  let c := deref (chars s) self in
  (is_silenced c = true \/ (0 < cooldown_of c "power_strike")%Z \/ mp c < 8 ->
   power_strike is_silenced self target s = (false, s)) /\
  (is_silenced c = true \/ (0 < cooldown_of c "fireball")%Z \/ mp c < 20 ->
   fireball is_silenced self target s = (false, s)) /\
  (is_silenced c = true \/ (0 < cooldown_of c "mass_heal")%Z \/ mp c < 25 ->
   mass_heal is_silenced self allies s = (false, s)).
Proof.
  intros c. repeat split; intros H.
  - apply power_strike_refused. exact H.
  - apply fireball_refused. exact H.
  - apply mass_heal_refused. exact H.
Qed.

(** A hero silenced by the boss, with full mana and no cooldown. *)
Lemma blocked_skill_witness :
  let s := with_chars (main_state 0 "")
             (alter (fun c => apply_effect c (SilenceEffect 3 1)) 0%nat
                (chars (main_state 0 ""))) in
  is_silenced (deref (chars s) 0) = true /\
  power_strike is_silenced 0 3 s = (false, s).
Proof.
  cbv zeta. split; [reflexivity|].
  apply (blocked_skill_fails_without_effect _ 0 3 []).
  left. reflexivity.
Defined.

(* ===================================================================== *)
(** ** Skills that succeed *)
(* ===================================================================== *)

Lemma spend_mp_sufficient (c : Character) (cost : Q) :
  cost <= mp c -> spend_mp c cost = (set_mp c (mp c - cost), true).
Proof.
  intros H. unfold spend_mp. destruct (Qlt_le_dec (mp c) cost); [lra | reflexivity].
Qed.

Lemma paid_chars (cs : list Character) (self : Ref) (skill : string) (cost : Q) (cd : Z) :
  cost <= mp (deref cs self) ->
  alter (fun c0 => with_cooldowns c0 (<[skill := cd]> (cooldowns c0))) self
    (alter (fun c0 => (spend_mp c0 cost).1) self cs)
  = alter (paid skill cost cd) self cs.
Proof.
  intros H. rewrite list_alter_alter_eq. apply list_alter_ext; [|reflexivity].
  intros x Hx. unfold deref in H. rewrite Hx in H. cbn in H. cbn.
  rewrite (spend_mp_sufficient x cost H). reflexivity.
Qed.

Lemma deref_paid (cs : list Character) (self : Ref) (skill : string) (cost : Q) (cd : Z) :
  0 < cost -> cost <= mp (deref cs self) ->
  deref (alter (paid skill cost cd) self cs) self = paid skill cost cd (deref cs self).
Proof.
  intros Hpos H. apply deref_alter_eq. apply deref_valid. left. lra.
Qed.

(** Run the guards of a skill on a caster that is [ready]. *)
Ltac admit_caster c Hready :=
  let Hsil := fresh "Hsil" in
  let Hcd := fresh "Hcd" in
  let Hmp := fresh "Hmp" in
  destruct Hready as (Hsil & Hcd & Hmp);
  unfold bind at 1, obj at 1, gets at 1; fold c; rewrite Hsil;
  apply Z.ltb_ge in Hcd; rewrite Hcd;
  unfold bind at 1; unfold call, bind, obj, gets, update, modify, ret; cbn;
  fold c; rewrite (spend_mp_sufficient c _ Hmp); cbn;
  rewrite !paid_chars by exact Hmp;
  rewrite ?deref_paid by (try exact Hmp; reflexivity).

Lemma power_strike_succeeds (s : State) (self target : Ref) :
  let c := deref (chars s) self in
  ready c "power_strike" 8 ->
  let u := fst (random_random s) in
  let damage :=
    if Qlt_le_dec u (crit_chance c)
    then strength c * 2.0 * crit_multiplier c else strength c * 2.0 in
  exists s',
    power_strike is_silenced self target s = (true, s') /\
    chars s' = alter (fun t => take_damage t damage) target
                 (alter (paid "power_strike" 8 2) self (chars s)) /\
    pos (rng s') = S (pos (rng s)).
Proof.
  intros c Hready u damage.
  unfold power_strike. admit_caster c Hready.
  eexists. split; [reflexivity|]. split; [|reflexivity].
  cbn. subst damage u c. cbn.
  destruct (Qlt_le_dec _ _); reflexivity.
Qed.

Lemma fireball_succeeds (s : State) (self target : Ref) :
  let c := deref (chars s) self in
  ready c "fireball" 20 ->
  let damage := intelligence c * 3.0 in
  exists s',
    fireball is_silenced self target s = (true, s') /\
    chars s' = alter (fun t => apply_effect (take_damage t damage)
                                 (DotEffect self (damage * 0.25) 2)) target
                 (alter (paid "fireball" 20 3) self (chars s)) /\
    rng s' = rng s.
Proof.
  intros c Hready damage.
  unfold fireball. admit_caster c Hready.
  eexists. split; [reflexivity|]. split; [|reflexivity].
  cbn. rewrite list_alter_alter_eq. reflexivity.
Qed.

Lemma with_chars_chars (s : State) (cs : list Character) :
  chars (with_chars s cs) = cs.
Proof. reflexivity. Qed.

Lemma with_chars_twice (s : State) (cs cs' : list Character) :
  with_chars (with_chars s cs) cs' = with_chars s cs'.
Proof. reflexivity. Qed.

Lemma for_each_heal (allies : list Ref) (amount : Q) (s : State) :
  for_each allies (fun a =>
    ca <- obj a ;;
    if is_alive ca then update a (fun t => heal t amount) else ret tt) s
  = (tt, with_chars s (foldl (heal_living amount) (chars s) allies)).
Proof.
  revert s. induction allies as [|a allies IH]; intros s.
  - cbn. rewrite with_chars_id. reflexivity.
  - cbn [for_each foldl]. unfold bind at 1. unfold bind at 1, obj at 1, gets at 1.
    unfold heal_living at 2.
    destruct (is_alive (deref (chars s) a)).
    + unfold update, modify. rewrite IH. reflexivity.
    + unfold ret. apply IH.
Qed.

Lemma is_alive_valid (cs : list Character) (r : Ref) :
  is_alive (deref cs r) = true -> (r < length cs)%nat.
Proof.
  intros H. apply deref_valid. right. unfold is_alive in H.
  destruct (Qlt_le_dec 0 (hp (deref cs r))); [assumption | discriminate].
Qed.

Lemma heal_living_other (amount : Q) (cs : list Character) (a r : Ref) :
  a <> r -> deref (heal_living amount cs a) r = deref cs r.
Proof.
  intros Hne. unfold heal_living.
  destruct (is_alive (deref cs a)); [apply deref_alter_ne; exact Hne | reflexivity].
Qed.

Lemma heal_living_same (amount : Q) (cs : list Character) (a : Ref) :
  deref (heal_living amount cs a) a
  = if is_alive (deref cs a) then heal (deref cs a) amount else deref cs a.
Proof.
  unfold heal_living. destruct (is_alive (deref cs a)) eqn:Ha; [|reflexivity].
  apply deref_alter_eq, is_alive_valid, Ha.
Qed.

Lemma foldl_heal_living_other (amount : Q) (allies : list Ref) (cs : list Character) (r : Ref) :
  r ∉ allies -> deref (foldl (heal_living amount) cs allies) r = deref cs r.
Proof.
  revert cs. induction allies as [|a allies IH]; intros cs Hr; [reflexivity|].
  cbn [foldl]. apply not_elem_of_cons in Hr as [Hne Hr].
  rewrite IH by exact Hr. apply heal_living_other. congruence.
Qed.

Lemma foldl_heal_living_member (amount : Q) (allies : list Ref) (cs : list Character) (r : Ref) :
  NoDup allies -> r ∈ allies ->
  deref (foldl (heal_living amount) cs allies) r
  = if is_alive (deref cs r) then heal (deref cs r) amount else deref cs r.
Proof.
  revert cs. induction allies as [|a allies IH]; intros cs Hnd Hr.
  - apply elem_of_nil in Hr. contradiction.
  - apply NoDup_cons in Hnd as [Ha Hnd]. cbn [foldl].
    apply elem_of_cons in Hr as [->|Hr].
    + rewrite foldl_heal_living_other by exact Ha. apply heal_living_same.
    + assert (a <> r) by (intros ->; contradiction).
      rewrite IH by assumption. rewrite heal_living_other by assumption.
      reflexivity.
Qed.

Lemma mass_heal_succeeds (s : State) (self : Ref) (allies : list Ref) :
  let c := deref (chars s) self in
  ready c "mass_heal" 25 ->
  let amount := intelligence c * 2.0 in
  let cs1 := alter (paid "mass_heal" 25 3) self (chars s) in
  exists s',
    mass_heal is_silenced self allies s = (true, s') /\
    chars s' = foldl (heal_living amount) cs1 allies /\
    rng s' = rng s.
Proof.
  intros c (Hsil & Hcd & Hmp) amount cs1.
  unfold mass_heal. cbv zeta.
  unfold bind at 1, obj at 1, gets at 1. fold c. rewrite Hsil.
  apply Z.ltb_ge in Hcd. rewrite Hcd.
  unfold bind at 1.
  assert (Hcall : call self (fun c0 => spend_mp c0 25) s
                  = (true, with_chars s (alter (fun c0 => (spend_mp c0 25).1) self (chars s)))).
  { unfold call, bind, obj, gets, update, modify, ret. cbn. fold c.
    rewrite (spend_mp_sufficient c 25 Hmp). reflexivity. }
  rewrite Hcall. cbn [negb].
  unfold bind at 1, set_cooldown at 1, update at 1, modify at 1.
  unfold bind at 1, obj at 1, gets at 1.
  unfold bind at 1. rewrite for_each_heal. unfold ret.
  eexists. split; [reflexivity|]. cbn [chars with_chars rng].
  split; [|reflexivity].
  rewrite !paid_chars by exact Hmp.
  rewrite deref_paid by (try exact Hmp; reflexivity).
  reflexivity.
Qed.

(** C5 as stated fails for [power_strike]: with a generator output of 0
    the critical roll succeeds and the boss loses 60 hp, not
    [strength * 2.0 = 40]. *)
Lemma power_strike_can_crit :
  let s := main_state 0 "" in
  let r := power_strike is_silenced 0 3 s in
  ready (deref (chars s) 0) "power_strike" 8 /\
  fst r = true /\
  hp (deref (chars s) 3) - hp (deref (chars (snd r)) 3) == 60 /\
  ~ (hp (deref (chars s) 3) - hp (deref (chars (snd r)) 3)
     == strength (deref (chars s) 0) * 2.0).
Proof.
  cbv zeta. split; [|split; [|split]].
  - unfold ready. vm_compute. repeat split; discriminate.
  - vm_compute. reflexivity.
  - vm_compute. reflexivity.
  - vm_compute. discriminate.
Qed.

(** C5, as amended.  On a successful cast the amounts are fixed multiples
    of the casting stat.  [power_strike] hits its target for
    [strength * 2.0], times [crit_multiplier] when the critical roll (one
    draw of the generator against [crit_chance]) succeeds.  [fireball]
    hits for [intelligence * 3.0] and attaches a burn of a quarter of
    that for 2 rounds, drawing nothing.  [mass_heal] calls [heal] with
    [intelligence * 2.0] on every living ally (capped at the ally's
    [max_hp]) and on nobody else, drawing nothing.  The caster has paid
    the cost and the cooldown is set before the amount is applied. *)
Theorem signature_skill_amounts (s : State) (self target : Ref) (allies : list Ref) :
  let c := deref (chars s) self in
  (ready c "power_strike" 8 ->
   let u := fst (random_random s) in
   let damage :=
     if Qlt_le_dec u (crit_chance c)
     then strength c * 2.0 * crit_multiplier c else strength c * 2.0 in
   exists s',
     power_strike is_silenced self target s = (true, s') /\
     chars s' = alter (fun t => take_damage t damage) target
                  (alter (paid "power_strike" 8 2) self (chars s)) /\
     pos (rng s') = S (pos (rng s))) /\
  (ready c "fireball" 20 ->
   let damage := intelligence c * 3.0 in
   exists s',
     fireball is_silenced self target s = (true, s') /\
     chars s' = alter (fun t => apply_effect (take_damage t damage)
                                  (DotEffect self (damage * 0.25) 2)) target
                  (alter (paid "fireball" 20 3) self (chars s)) /\
     rng s' = rng s) /\
  (ready c "mass_heal" 25 ->
   let amount := intelligence c * 2.0 in
   let cs1 := alter (paid "mass_heal" 25 3) self (chars s) in
   exists s',
     mass_heal is_silenced self allies s = (true, s') /\
     rng s' = rng s /\
     (forall a, a ∉ allies -> deref (chars s') a = deref cs1 a) /\
     (NoDup allies -> forall a, a ∈ allies ->
        deref (chars s') a
        = if is_alive (deref cs1 a) then heal (deref cs1 a) amount
          else deref cs1 a)).
Proof.
  intros c. split; [|split].
  - intros Hready. apply power_strike_succeeds. exact Hready.
  - intros Hready. apply fireball_succeeds. exact Hready.
  - intros Hready amount cs1.
    destruct (mass_heal_succeeds s self allies Hready) as (s' & Hrun & Hchars & Hrng).
    exists s'. split; [exact Hrun|]. split; [exact Hrng|].
    fold c amount cs1 in Hchars. rewrite Hchars. split.
    + intros a Ha. apply foldl_heal_living_other, Ha.
    + intros Hnd a Ha. apply foldl_heal_living_member; assumption.
Qed.

(** The mage of the sample party casts on the boss: 66 damage and a burn
    of 16.5 for 2 rounds, for 20 mp and a cooldown of 3. *)
Lemma signature_skill_witness :
  let s := main_state 0 "" in
  ready (deref (chars s) 1) "fireball" 20 /\
  exists s',
    fireball is_silenced 1 3 s = (true, s') /\
    hp (deref (chars s') 3) == 600 - 66 /\
    effects (deref (chars s') 3) = [DotEffect 1 (22 * 3.0 * 0.25) 2] /\
    mp (deref (chars s') 1) == 120 /\
    cooldown_of (deref (chars s') 1) "fireball" = 3%Z.
Proof.
  cbv zeta.
  assert (Hready : ready (deref (chars (main_state 0 "")) 1) "fireball" 20).
  { unfold ready. vm_compute. repeat split; discriminate. }
  split; [exact Hready|].
  destruct (proj1 (proj2 (signature_skill_amounts (main_state 0 "") 1 3 []))
              Hready) as (s' & Hrun & Hchars & _).
  exists s'. split; [exact Hrun|]. rewrite Hchars.
  vm_compute. repeat split; reflexivity.
Defined.

(* ===================================================================== *)
(** ** Turn order *)
(* ===================================================================== *)

Lemma swap_Permutation {A} (x : list A) (i j : nat) : swap x i j ≡ₚ x.
Proof.
  unfold swap.
  destruct (x !! i) as [a|] eqn:Hi; [|reflexivity].
  destruct (x !! j) as [b|] eqn:Hj; [|reflexivity].
  apply Permutation_insert_swap; assumption.
Qed.

Lemma randbelow_chars (n : nat) (s : State) :
  chars (snd (randbelow n s)) = chars s.
Proof. reflexivity. Qed.

Lemma shuffle_from_spec {A} (i : nat) (x : list A) (s : State) :
  fst (shuffle_from i x s) ≡ₚ x /\ chars (snd (shuffle_from i x s)) = chars s.
Proof.
  revert x s. induction i as [|i IH]; intros x s.
  - split; reflexivity.
  - cbn [shuffle_from]. unfold bind.
    destruct (randbelow (S (S i)) s) as [j s1] eqn:Hr.
    assert (Hs1 : chars s1 = chars s).
    { change s1 with (snd (j, s1)). rewrite <- Hr. apply randbelow_chars. }
    destruct (IH (swap x (S i) j) s1) as [Hp Hc].
    split.
    + rewrite Hp. apply swap_Permutation.
    + rewrite Hc. exact Hs1.
Qed.

Lemma insert_desc_Permutation (key : Ref -> Q) (x : Ref) (l : list Ref) :
  insert_desc key x l ≡ₚ x :: l.
Proof.
  induction l as [|y l IH]; cbn; [reflexivity|].
  destruct (Qlt_le_dec (key x) (key y)); [|reflexivity].
  rewrite IH. apply Permutation_swap.
Qed.

Lemma sort_desc_Permutation (key : Ref -> Q) (l : list Ref) :
  sort_desc key l ≡ₚ l.
Proof.
  induction l as [|x l IH]; cbn; [reflexivity|].
  rewrite insert_desc_Permutation, IH. reflexivity.
Qed.

Lemma insert_desc_sorted (key : Ref -> Q) (x : Ref) (l : list Ref) :
  StronglySorted (ge_key key) l -> StronglySorted (ge_key key) (insert_desc key x l).
Proof.
  induction 1 as [|y l Hs IH Hall]; cbn.
  - constructor; constructor.
  - destruct (Qlt_le_dec (key x) (key y)) as [Hlt|Hge].
    + constructor; [exact IH|].
      rewrite insert_desc_Permutation. constructor; [|exact Hall].
      unfold ge_key. lra.
    + constructor; [constructor; assumption|].
      constructor; [exact Hge|].
      eapply Forall_impl; [exact Hall|]. unfold ge_key. intros z Hz. lra.
Qed.

Lemma sort_desc_sorted (key : Ref -> Q) (l : list Ref) :
  StronglySorted (ge_key key) (sort_desc key l).
Proof.
  induction l as [|x l IH]; cbn; [constructor|].
  apply insert_desc_sorted, IH.
Qed.

(** The queue that [prepare_round] builds. *)
Lemma prepare_round_spec (combatants : list Ref) (s : State) :
  let order := fst (prepare_round combatants s) in
  chars (snd (prepare_round combatants s)) = chars s /\
  order ≡ₚ living (chars s) combatants /\
  StronglySorted (ge_key (fun x => agility (deref (chars s) x))) order.
Proof.
  unfold prepare_round, bind, gets, random_shuffle, ret. cbn zeta.
  destruct (shuffle_from_spec (length (living (chars s) combatants) - 1)
              (living (chars s) combatants) s) as [Hp Hc].
  destruct (shuffle_from _ _ s) as [shuffled s1]. cbn [fst snd] in *.
  split; [exact Hc|]. split.
  - rewrite sort_desc_Permutation. exact Hp.
  - apply sort_desc_sorted.
Qed.

(** On a queue of living combatants, [__next__] returns the head. *)
Lemma TurnOrder_next_alive (c : Ref) (rest : list Ref) (s : State) :
  is_alive (deref (chars s) c) = true ->
  TurnOrder_next (c :: rest) s = ((Some c, rest), s).
Proof.
  intros H. cbn [TurnOrder_next]. unfold bind, obj, gets. rewrite H. reflexivity.
Qed.

Lemma TurnOrder_drain_alive (order : list Ref) (fuel : nat) (s : State) :
  Forall (fun c => is_alive (deref (chars s) c) = true) order ->
  (length order < fuel)%nat ->
  TurnOrder_drain fuel order s = (Some order, s).
Proof.
  revert fuel. induction order as [|c rest IH]; intros fuel Hall Hfuel.
  - destruct fuel as [|fuel]; [inversion Hfuel|]. reflexivity.
  - destruct fuel as [|fuel]; [inversion Hfuel|].
    apply Forall_cons in Hall as [Hc Hall].
    cbn [TurnOrder_drain]. unfold bind at 1.
    rewrite (TurnOrder_next_alive c rest s Hc).
    unfold bind. rewrite IH; [reflexivity | exact Hall | cbn in Hfuel; lia].
Qed.

(** A dead combatant in the queue is skipped. *)
Lemma TurnOrder_next_dead (c : Ref) (rest : list Ref) (s : State) :
  is_alive (deref (chars s) c) = false ->
  TurnOrder_next (c :: rest) s = TurnOrder_next rest s.
Proof.
  intros H. cbn [TurnOrder_next]. unfold bind, obj, gets. rewrite H. reflexivity.
Qed.

Lemma living_alive (cs : list Character) (refs : list Ref) :
  Forall (fun c => is_alive (deref cs c) = true) (living cs refs).
Proof.
  unfold living. apply Forall_forall. intros c Hc.
  apply list_elem_of_filter in Hc. tauto.
Qed.

(** C6.  Iterating a freshly prepared [TurnOrder] over a store that does
    not change yields a list that is a rearrangement of the living
    combatants (each living one is there, exactly once when the
    combatant list has no repetition), sorted by non-increasing agility,
    and without any dead combatant; the iterator then stops. *)
Theorem turn_order_round (combatants : list Ref) (s : State) :
  let cs := chars s in
  let '(order, s1) := prepare_round combatants s in
  exists yielded : list Ref,
    TurnOrder_drain (S (length order)) order s1 = (Some yielded, s1) /\
    chars s1 = cs /\
    yielded ≡ₚ living cs combatants /\
    StronglySorted (fun x y => agility (deref cs y) <= agility (deref cs x)) yielded /\
    Forall (fun c => is_alive (deref cs c) = true) yielded /\
    (forall c, c ∈ combatants -> is_alive (deref cs c) = true -> c ∈ yielded) /\
    (NoDup combatants -> NoDup yielded).
Proof.
  intros cs.
  pose proof (prepare_round_spec combatants s) as (Hc & Hp & Hs).
  destruct (prepare_round combatants s) as [order s1]. cbn [fst snd] in *.
  assert (Hall : Forall (fun c => is_alive (deref cs c) = true) order).
  { rewrite Hp. apply living_alive. }
  exists order. repeat split.
  - apply TurnOrder_drain_alive; [rewrite Hc; exact Hall | lia].
  - exact Hc.
  - exact Hp.
  - exact Hs.
  - exact Hall.
  - intros c Hin Halive. rewrite Hp. unfold living.
    apply list_elem_of_filter. split; assumption.
  - intros Hnd. rewrite Hp. unfold living. apply NoDup_filter. exact Hnd.
Qed.

Lemma turn_order_witness :
  let s := main_state 5 "" in
  NoDup (combatants main_battle) /\
  exists yielded : list Ref,
    yielded ≡ₚ living (chars s) (combatants main_battle) /\ NoDup yielded.
Proof.
  cbv zeta.
  assert (Hnd : NoDup (combatants main_battle)).
  { apply (bool_decide_unpack _). reflexivity. }
  split; [exact Hnd|].
  pose proof (turn_order_round (combatants main_battle) (main_state 5 "")) as H.
  cbv zeta in H.
  destruct (prepare_round (combatants main_battle) (main_state 5 "")) as [order s1].
  destruct H as (yielded & _ & _ & Hperm & _ & _ & _ & Hnodup).
  exists yielded. split; [exact Hperm | exact (Hnodup Hnd)].
Defined.

(** The actor loop of [Battle.run] is the iteration of [__next__]: it
    takes the next living combatant off the queue, runs the body, and
    goes on with the rest of the queue unless the body broke out. *)
Lemma for_actors_next (silenced : Character -> bool) (b : Battle)
    (order : list Ref) (s : State) :
  for_actors silenced b order s
  = let '((r, rest), s1) := TurnOrder_next order s in
    match r with
    | None => (Next, s1)
    | Some c =>
        bind (actor_turn silenced b c)
          (fun flow =>
             match flow with
             | Next => for_actors silenced b rest
             | other => ret other
             end) s1
    end.
Proof.
  induction order as [|c rest IH]; [reflexivity|].
  cbn [for_actors TurnOrder_next]. rewrite !obj_bind.
  destruct (is_alive (deref (chars s) c)); [reflexivity | exact IH].
Qed.

(* ===================================================================== *)
(** ** How a battle may change a character *)
(* ===================================================================== *)

Section Evolution.

Variable R : Character -> Character -> Prop.
Hypothesis R_refl : forall c, R c c.
Hypothesis R_trans : forall c1 c2 c3, R c1 c2 -> R c2 c3 -> R c1 c3.
Hypothesis R_take_damage : forall c a, R c (take_damage c a).
Hypothesis R_heal : forall c a, R c (heal c a).
Hypothesis R_restore_mp : forall c a, R c (restore_mp c a).
Hypothesis R_spend_mp : forall c cost, 0 <= cost -> R c (fst (spend_mp c cost)).
Hypothesis R_cooldowns : forall c cds, R c (with_cooldowns c cds).
Hypothesis R_inventory : forall c inv, R c (with_inventory c inv).
Hypothesis R_apply_effect : forall c e, attachable e -> R c (apply_effect c e).
Hypothesis R_start_turn : forall c, R c (start_turn_effects c).

Lemma Forall2_R_refl (l : list Character) : Forall2 R l l.
Proof. induction l; constructor; auto. Qed.

Lemma Forall2_R_trans (l1 l2 l3 : list Character) :
  Forall2 R l1 l2 -> Forall2 R l2 l3 -> Forall2 R l1 l3.
Proof.
  intros H12. revert l3. induction H12; intros l3 H23; inversion H23; subst;
    constructor; eauto.
Qed.

Lemma Forall2_R_alter (f : Character -> Character) (r : Ref) (l : list Character) :
  (forall c, R c (f c)) -> Forall2 R l (alter f r l).
Proof.
  intros Hf. revert r. induction l as [|c l IH]; intros [|r]; cbn;
    constructor; auto using Forall2_R_refl.
Qed.

Lemma evolves_ret {A} (a : A) : evolves R (ret a).
Proof. intros s. apply Forall2_R_refl. Qed.

Lemma evolves_bind {A B} (m : M A) (k : A -> M B) :
  evolves R m -> (forall a, evolves R (k a)) -> evolves R (bind m k).
Proof.
  intros Hm Hk s. unfold bind. specialize (Hm s).
  destruct (m s) as [a s1]. cbn [snd] in Hm.
  eapply Forall2_R_trans; [exact Hm | apply Hk].
Qed.

(** A computation that does not touch the object store. *)
Lemma evolves_frame {A} (m : M A) :
  (forall s, chars (snd (m s)) = chars s) -> evolves R m.
Proof. intros H s. rewrite H. apply Forall2_R_refl. Qed.

Lemma evolves_update (r : Ref) (f : Character -> Character) :
  (forall c, R c (f c)) -> evolves R (update r f).
Proof. intros Hf s. cbn. apply Forall2_R_alter, Hf. Qed.

Lemma evolves_for_each {A} (xs : list A) (body : A -> M unit) :
  (forall x, evolves R (body x)) -> evolves R (for_each xs body).
Proof.
  intros Hb. induction xs as [|x xs IH]; cbn [for_each].
  - apply evolves_ret.
  - apply evolves_bind; [apply Hb | intros _; exact IH].
Qed.

Lemma shuffle_from_chars {A} (i : nat) (x : list A) (s : State) :
  chars (snd (shuffle_from i x s)) = chars s.
Proof.
  revert x s. induction i as [|i IH]; intros x s; [reflexivity|].
  cbn [shuffle_from]. unfold bind.
  destruct (randbelow (S (S i)) s) as [j s1] eqn:Hr.
  rewrite IH. change s1 with (snd (j, s1)). rewrite <- Hr. reflexivity.
Qed.

(** One step of the routine goals: sequencing, case analysis on what the
    code branches on, and the primitive reads and writes. *)
Ltac evolve_step :=
  match goal with
  | |- evolves _ (bind _ _) => apply evolves_bind; [|intros ?]
  | |- evolves _ (ret _) => apply evolves_ret
  | |- evolves _ (update _ _) => apply evolves_update; intros ?
  | |- evolves _ (for_each _ _) => apply evolves_for_each; intros ?
  | |- evolves _ (obj _) => apply evolves_frame; reflexivity
  | |- evolves _ (gets _) => apply evolves_frame; reflexivity
  | |- evolves _ random_random => apply evolves_frame; reflexivity
  | |- evolves _ (random_uniform _ _) => apply evolves_frame; reflexivity
  | |- evolves _ (randbelow _) => apply evolves_frame; reflexivity
  | |- evolves _ (random_choice _) => apply evolves_frame; reflexivity
  | |- evolves _ input => apply evolves_frame; reflexivity
  | |- evolves _ (record _) => apply evolves_frame; reflexivity
  | |- evolves _ (broadcast _ _) => apply evolves_frame; reflexivity
  | |- evolves _ dump => apply evolves_frame; reflexivity
  | |- evolves _ (modify _) => apply evolves_frame; reflexivity
  | |- evolves _ (if ?b then _ else _) => destruct b
  | |- evolves _ (match ?x with _ => _ end) => destruct x
  end.

Ltac evolve := repeat evolve_step.

Lemma evolves_roll_crit (self : Ref) : evolves R (roll_crit self).
Proof. apply evolves_frame. reflexivity. Qed.

Lemma evolves_basic_attack (self target : Ref) : evolves R (basic_attack self target).
Proof.
  unfold basic_attack. evolve; try apply evolves_roll_crit. apply R_take_damage.
Qed.

Lemma evolves_call_spend_mp (self : Ref) (cost : Q) :
  0 <= cost -> evolves R (call self (fun c => spend_mp c cost)).
Proof. intros H. unfold call. evolve. apply R_spend_mp, H. Qed.

Lemma evolves_set_cooldown (self : Ref) (skill : string) (cd : Z) :
  evolves R (set_cooldown self skill cd).
Proof. unfold set_cooldown. evolve. apply R_cooldowns. Qed.

Section WithSilence.

Variable silenced : Character -> bool.

Lemma evolves_power_strike (self target : Ref) :
  evolves R (power_strike silenced self target).
Proof.
  unfold power_strike. cbv zeta.
  evolve; try apply evolves_roll_crit; try apply evolves_set_cooldown;
    try (apply evolves_call_spend_mp; discriminate).
  apply R_take_damage.
Qed.

Lemma evolves_fireball (self target : Ref) :
  evolves R (fireball silenced self target).
Proof.
  unfold fireball. cbv zeta.
  evolve; try apply evolves_set_cooldown;
    try (apply evolves_call_spend_mp; discriminate).
  - apply R_take_damage.
  - apply R_apply_effect. reflexivity.
Qed.

Lemma evolves_mass_heal (self : Ref) (allies : list Ref) :
  evolves R (mass_heal silenced self allies).
Proof.
  unfold mass_heal. cbv zeta.
  evolve; try apply evolves_set_cooldown;
    try (apply evolves_call_spend_mp; discriminate).
  apply R_heal.
Qed.

Lemma evolves_use_skill (hero target : Ref) (allies : list Ref) :
  evolves R (use_skill silenced hero target allies).
Proof.
  unfold use_skill, Warrior_use_skill, Mage_use_skill, Healer_use_skill.
  evolve; auto using evolves_power_strike, evolves_fireball, evolves_mass_heal,
    evolves_basic_attack.
Qed.

Lemma R_Item_use (it : Item) (c : Character) : R c (Item_use it c).
Proof.
  unfold Item_use.
  destruct (Qeq_bool (hp_restore it) 0), (Qeq_bool (mp_restore it) 0); eauto.
Qed.

Lemma evolves_inventory_use (hero : Ref) (nm : string) :
  evolves R (inventory_use hero nm).
Proof.
  unfold inventory_use. evolve.
  - apply R_Item_use.
  - apply R_inventory.
Qed.

Lemma evolves_choose_item_from_hero (hero : Ref) :
  evolves R (choose_item_from_hero hero).
Proof. unfold choose_item_from_hero. evolve. Qed.

Lemma evolves_hero_menu_action (b : Battle) (hero : Ref) :
  evolves R (hero_menu_action silenced b hero).
Proof.
  unfold hero_menu_action.
  evolve; auto using evolves_basic_attack, evolves_use_skill,
    evolves_inventory_use, evolves_choose_item_from_hero.
Qed.

Lemma evolves_smash (self target : Ref) : evolves R (smash self target).
Proof. unfold smash. evolve. apply R_take_damage. Qed.

Lemma evolves_shield_self (self : Ref) : evolves R (shield_self self).
Proof. unfold shield_self. evolve. apply R_apply_effect. reflexivity. Qed.

Lemma evolves_cast_silence (self target : Ref) : evolves R (cast_silence self target).
Proof. unfold cast_silence. evolve. apply R_apply_effect. reflexivity. Qed.

Lemma evolves_Boss_use_skill (self : Ref) (target allies : list Ref) :
  evolves R (Boss_use_skill self target allies).
Proof.
  unfold Boss_use_skill. cbv zeta.
  evolve; auto using evolves_smash, evolves_shield_self, evolves_cast_silence.
Qed.

Lemma evolves_retaliation (b : Battle) (boss_hp_before : Q) :
  evolves R (retaliation b boss_hp_before).
Proof. unfold retaliation. cbv zeta. evolve; auto using evolves_smash. Qed.

Lemma evolves_hero_turn (b : Battle) (hero : Ref) :
  evolves R (hero_turn silenced b hero).
Proof.
  unfold hero_turn. cbv zeta.
  evolve; auto using evolves_hero_menu_action, evolves_retaliation.
Qed.

Lemma evolves_actor_turn (b : Battle) (actor : Ref) :
  evolves R (actor_turn silenced b actor).
Proof.
  unfold actor_turn.
  evolve; auto using evolves_hero_turn, evolves_Boss_use_skill.
Qed.

Lemma evolves_for_actors (b : Battle) (order : list Ref) :
  evolves R (for_actors silenced b order).
Proof.
  induction order as [|c rest IH]; cbn [for_actors];
    evolve; auto using evolves_actor_turn.
Qed.

Lemma evolves_tick_cooldowns (b : Battle) : evolves R (tick_cooldowns b).
Proof. unfold tick_cooldowns. evolve. apply R_cooldowns. Qed.

Lemma evolves_prepare_round (combatants : list Ref) :
  evolves R (prepare_round combatants).
Proof.
  unfold prepare_round. cbv zeta. evolve.
  apply evolves_frame. intros s. apply shuffle_from_chars.
Qed.

Lemma evolves_one_round (b : Battle) : evolves R (one_round silenced b).
Proof.
  unfold one_round.
  evolve; auto using evolves_prepare_round, evolves_for_actors,
    evolves_tick_cooldowns.
Qed.

Lemma evolves_battle_loop (fuel : nat) (b : Battle) (max_rounds : Z) :
  evolves R (battle_loop silenced fuel b max_rounds).
Proof.
  induction fuel as [|fuel IH]; cbn [battle_loop];
    evolve; auto using evolves_one_round.
Qed.

Lemma evolves_run (b : Battle) (max_rounds : Z) :
  evolves R (run silenced b max_rounds).
Proof. unfold run. evolve; auto using evolves_battle_loop. Qed.

End WithSilence.
End Evolution.

(** *** What the start of a turn can change *)

Section StartTurn.

Variable R : Character -> Character -> Prop.
Hypothesis R_refl : forall c, R c c.
Hypothesis R_trans : forall c1 c2 c3, R c1 c2 -> R c2 c3 -> R c1 c3.
Hypothesis R_take_damage : forall c a, R c (take_damage c a).
Hypothesis R_heal : forall c a, R c (heal c a).
Hypothesis R_with_shield : forall c v, R c (with_shield c v).
Hypothesis R_with_effects : forall c es, R c (with_effects c es).

Lemma R_on_turn (e : Effect) (c : Character) : R c (fst (Effect_on_turn e c)).
Proof.
  unfold Effect_on_turn. cbn [fst].
  destruct e; try apply R_refl; destruct (is_alive c); auto.
Qed.

Lemma R_on_turn_loop (es : list Effect) (c : Character) :
  R c (fst (on_turn_loop c es)).
Proof.
  revert c. induction es as [|e es IH]; intros c; cbn [on_turn_loop].
  - apply R_refl.
  - pose proof (R_on_turn e c) as H1.
    destruct (Effect_on_turn e c) as [c1 e']. cbn [fst] in H1.
    specialize (IH c1). destruct (on_turn_loop c1 es) as [c2 es'].
    cbn [fst] in *. eapply R_trans; eassumption.
Qed.

Lemma R_expire (e : Effect) (c : Character) : R c (Effect_expire e c).
Proof. destruct e; cbn [Effect_expire]; auto. Qed.

Lemma R_expire_loop (es still : list Effect) (c : Character) :
  R c (fst (expire_loop c es still)).
Proof.
  revert c still. induction es as [|e es IH]; intros c still; cbn [expire_loop].
  - apply R_refl.
  - destruct (duration e <=? 0)%Z; [|apply IH].
    eapply R_trans; [apply R_expire | apply IH].
Qed.

Lemma R_start_turn_effects (c : Character) : R c (start_turn_effects c).
Proof.
  unfold start_turn_effects.
  pose proof (R_on_turn_loop (effects c) c) as H1.
  destruct (on_turn_loop c (effects c)) as [c1 es1]. cbn [fst] in H1.
  unfold remove_expired_effects.
  pose proof (R_expire_loop (effects (with_effects c1 es1)) []
                (with_effects c1 es1)) as H2.
  destruct (expire_loop _ _ _) as [c2 still]. cbn [fst] in H2.
  eapply R_trans; [exact H1|].
  eapply R_trans; [apply R_with_effects|].
  eapply R_trans; [exact H2 | apply R_with_effects].
Qed.

End StartTurn.

(* ===================================================================== *)
(** ** The upper bounds of hp and mp *)
(* ===================================================================== *)

Lemma keeps_max_refl c : keeps_max c c.
Proof. unfold keeps_max. auto. Qed.

Lemma keeps_max_trans c1 c2 c3 : keeps_max c1 c2 -> keeps_max c2 c3 -> keeps_max c1 c3.
Proof.
  intros (H1 & H2 & H3) (H4 & H5 & H6).
  split; [congruence|]. split; [congruence | auto].
Qed.

Ltac bounds :=
  unfold keeps_max, within_max;
  let c := fresh "c" in
  intros c; intros;
  destruct c as [k nm lv mh mm h m st ag it cc cm es sh cds inv];
  unfold take_damage, spend_mp, py_min, py_max; unfold_stats;
  repeat match goal with
  | |- context [Qlt_le_dec ?a ?b] =>
      destruct (Qlt_le_dec a b); cbv [fst snd]; unfold_stats
  end;
  repeat split; try reflexivity; intros; unfold py_max, py_min in *; qcases; lra.

Lemma keeps_max_take_damage : forall c a, keeps_max c (take_damage c a).
Proof. bounds. Qed.

Lemma keeps_max_heal : forall c a, keeps_max c (heal c a).
Proof. bounds. Qed.

Lemma keeps_max_restore_mp : forall c a, keeps_max c (restore_mp c a).
Proof. bounds. Qed.

Lemma keeps_max_spend_mp : forall c cost, 0 <= cost -> keeps_max c (fst (spend_mp c cost)).
Proof. bounds. Qed.

Lemma keeps_max_with_shield : forall c v, keeps_max c (with_shield c v).
Proof. bounds. Qed.

Lemma keeps_max_with_effects : forall c es', keeps_max c (with_effects c es').
Proof. bounds. Qed.

Lemma keeps_max_cooldowns : forall c cds', keeps_max c (with_cooldowns c cds').
Proof. bounds. Qed.

Lemma keeps_max_inventory : forall c inv', keeps_max c (with_inventory c inv').
Proof. bounds. Qed.

Lemma keeps_max_apply_effect : forall c e, keeps_max c (apply_effect c e).
Proof.
  intros c e. unfold apply_effect.
  eapply keeps_max_trans; [|apply keeps_max_with_effects].
  destruct e; cbn [Effect_apply];
    auto using keeps_max_refl, keeps_max_with_shield.
Qed.

Lemma keeps_max_start_turn : forall c, keeps_max c (start_turn_effects c).
Proof.
  apply R_start_turn_effects;
    auto using keeps_max_refl, keeps_max_take_damage, keeps_max_heal,
      keeps_max_with_shield, keeps_max_with_effects.
  apply keeps_max_trans.
Qed.

(** Every step of a battle keeps the maxima and the bound. *)
Lemma run_keeps_max (silenced : Character -> bool) (b : Battle) (max_rounds : Z) :
  evolves keeps_max (run silenced b max_rounds).
Proof.
  apply evolves_run;
    auto using keeps_max_refl, keeps_max_take_damage, keeps_max_heal,
      keeps_max_restore_mp, keeps_max_spend_mp, keeps_max_cooldowns,
      keeps_max_inventory, keeps_max_apply_effect, keeps_max_start_turn.
  apply keeps_max_trans.
Qed.

Lemma Forall2_keeps_max_within (l l' : list Character) :
  Forall2 keeps_max l l' -> Forall within_max l -> Forall within_max l'.
Proof.
  induction 1 as [|c c' l l' (_ & _ & H) _ IH]; intros Hl; [constructor|].
  apply Forall_cons in Hl as [Hc Hl]. constructor; auto.
Qed.

Lemma Character_init_within (k : CharClass) (nm : string) (lvl : Z)
    (mhp mmp str agi int : Q) :
  0 <= mhp -> 0 <= mmp ->
  within_max (Character_init k nm lvl mhp mmp str agi int).
Proof.
  intros H1 H2. unfold within_max, Character_init. unfold_stats.
  unfold py_max. qcases; repeat split; lra.
Qed.

Lemma assign_hp_stores (c : Character) (value : PyValue) (v : Q) :
  py_float value = Ok v ->
  assign_hp c value = (with_hp c (py_max 0 v), Ok tt).
Proof.
  intros H. unfold assign_hp.
  pose proof (validate_cases Human_hp value) as Hv. rewrite H in Hv.
  rewrite Hv. reflexivity.
Qed.

Lemma assign_mp_stores (c : Character) (value : PyValue) (v : Q) :
  py_float value = Ok v ->
  assign_mp c value = (with_mp c (py_max 0 v), Ok tt).
Proof.
  intros H. unfold assign_mp.
  pose proof (validate_cases Human_mp value) as Hv. rewrite H in Hv.
  rewrite Hv. reflexivity.
Qed.

(** C4 as stated fails: on a fresh warrior ([max_hp] 150) the assignment
    [hero.hp = 1000] succeeds and stores 1000. *)
Lemma assignment_exceeds_max :
  let c := new_Warrior "Arthur" in
  within_max c /\
  snd (assign_hp c (PyInt 1000)) = Ok tt /\
  ~ hp (fst (assign_hp c (PyInt 1000))) <= max_hp (fst (assign_hp c (PyInt 1000))).
Proof.
  cbv zeta. split; [|split].
  - vm_compute. repeat split; discriminate.
  - reflexivity.
  - vm_compute. intros H. apply H. reflexivity.
Qed.

(** C4, as amended.  A value assigned directly to [hp] or [mp] is stored
    as [max(0, float(value))]: never negative, but not capped by [max_hp]
    or [max_mp], since the descriptors are declared without a maximum.
    [max_hp] and [max_mp] never change.  The bound [hp <= max_hp] and
    [mp <= max_mp] holds at construction (for non-negative maxima) and is
    kept by [take_damage], [heal], [restore_mp], [spend_mp] with a
    non-negative cost, by attaching and ticking effects, by items, and so
    by every step of [Battle.run]. *)
Theorem stat_bounds (c : Character) :
  (* construction establishes the bound *)
  (forall (k : CharClass) (nm : string) (lvl : Z) (mhp mmp str agi int : Q),
     0 <= mhp -> 0 <= mmp ->
     within_max (Character_init k nm lvl mhp mmp str agi int)) /\
  (* direct assignment clamps from below only *)
  (forall (value : PyValue) (v : Q), py_float value = Ok v ->
     hp (fst (assign_hp c value)) == Qmax 0 v /\
     mp (fst (assign_mp c value)) == Qmax 0 v /\
     max_hp (fst (assign_hp c value)) = max_hp c /\
     max_mp (fst (assign_mp c value)) = max_mp c) /\
  (* the operations of the game keep the maxima and the bound *)
  (forall a, keeps_max c (take_damage c a)) /\
  (forall a, keeps_max c (heal c a)) /\
  (forall a, keeps_max c (restore_mp c a)) /\
  (forall cost, 0 <= cost -> keeps_max c (fst (spend_mp c cost))) /\
  (forall e, keeps_max c (apply_effect c e)) /\
  keeps_max c (start_turn_effects c) /\
  (forall it, keeps_max c (Item_use it c)) /\
  (* and so does a whole battle *)
  (forall (b : Battle) (max_rounds : Z) (s : State),
     Forall2 keeps_max (chars s) (chars (snd (run is_silenced b max_rounds s))) /\
     (Forall within_max (chars s) ->
      Forall within_max (chars (snd (run is_silenced b max_rounds s))))).
Proof.
  split; [intros; apply Character_init_within; assumption|].
  split.
  { intros value v Hv. rewrite (assign_hp_stores c value v Hv).
    rewrite (assign_mp_stores c value v Hv). cbn.
    split; [apply py_max_spec|]. split; [apply py_max_spec|]. split; reflexivity. }
  split; [apply keeps_max_take_damage|].
  split; [apply keeps_max_heal|].
  split; [apply keeps_max_restore_mp|].
  split; [apply keeps_max_spend_mp|].
  split; [apply keeps_max_apply_effect|].
  split; [apply keeps_max_start_turn|].
  split.
  { intros it. apply R_Item_use;
      auto using keeps_max_refl, keeps_max_heal, keeps_max_restore_mp.
    apply keeps_max_trans. }
  intros b max_rounds s.
  pose proof (run_keeps_max is_silenced b max_rounds s) as H.
  split; [exact H | apply Forall2_keeps_max_within, H].
Qed.

Lemma stat_bounds_witness :
  let c := new_Warrior "Arthur" in
  0 <= 8 /\ within_max c /\ within_max (fst (spend_mp c 8)).
Proof.
  cbv zeta.
  assert (H8 : 0 <= 8) by discriminate.
  assert (Hc : within_max (new_Warrior "Arthur")).
  { vm_compute. repeat split; discriminate. }
  split; [exact H8|]. split; [exact Hc|].
  destruct (stat_bounds (new_Warrior "Arthur"))
    as (_ & _ & _ & _ & _ & Hspend & _).
  destruct (Hspend 8 H8) as (_ & _ & Hkeep). exact (Hkeep Hc).
Defined.

(* ===================================================================== *)
(** ** Parts of the state that a computation leaves alone *)
(* ===================================================================== *)

Section Frame.

Context {X : Type}.
Variable f : State -> X.
Hypothesis f_chars : forall s cs, f (with_chars s cs) = f s.
Hypothesis f_rng : forall s g, f (with_rng s g) = f s.
Hypothesis f_stdin : forall s c, f (with_stdin s c) = f s.
Hypothesis f_entries : forall s es, f (with_entries s es) = f s.
Hypothesis f_json : forall s j, f (with_battle_log_json s j) = f s.

Lemma preserves_ret {A} (a : A) : preserves f (ret a).
Proof. intros s. reflexivity. Qed.

Lemma preserves_bind {A B} (m : M A) (k : A -> M B) :
  preserves f m -> (forall a, preserves f (k a)) -> preserves f (bind m k).
Proof.
  intros Hm Hk s. unfold bind. specialize (Hm s).
  destruct (m s) as [a s1]. cbn [snd] in Hm. rewrite <- Hm. apply Hk.
Qed.

Lemma preserves_gets {A} (g : State -> A) : preserves f (gets g).
Proof. intros s. reflexivity. Qed.

Lemma preserves_update (r : Ref) (g : Character -> Character) :
  preserves f (update r g).
Proof. intros s. apply f_chars. Qed.

Lemma preserves_next_raw : preserves f next_raw.
Proof. intros s. apply f_rng. Qed.

Lemma preserves_input : preserves f input.
Proof. intros s. apply f_stdin. Qed.

Lemma preserves_record (e : LogEntry) : preserves f (record e).
Proof. intros s. apply f_entries. Qed.

Lemma preserves_dump : preserves f dump.
Proof. intros s. apply f_json. Qed.

Lemma preserves_for_each {A} (xs : list A) (body : A -> M unit) :
  (forall x, preserves f (body x)) -> preserves f (for_each xs body).
Proof.
  intros Hb. induction xs as [|x xs IH]; cbn [for_each].
  - apply preserves_ret.
  - apply preserves_bind; [apply Hb | intros _; exact IH].
Qed.

Ltac frame_step :=
  match goal with
  | |- preserves _ (bind _ _) => apply preserves_bind; [|intros ?]
  | |- preserves _ (ret _) => apply preserves_ret
  | |- preserves _ (update _ _) => apply preserves_update
  | |- preserves _ (for_each _ _) => apply preserves_for_each; intros ?
  | |- preserves _ (obj _) => apply preserves_gets
  | |- preserves _ (gets _) => apply preserves_gets
  | |- preserves _ next_raw => apply preserves_next_raw
  | |- preserves _ input => apply preserves_input
  | |- preserves _ (record _) => apply preserves_record
  | |- preserves _ (broadcast _ _) => apply preserves_record
  | |- preserves _ dump => apply preserves_dump
  | |- preserves _ (if ?b then _ else _) => destruct b
  | |- preserves _ (match ?x with _ => _ end) => destruct x
  end.

Ltac frame := repeat frame_step.

Lemma preserves_random_random : preserves f random_random.
Proof. unfold random_random. frame. Qed.

Lemma preserves_random_uniform (a b : Q) : preserves f (random_uniform a b).
Proof. unfold random_uniform. frame. apply preserves_random_random. Qed.

Lemma preserves_randbelow (n : nat) : preserves f (randbelow n).
Proof. unfold randbelow. frame. Qed.

Lemma preserves_random_choice (seq : list Ref) : preserves f (random_choice seq).
Proof. unfold random_choice. frame. apply preserves_randbelow. Qed.

Lemma preserves_shuffle_from {A} (i : nat) (x : list A) : preserves f (shuffle_from i x).
Proof.
  revert x. induction i as [|i IH]; intros x; cbn [shuffle_from]; frame.
  - apply preserves_randbelow.
  - apply IH.
Qed.

Lemma preserves_roll_crit (self : Ref) : preserves f (roll_crit self).
Proof. unfold roll_crit. frame. apply preserves_random_random. Qed.

Lemma preserves_basic_attack (self target : Ref) : preserves f (basic_attack self target).
Proof.
  unfold basic_attack. frame;
    auto using preserves_roll_crit, preserves_random_uniform.
Qed.

Lemma preserves_call {A} (r : Ref) (g : Character -> Character * A) :
  preserves f (call r g).
Proof. unfold call. frame. Qed.

Lemma preserves_set_cooldown (self : Ref) (skill : string) (cd : Z) :
  preserves f (set_cooldown self skill cd).
Proof. unfold set_cooldown. frame. Qed.

Lemma preserves_smash (self target : Ref) : preserves f (smash self target).
Proof. unfold smash. frame. Qed.

Lemma preserves_shield_self (self : Ref) : preserves f (shield_self self).
Proof. unfold shield_self. frame. Qed.

Lemma preserves_cast_silence (self target : Ref) : preserves f (cast_silence self target).
Proof. unfold cast_silence. frame. Qed.

Lemma preserves_Boss_use_skill (self : Ref) (target allies : list Ref) :
  preserves f (Boss_use_skill self target allies).
Proof.
  unfold Boss_use_skill. cbv zeta.
  frame; auto using preserves_smash, preserves_shield_self,
    preserves_cast_silence, preserves_random_random, preserves_random_choice.
Qed.

Lemma preserves_prepare_round (combatants : list Ref) :
  preserves f (prepare_round combatants).
Proof.
  unfold prepare_round, random_shuffle. cbv zeta. frame.
  apply preserves_shuffle_from.
Qed.

Lemma preserves_tick_cooldowns (b : Battle) : preserves f (tick_cooldowns b).
Proof. unfold tick_cooldowns. frame. Qed.

Lemma preserves_inventory_use (hero : Ref) (nm : string) :
  preserves f (inventory_use hero nm).
Proof. unfold inventory_use. frame. Qed.

Lemma preserves_choose_item_from_hero (hero : Ref) :
  preserves f (choose_item_from_hero hero).
Proof. unfold choose_item_from_hero. frame. Qed.

Lemma preserves_retaliation (b : Battle) (boss_hp_before : Q) :
  preserves f (retaliation b boss_hp_before).
Proof.
  unfold retaliation. cbv zeta.
  frame; auto using preserves_smash, preserves_random_choice.
Qed.

Section WithSilence.

Variable silenced : Character -> bool.

Lemma preserves_power_strike (self target : Ref) :
  preserves f (power_strike silenced self target).
Proof.
  unfold power_strike. cbv zeta.
  frame; auto using preserves_call, preserves_set_cooldown, preserves_roll_crit.
Qed.

Lemma preserves_fireball (self target : Ref) :
  preserves f (fireball silenced self target).
Proof.
  unfold fireball. cbv zeta.
  frame; auto using preserves_call, preserves_set_cooldown.
Qed.

Lemma preserves_mass_heal (self : Ref) (allies : list Ref) :
  preserves f (mass_heal silenced self allies).
Proof.
  unfold mass_heal. cbv zeta.
  frame; auto using preserves_call, preserves_set_cooldown.
Qed.

Lemma preserves_use_skill (hero target : Ref) (allies : list Ref) :
  preserves f (use_skill silenced hero target allies).
Proof.
  unfold use_skill, Warrior_use_skill, Mage_use_skill, Healer_use_skill.
  frame; auto using preserves_power_strike, preserves_fireball,
    preserves_mass_heal, preserves_basic_attack.
Qed.

Lemma preserves_hero_menu_action (b : Battle) (hero : Ref) :
  preserves f (hero_menu_action silenced b hero).
Proof.
  unfold hero_menu_action.
  frame; auto using preserves_basic_attack, preserves_use_skill,
    preserves_inventory_use, preserves_choose_item_from_hero.
Qed.

Lemma preserves_hero_turn (b : Battle) (hero : Ref) :
  preserves f (hero_turn silenced b hero).
Proof.
  unfold hero_turn. cbv zeta.
  frame; auto using preserves_hero_menu_action, preserves_retaliation.
Qed.

Lemma preserves_actor_turn (b : Battle) (actor : Ref) :
  preserves f (actor_turn silenced b actor).
Proof.
  unfold actor_turn.
  frame; auto using preserves_hero_turn, preserves_Boss_use_skill.
Qed.

Lemma preserves_for_actors (b : Battle) (order : list Ref) :
  preserves f (for_actors silenced b order).
Proof.
  induction order as [|c rest IH]; cbn [for_actors];
    frame; auto using preserves_actor_turn.
Qed.

Lemma preserves_one_round (b : Battle) : preserves f (one_round silenced b).
Proof.
  unfold one_round.
  frame; auto using preserves_prepare_round, preserves_for_actors,
    preserves_tick_cooldowns.
Qed.

End WithSilence.
End Frame.

(** The round counter changes only between rounds. *)
Lemma one_round_round (silenced : Character -> bool) (b : Battle) (s : State) :
  round (snd (one_round silenced b s)) = round s.
Proof. apply (preserves_one_round round); reflexivity. Qed.

(** The boss's own turn writes nothing to the battle log. *)
Lemma Boss_use_skill_entries (self : Ref) (target allies : list Ref) (s : State) :
  entries (snd (Boss_use_skill self target allies s)) = entries s.
Proof. apply (preserves_Boss_use_skill entries); reflexivity. Qed.

(** *** The fuel of [battle_loop] is enough *)

Lemma battle_loop_terminates (silenced : Character -> bool) (fuel : nat)
    (b : Battle) (max_rounds : Z) (s : State) :
  (max_rounds - round s + 1 <= Z.of_nat fuel)%Z ->
  fst (battle_loop silenced fuel b max_rounds s) <> Exhausted.
Proof.
  revert s. induction fuel as [|fuel IH]; intros s Hfuel.
  - cbn [battle_loop]. unfold bind, gets. cbn.
    destruct (Z.leb_spec (round s) max_rounds) as [Hle|Hgt]; [lia|]. cbn.
    discriminate.
  - cbn [battle_loop]. unfold bind at 1 2, gets. cbn beta iota.
    destruct (_ && _ && _)%bool; [|discriminate].
    unfold bind at 1.
    pose proof (one_round_round silenced b s) as Hr.
    destruct (one_round silenced b s) as [flow s1]. cbn [snd] in Hr.
    assert (Hnext : fst (battle_loop silenced fuel b max_rounds
                           (with_round s1 (round s1 + 1)%Z)) <> Exhausted).
    { apply IH. cbn. lia. }
    destruct flow; try discriminate; exact Hnext.
Qed.

Lemma battle_loop_round (silenced : Character -> bool) (fuel : nat)
    (b : Battle) (max_rounds : Z) (s s' : State) (e : LoopEnd) :
  battle_loop silenced fuel b max_rounds s = (e, s') ->
  (round s <= round s' <= Z.max (round s) (max_rounds + 1))%Z.
Proof.
  revert s s' e. induction fuel as [|fuel IH]; intros s s' e; cbn [battle_loop];
    unfold bind at 1 2, gets at 1 2; cbn beta;
    destruct (Z.leb_spec (round s) max_rounds) as [Hle|Hgt]; cbn [andb];
    try (intros [= <- <-]; lia).
  - destruct (_ && _)%bool; intros [= <- <-]; lia.
  - destruct (_ && _)%bool; [|intros [= <- <-]; lia].
    unfold bind at 1.
    pose proof (one_round_round silenced b s) as Hr.
    destruct (one_round silenced b s) as [flow s1]. cbn [snd] in Hr.
    assert (Hnext : battle_loop silenced fuel b max_rounds
                      (with_round s1 (round s1 + 1)%Z) = (e, s') ->
                    (round s <= round s' <= Z.max (round s) (max_rounds + 1))%Z).
    { intros E. apply IH in E. cbn [round with_round] in E. lia. }
    destruct flow as [| |v].
    + unfold bind, modify. cbn beta iota. cbn [snd]. exact Hnext.
    + unfold bind, modify. cbn beta iota. cbn [snd]. exact Hnext.
    + intros [= <- <-]. lia.
Qed.

Lemma run_ends (silenced : Character -> bool) (b : Battle)
    (max_rounds : Z) (s s' : State) (res : option bool) :
  run silenced b max_rounds s = (res, s') ->
  (exists v : bool, res = Some v) /\
  (round s <= round s' <= Z.max (round s) (max_rounds + 1))%Z.
Proof.
  unfold run. unfold bind at 1. unfold broadcast at 1, record at 1, modify at 1.
  unfold bind at 1, gets at 1. cbn [entries with_entries round].
  set (s0 := with_entries s (entries s ++ [BattleStart])).
  change (round s) with (round s0).
  pose proof (battle_loop_terminates silenced
                (Z.to_nat (max_rounds - round s0 + 1)) b max_rounds s0) as Ht.
  unfold bind at 1.
  destruct (battle_loop silenced _ b max_rounds s0) as [e s1] eqn:E.
  cbn [fst] in Ht. apply battle_loop_round in E.
  destruct e as [| |v].
  - exfalso. apply Ht; [lia | reflexivity].
  - rewrite obj_bind. cbv beta.
    destruct (is_alive (deref (chars s1) (boss b)));
      unfold bind, broadcast, record, dump, modify, ret; cbn;
      intros [= <- <-]; (split; [eexists; reflexivity | exact E]).
  - unfold ret. intros [= <- <-]. split; [exists v; reflexivity | exact E].
Qed.

(** X30.  In a run in which every prompt is answered and the log can be
    written (the console of the model has a line for every [input()],
    and [dump] does not fail), the loop of [Battle.run] ends and [run]
    returns [True] or [False].  The model gives the loop
    [max_rounds - round + 1] iterations and they always suffice; the
    round counter never goes down and never passes
    [max(round, max_rounds + 1)]. *)
Theorem run_ends_within_max_rounds (silenced : Character -> bool) (b : Battle)
    (max_rounds : Z) (s : State) :
  let s' := snd (run silenced b max_rounds s) in
  (exists v : bool, fst (run silenced b max_rounds s) = Some v) /\
  (round s <= round s' <= Z.max (round s) (max_rounds + 1))%Z.
Proof.
  cbv zeta. destruct (run silenced b max_rounds s) as [res s'] eqn:E.
  apply run_ends in E. exact E.
Qed.

(* ===================================================================== *)
(** ** Silence of duration one *)
(* ===================================================================== *)

Lemma Effect_on_turn_effects (e : Effect) (c : Character) :
  effects (fst (Effect_on_turn e c)) = effects c /\
  snd (Effect_on_turn e c) = tick e.
Proof.
  split; [|reflexivity]. unfold Effect_on_turn. cbn [fst].
  destruct e; try reflexivity; destruct (is_alive c); try reflexivity.
  - unfold take_damage.
    destruct (Qlt_le_dec 0 (shield c)); destruct (Qlt_le_dec 0 _); reflexivity.
Qed.

Lemma on_turn_loop_effects (es : list Effect) (c : Character) :
  effects (fst (on_turn_loop c es)) = effects c /\
  snd (on_turn_loop c es) = map tick es.
Proof.
  revert c. induction es as [|e es IH]; intros c; cbn [on_turn_loop map].
  - split; reflexivity.
  - destruct (Effect_on_turn_effects e c) as [H1 H2].
    destruct (Effect_on_turn e c) as [c1 e']. cbn [fst snd] in *.
    destruct (IH c1) as [H3 H4].
    destruct (on_turn_loop c1 es) as [c2 es']. cbn [fst snd] in *.
    split; congruence.
Qed.

Lemma expire_loop_still (es still : list Effect) (c : Character) :
  snd (expire_loop c es still)
  = still ++ filter (fun e => (0 < duration e)%Z) es.
Proof.
  revert c still. induction es as [|e es IH]; intros c still; cbn [expire_loop].
  - cbn. rewrite app_nil_r. reflexivity.
  - rewrite filter_cons. destruct (Z.leb_spec (duration e) 0) as [Hle|Hgt].
    + rewrite IH. rewrite decide_False by lia. reflexivity.
    + rewrite IH. rewrite decide_True by lia. rewrite <- app_assoc. reflexivity.
Qed.

(** The effects that survive [start_turn_effects]. *)
Lemma effects_start_turn (c : Character) :
  effects (start_turn_effects c)
  = filter (fun e => (0 < duration e)%Z) (map tick (effects c)).
Proof.
  unfold start_turn_effects.
  destruct (on_turn_loop_effects (effects c) c) as [_ H2].
  destruct (on_turn_loop c (effects c)) as [c1 es1]. cbn [snd] in H2. subst es1.
  unfold remove_expired_effects. cbn [effects with_effects].
  pose proof (expire_loop_still (map tick (effects c)) []
                (with_effects c1 (map tick (effects c)))) as H.
  destruct (expire_loop _ _ _) as [c2 still]. cbn [snd] in H.
  cbn [effects with_effects]. exact H.
Qed.

Lemma is_SilenceEffect_tick (e : Effect) :
  is_SilenceEffect (tick e) = is_SilenceEffect e.
Proof. destruct e; reflexivity. Qed.

Lemma duration_tick (e : Effect) : duration (tick e) = (duration e - 1)%Z.
Proof. destruct e; reflexivity. Qed.

(** A silence with one round left does not survive the start of its
    bearer's turn. *)
Lemma start_turn_lifts_silence (c : Character) :
  brief_silences c -> is_silenced (start_turn_effects c) = false.
Proof.
  intros Hb. unfold is_silenced. rewrite effects_start_turn.
  apply not_true_is_false. intros H. apply existsb_exists in H as (e & Hin & Hs).
  apply list_elem_of_In, list_elem_of_filter in Hin as [Hd Hin].
  apply list_elem_of_fmap in Hin as (e0 & -> & Hin0).
  rewrite is_SilenceEffect_tick in Hs. rewrite duration_tick in Hd.
  unfold brief_silences in Hb. rewrite Forall_forall in Hb.
  specialize (Hb e0 Hin0 Hs). lia.
Qed.

Lemma keeps_brief_same_effects (c c' : Character) :
  effects c' = effects c -> keeps_brief c c'.
Proof. intros H. unfold keeps_brief, brief_silences. rewrite H. auto. Qed.

Lemma effects_take_damage c a : effects (take_damage c a) = effects c.
Proof.
  unfold take_damage.
  destruct (Qlt_le_dec 0 (shield c)); destruct (Qlt_le_dec 0 _); reflexivity.
Qed.

Lemma effects_spend_mp c cost : effects (fst (spend_mp c cost)) = effects c.
Proof. unfold spend_mp. destruct (Qlt_le_dec (mp c) cost); reflexivity. Qed.

Lemma keeps_brief_apply_effect c e : attachable e -> keeps_brief c (apply_effect c e).
Proof.
  intros He Hb. unfold brief_silences, apply_effect in *.
  cbn [effects with_effects].
  assert (Heff : effects (Effect_apply e c) = effects c) by (destruct e; reflexivity).
  rewrite Heff. apply Forall_app. split; [exact Hb|].
  constructor; [|constructor]. intros Hs.
  destruct e; try discriminate. cbn in He. cbn. lia.
Qed.

Lemma keeps_brief_start_turn c : keeps_brief c (start_turn_effects c).
Proof.
  intros Hb. unfold brief_silences. rewrite effects_start_turn.
  apply Forall_forall. intros e Hin Hs.
  apply list_elem_of_filter in Hin as [Hd Hin].
  apply list_elem_of_fmap in Hin as (e0 & -> & Hin0).
  rewrite is_SilenceEffect_tick in Hs. rewrite duration_tick in *.
  unfold brief_silences in Hb. rewrite Forall_forall in Hb.
  specialize (Hb e0 Hin0 Hs). lia.
Qed.

(** The hypotheses of the evolution lemmas, for [keeps_brief]. *)
Ltac brief_facts :=
  first
    [ solve [unfold keeps_brief; auto]
    | solve [intros; apply keeps_brief_same_effects;
             first [ apply effects_take_damage | apply effects_spend_mp
                   | reflexivity ]]
    | solve [intros; apply keeps_brief_apply_effect; assumption]
    | solve [intros; apply keeps_brief_start_turn] ].

Lemma evolves_calm {A} (m : M A) (s : State) :
  evolves keeps_brief m -> calm s -> calm (snd (m s)).
Proof.
  intros H Hs. specialize (H s). unfold calm in *.
  induction H as [|c c' l l' Hc _ IH]; [constructor|].
  apply Forall_cons in Hs as [Hb Hs]. constructor; auto.
Qed.

Lemma calm_deref (s : State) (r : Ref) : calm s -> brief_silences (deref (chars s) r).
Proof.
  intros Hs. unfold deref. destruct (chars s !! r) as [c|] eqn:Hr; cbn.
  - unfold calm in Hs. rewrite Forall_forall in Hs. apply Hs.
    apply list_elem_of_lookup. eauto.
  - constructor.
Qed.

Lemma actor_turn_brief sil b actor : evolves keeps_brief (actor_turn sil b actor).
Proof. apply evolves_actor_turn; brief_facts. Qed.

Lemma for_actors_brief sil b order : evolves keeps_brief (for_actors sil b order).
Proof. apply evolves_for_actors; brief_facts. Qed.

Lemma one_round_brief sil b : evolves keeps_brief (one_round sil b).
Proof. apply evolves_one_round; brief_facts. Qed.

Lemma battle_loop_brief sil fuel b max_rounds :
  evolves keeps_brief (battle_loop sil fuel b max_rounds).
Proof. apply evolves_battle_loop; brief_facts. Qed.

Lemma run_brief sil b max_rounds : evolves keeps_brief (run sil b max_rounds).
Proof. apply evolves_run; brief_facts. Qed.

(** *** The silence check is never taken in a battle *)

Lemma bind_same {A B} (m1 m2 : M A) (k : A -> M B) (s : State) :
  m1 s = m2 s -> bind m1 k s = bind m2 k s.
Proof. intros H. unfold bind. rewrite H. reflexivity. Qed.

Lemma power_strike_unsilenced (s : State) (self target : Ref) :
  is_silenced (deref (chars s) self) = false ->
  power_strike is_silenced self target s = power_strike never_silenced self target s.
Proof.
  intros H. unfold power_strike. cbv zeta.
  rewrite !obj_bind. cbv beta. rewrite H. reflexivity.
Qed.

Lemma fireball_unsilenced (s : State) (self target : Ref) :
  is_silenced (deref (chars s) self) = false ->
  fireball is_silenced self target s = fireball never_silenced self target s.
Proof.
  intros H. unfold fireball. cbv zeta.
  rewrite !obj_bind. cbv beta. rewrite H. reflexivity.
Qed.

Lemma mass_heal_unsilenced (s : State) (self : Ref) (allies : list Ref) :
  is_silenced (deref (chars s) self) = false ->
  mass_heal is_silenced self allies s = mass_heal never_silenced self allies s.
Proof.
  intros H. unfold mass_heal. cbv zeta.
  rewrite !obj_bind. cbv beta. rewrite H. reflexivity.
Qed.

Lemma use_skill_unsilenced (s : State) (hero target : Ref) (allies : list Ref) :
  is_silenced (deref (chars s) hero) = false ->
  use_skill is_silenced hero target allies s
  = use_skill never_silenced hero target allies s.
Proof.
  intros H. unfold use_skill. rewrite !obj_bind.
  destruct (cls (deref (chars s) hero)); try reflexivity.
  - unfold Warrior_use_skill. apply bind_same, power_strike_unsilenced, H.
  - unfold Mage_use_skill. apply bind_same, fireball_unsilenced, H.
  - unfold Healer_use_skill. cbv zeta. apply bind_same, mass_heal_unsilenced, H.
Qed.

Lemma input_chars (s : State) : chars (snd (input s)) = chars s.
Proof. reflexivity. Qed.

Lemma bind_cong {A B} (m : M A) (k1 k2 : A -> M B) (s : State) :
  (forall a s', m s = (a, s') -> k1 a s' = k2 a s') ->
  bind m k1 s = bind m k2 s.
Proof. intros H. unfold bind. destruct (m s) as [a s']. apply H. reflexivity. Qed.

Lemma hero_menu_action_unsilenced (b : Battle) (s : State) (hero : Ref) :
  is_silenced (deref (chars s) hero) = false ->
  hero_menu_action is_silenced b hero s = hero_menu_action never_silenced b hero s.
Proof.
  intros H. unfold hero_menu_action. apply bind_cong. intros line s1 Hin.
  assert (Hc : chars s1 = chars s).
  { change s1 with (snd (line, s1)). rewrite <- Hin. reflexivity. }
  cbv zeta.
  destruct (String.eqb (str_strip line) "0"); [reflexivity|].
  apply bind_same.
  destruct (String.eqb (str_strip line) "1"); [reflexivity|].
  destruct (String.eqb (str_strip line) "2"); [|reflexivity].
  apply use_skill_unsilenced. rewrite Hc. exact H.
Qed.

Lemma hero_turn_unsilenced (b : Battle) (s : State) (hero : Ref) :
  is_silenced (deref (chars s) hero) = false ->
  hero_turn is_silenced b hero s = hero_turn never_silenced b hero s.
Proof.
  intros H. unfold hero_turn. rewrite !obj_bind. cbv beta zeta.
  apply bind_same, hero_menu_action_unsilenced, H.
Qed.

Lemma actor_turn_calm (b : Battle) (s : State) (actor : Ref) :
  calm s ->
  actor_turn is_silenced b actor s = actor_turn never_silenced b actor s.
Proof.
  intros Hs. unfold actor_turn. rewrite !obj_bind. cbv beta.
  destruct (is_alive (deref (chars s) actor)) eqn:Halive; [|reflexivity].
  cbn [negb]. apply bind_cong. intros [] s1 Hs1.
  assert (Hc : chars s1 = alter start_turn_effects actor (chars s)).
  { change s1 with (snd (tt, s1)). rewrite <- Hs1. reflexivity. }
  rewrite !obj_bind. cbv beta.
  destruct (negb (is_alive _)); [reflexivity|].
  destruct (CharClass_eqb _ Boss); [reflexivity|].
  apply hero_turn_unsilenced. rewrite Hc.
  rewrite deref_alter_eq by (apply deref_valid; right; unfold is_alive in Halive;
    destruct (Qlt_le_dec 0 (hp (deref (chars s) actor))); [assumption|discriminate]).
  apply start_turn_lifts_silence, calm_deref, Hs.
Qed.

Lemma same_refl {A} (m : M A) : same_when_calm m m.
Proof. intros s _. reflexivity. Qed.

Lemma same_bind {A B} (m1 m2 : M A) (k1 k2 : A -> M B) :
  same_when_calm m1 m2 -> evolves keeps_brief m2 ->
  (forall a, same_when_calm (k1 a) (k2 a)) ->
  same_when_calm (bind m1 k1) (bind m2 k2).
Proof.
  intros Hm Hev Hk s Hs. unfold bind. rewrite (Hm s Hs).
  pose proof (evolves_calm m2 s Hev Hs) as Hs1.
  destruct (m2 s) as [a s1]. apply Hk. exact Hs1.
Qed.

Lemma frame_brief {A} (m : M A) :
  (forall s, chars (snd (m s)) = chars s) -> evolves keeps_brief m.
Proof. apply evolves_frame. unfold keeps_brief. auto. Qed.

Lemma for_actors_calm (b : Battle) (order : list Ref) :
  same_when_calm (for_actors is_silenced b order) (for_actors never_silenced b order).
Proof.
  induction order as [|c rest IH]; cbn [for_actors]; [apply same_refl|].
  apply same_bind; [apply same_refl | apply frame_brief; reflexivity |].
  intros ch. destruct (is_alive ch); [|exact IH].
  apply same_bind; [intros s Hs; apply actor_turn_calm, Hs | apply actor_turn_brief |].
  intros [| |v]; [exact IH | apply same_refl | apply same_refl].
Qed.

Lemma one_round_calm (b : Battle) :
  same_when_calm (one_round is_silenced b) (one_round never_silenced b).
Proof.
  unfold one_round.
  apply same_bind; [apply same_refl | apply frame_brief; reflexivity | intros r].
  apply same_bind; [apply same_refl | apply frame_brief; reflexivity | intros _].
  apply same_bind; [apply same_refl | apply frame_brief; reflexivity | intros bs].
  apply same_bind; [apply same_refl | apply frame_brief; reflexivity | intros _].
  apply same_bind; [apply same_refl | | intros order].
  { apply evolves_prepare_round; brief_facts. }
  apply same_bind; [apply for_actors_calm | apply for_actors_brief | intros flow].
  apply same_refl.
Qed.

Lemma battle_loop_calm (fuel : nat) (b : Battle) (max_rounds : Z) :
  same_when_calm (battle_loop is_silenced fuel b max_rounds)
                 (battle_loop never_silenced fuel b max_rounds).
Proof.
  induction fuel as [|fuel IH]; cbn [battle_loop]; [apply same_refl|].
  apply same_bind; [apply same_refl | apply frame_brief; reflexivity | intros r].
  apply same_bind; [apply same_refl | apply frame_brief; reflexivity | intros cs].
  destruct (_ && _ && _)%bool; [|apply same_refl].
  apply same_bind; [apply one_round_calm | apply one_round_brief | intros flow].
  destruct flow; try apply same_refl;
    (apply same_bind; [apply same_refl | apply frame_brief; reflexivity | intros _]);
    exact IH.
Qed.

Lemma run_calm (b : Battle) (max_rounds : Z) :
  same_when_calm (run is_silenced b max_rounds) (run never_silenced b max_rounds).
Proof.
  unfold run.
  apply same_bind; [apply same_refl | apply frame_brief; reflexivity | intros _].
  apply same_bind; [apply same_refl | apply frame_brief; reflexivity | intros r].
  apply same_bind; [apply battle_loop_calm | apply battle_loop_brief | intros e].
  apply same_refl.
Qed.

Lemma cast_silence_brief (self target : Ref) :
  evolves keeps_brief (cast_silence self target).
Proof. apply evolves_cast_silence; brief_facts. Qed.

Lemma main_state_calm (raw : N) (line : string) : calm (main_state raw line).
Proof. unfold calm. cbn. repeat constructor. Qed.

(** C9.  The boss's silence has duration 1, so in a battle every silence
    has at most one round left ([calm], true of the initial state and
    kept by [cast_silence] and by [Battle.run]).  The start-of-turn
    processing of its bearer ticks such a silence to 0 and removes it,
    and [Battle.run] does this before it resolves the bearer's action:
    on a calm state the actor's turn, and so the whole battle, runs
    exactly as it would with a silence check that never fires. *)
Theorem brief_silence_never_blocks :
  (forall raw line, calm (main_state raw line)) /\
  (forall self target s, calm s -> calm (snd (cast_silence self target s))) /\
  (forall c, brief_silences c -> is_silenced (start_turn_effects c) = false) /\
  (forall b actor s, calm s ->
     actor_turn is_silenced b actor s = actor_turn never_silenced b actor s) /\
  (forall b max_rounds s, calm s ->
     run is_silenced b max_rounds s = run never_silenced b max_rounds s /\
     calm (snd (run is_silenced b max_rounds s))).
Proof.
  split; [exact main_state_calm|].
  split; [intros self target s; apply evolves_calm, cast_silence_brief|].
  split; [exact start_turn_lifts_silence|].
  split; [intros b actor s Hs; apply actor_turn_calm, Hs|].
  intros b max_rounds s Hs. split.
  - apply run_calm, Hs.
  - apply evolves_calm; [apply run_brief | exact Hs].
Qed.

(** A warrior silenced by the boss is free again once its turn starts. *)
Lemma brief_silence_witness :
  let c := apply_effect (new_Warrior "Arthur") (SilenceEffect 3 1) in
  brief_silences c /\ is_silenced c = true /\
  is_silenced (start_turn_effects c) = false.
Proof.
  cbv zeta.
  assert (Hb : brief_silences (apply_effect (new_Warrior "Arthur") (SilenceEffect 3 1))).
  { unfold brief_silences. cbn. constructor; [|constructor]. intros _. reflexivity. }
  split; [exact Hb|]. split; [reflexivity|].
  exact (proj1 (proj2 (proj2 brief_silence_never_blocks)) _ Hb).
Defined.

(* ===================================================================== *)
(** ** Retaliation *)
(* ===================================================================== *)

Lemma any_alive_living (cs : list Character) (refs : list Ref) :
  any_alive cs refs = true -> living cs refs <> [].
Proof.
  unfold any_alive, living. intros H Hnil.
  apply existsb_exists in H as (r & Hin & Hr).
  assert (Hel : r ∈ filter (fun r => is_alive (deref cs r) = true) refs).
  { apply list_elem_of_filter. split; [exact Hr | apply list_elem_of_In, Hin]. }
  rewrite Hnil in Hel. apply elem_of_nil in Hel. exact Hel.
Qed.

Lemma random_choice_elem (seq : list Ref) (s : State) :
  seq <> [] -> fst (random_choice seq s) ∈ seq.
Proof.
  intros Hne. unfold random_choice, randbelow, bind, next_raw, ret. cbn.
  apply list_elem_of_In, nth_In.
  destruct seq as [|x seq]; [contradiction|].
  set (n := length (x :: seq)).
  assert (Hn : (N.of_nat n <> 0)%N) by (subst n; cbn; lia).
  pose proof (N.mod_lt (tape (rng s) (pos (rng s))) (N.of_nat n) Hn). lia.
Qed.

Lemma hero_turn_after_action (silenced : Character -> bool) (b : Battle)
    (hero : Ref) (s s1 : State) :
  hero_menu_action silenced b hero s = (false, s1) ->
  snd (hero_turn silenced b hero s)
  = snd (retaliation b (hp (deref (chars s) (boss b))) s1).
Proof.
  intros Hmenu. unfold hero_turn. rewrite obj_bind. cbv beta zeta.
  unfold bind at 1. rewrite Hmenu. unfold bind at 1.
  destruct (retaliation b _ s1) as [flow s2]. cbn [snd].
  destruct flow; try reflexivity.
  unfold bind, gets. cbn. destruct (_ || _)%bool; reflexivity.
Qed.

Lemma retaliation_provoked (b : Battle) (before : Q) (s1 : State) :
  hp (deref (chars s1) (boss b)) < before ->
  is_alive (deref (chars s1) (boss b)) = true ->
  any_alive (chars s1) (party b) = true ->
  exists target,
    target ∈ living (chars s1) (party b) /\
    retaliated b target s1 (snd (retaliation b before s1)).
Proof.
  intros Hdmg Halive Hany. unfold retaliation.
  unfold bind at 1, gets at 1. cbv zeta.
  destruct (Qlt_le_dec (hp (deref (chars s1) (boss b))) before) as [_|Hge]; [|lra].
  rewrite Halive, Hany. cbn [andb].
  pose proof (random_choice_elem (living (chars s1) (party b)) s1
                (any_alive_living _ _ Hany)) as Hel.
  unfold bind at 1.
  assert (Hst : snd (random_choice (living (chars s1) (party b)) s1)
                = with_rng s1 {| tape := tape (rng s1); pos := S (pos (rng s1)) |})
    by reflexivity.
  destruct (random_choice (living (chars s1) (party b)) s1) as [target s'].
  cbn [fst snd] in Hel, Hst. subst s'.
  exists target. split; [exact Hel|].
  unfold bind, broadcast, record, smash, modify, obj, gets, update, modify, ret.
  cbn. destruct (negb _); cbn; repeat split.
Qed.

Lemma retaliation_unprovoked (b : Battle) (before : Q) (s1 : State) :
  ~ (hp (deref (chars s1) (boss b)) < before /\
     is_alive (deref (chars s1) (boss b)) = true /\
     any_alive (chars s1) (party b) = true) ->
  retaliation b before s1 = (Next, s1).
Proof.
  intros Hno. unfold retaliation. unfold bind at 1, gets at 1. cbv zeta.
  destruct (Qlt_le_dec (hp (deref (chars s1) (boss b))) before) as [Hlt|Hge];
    [|reflexivity].
  destruct (is_alive (deref (chars s1) (boss b))) eqn:Ha; [|reflexivity].
  destruct (any_alive (chars s1) (party b)) eqn:Hany; [|reflexivity].
  exfalso. apply Hno. auto.
Qed.

Lemma cls_take_damage (c : Character) (a : Q) : cls (take_damage c a) = cls c.
Proof.
  unfold take_damage.
  destruct (Qlt_le_dec 0 (shield c)); destruct (Qlt_le_dec 0 _); reflexivity.
Qed.

Lemma cls_start_turn_effects (c : Character) : cls (start_turn_effects c) = cls c.
Proof.
  apply (R_start_turn_effects (fun c c' => cls c' = cls c)); try reflexivity.
  - intros c1 c2 c3 H1 H2. congruence.
  - intros c0 a. apply cls_take_damage.
Qed.

(** The boss's turn, whatever its start-of-turn effects did, appends
    nothing to the log: no retaliation is announced. *)
Lemma boss_turn_entries (silenced : Character -> bool) (b : Battle)
    (actor : Ref) (s : State) :
  cls (deref (chars s) actor) = Boss ->
  entries (snd (actor_turn silenced b actor s)) = entries s.
Proof.
  intros Hcls. unfold actor_turn. rewrite obj_bind. cbv beta.
  destruct (is_alive (deref (chars s) actor)) eqn:Halive; [|reflexivity].
  cbn [negb]. unfold bind at 1, update at 1, modify at 1.
  rewrite obj_bind. cbv beta. cbn [chars with_chars].
  rewrite deref_alter_eq by (apply deref_valid; right; unfold is_alive in Halive;
    destruct (Qlt_le_dec 0 (hp (deref (chars s) actor))); [assumption|discriminate]).
  destruct (negb (is_alive _)); [reflexivity|].
  rewrite cls_start_turn_effects, Hcls. cbn [CharClass_eqb].
  unfold bind at 1.
  pose proof (Boss_use_skill_entries actor (party b) [boss b]
                (with_chars s (alter start_turn_effects actor (chars s)))) as He.
  destruct (Boss_use_skill _ _ _ _) as [[] s2]. cbn [snd] in He.
  unfold bind, gets. cbn. destruct (negb _); cbn; exact He.
Qed.

(** Leaving the battle: the action touched no character, and the turn
    ends with the exit record, the dump and [return False]. *)
Lemma hero_turn_exit (silenced : Character -> bool) (b : Battle)
    (hero : Ref) (s s1 : State) :
  hero_menu_action silenced b hero s = (true, s1) ->
  chars s1 = chars s /\ entries s1 = entries s /\
  hero_turn silenced b hero s
  = (Return false,
     with_battle_log_json (with_entries s1 (entries s1 ++ [PlayerExit]))
       (Some (entries s1 ++ [PlayerExit]))).
Proof.
  intros Hmenu.
  assert (Hs1 : chars s1 = chars s /\ entries s1 = entries s).
  { revert Hmenu. unfold hero_menu_action. unfold bind at 1, input at 1.
    cbv zeta. destruct (String.eqb _ "0").
    - unfold bind, input. cbn. destruct (String.eqb _ "yes"); unfold ret;
        intros H; inversion H. split; reflexivity.
    - unfold bind at 1. destruct (_ (with_stdin s _)) as [u s']. unfold ret.
      discriminate. }
  split; [apply Hs1|]. split; [apply Hs1|].
  unfold hero_turn. rewrite obj_bind. cbv beta zeta.
  unfold bind at 1. rewrite Hmenu. reflexivity.
Qed.

(** C8.  After a hero's action that did not leave the battle, the boss
    answers with one [smash] on a living hero, announced by one log
    record, exactly when the boss's hp is lower than before the action,
    the boss is alive and some hero is alive; otherwise nothing happens
    at all.  An action that leaves the battle touches no character and is
    not answered either.  On the boss's own turn nothing is added to the
    log, whatever its start-of-turn effects (a burn, say) did to its hp. *)
Theorem retaliation_iff_boss_damaged (silenced : Character -> bool)
    (b : Battle) (hero : Ref) (s s1 : State) :
  hero_menu_action silenced b hero s = (false, s1) ->
  let boss_hp_before := hp (deref (chars s) (boss b)) in
  let provoked :=
    hp (deref (chars s1) (boss b)) < boss_hp_before /\
    is_alive (deref (chars s1) (boss b)) = true /\
    any_alive (chars s1) (party b) = true in
  let s2 := snd (hero_turn silenced b hero s) in
  (provoked ->
   exists target,
     target ∈ party b /\ is_alive (deref (chars s1) target) = true /\
     retaliated b target s1 s2) /\
  (~ provoked -> s2 = s1) /\
  (forall s' s1' : State,
     hero_menu_action silenced b hero s' = (true, s1') ->
     let s2' := snd (hero_turn silenced b hero s') in
     chars s2' = chars s' /\ entries s2' = entries s' ++ [PlayerExit]) /\
  (forall (actor : Ref) (s' : State),
     cls (deref (chars s') actor) = Boss ->
     entries (snd (actor_turn silenced b actor s')) = entries s').
Proof.
  intros Hmenu before provoked s2. subst s2.
  rewrite (hero_turn_after_action silenced b hero s s1 Hmenu).
  fold before. split; [|split; [|split]]; cycle 2.
  - intros s' s1' Hexit.
    destruct (hero_turn_exit silenced b hero s' s1' Hexit) as (Hc & He & Hturn).
    rewrite Hturn. cbn. rewrite Hc, He. split; reflexivity.
  - intros actor s' Hcls. apply boss_turn_entries, Hcls.
  - intros (Hdmg & Halive & Hany).
    destruct (retaliation_provoked b before s1 Hdmg Halive Hany)
      as (target & Hel & Hret).
    exists target. unfold living in Hel.
    apply list_elem_of_filter in Hel as [Ht Hin]. auto.
  - intros Hno. rewrite (retaliation_unprovoked b before s1 Hno). reflexivity.
Qed.

(** The warrior of the sample party attacks; the boss strikes back. *)
Lemma retaliation_witness :
  let s := main_state 0 "1" in
  let s1 := snd (hero_menu_action is_silenced main_battle 0 s) in
  hero_menu_action is_silenced main_battle 0 s = (false, s1) /\
  exists target,
    target ∈ party main_battle /\
    retaliated main_battle target s1 (snd (hero_turn is_silenced main_battle 0 s)).
Proof.
  cbv zeta.
  set (s := main_state 0 "1").
  set (s1 := snd (hero_menu_action is_silenced main_battle 0 s)).
  assert (Hmenu : hero_menu_action is_silenced main_battle 0 s = (false, s1)).
  { vm_compute. reflexivity. }
  split; [exact Hmenu|].
  destruct (proj1 (retaliation_iff_boss_damaged is_silenced main_battle 0 s s1 Hmenu))
    as (target & Hin & _ & Hret).
  { vm_compute. repeat split; reflexivity. }
  exists target. split; [exact Hin | exact Hret].
Defined.

(* ===================================================================== *)
(** ** Stats of different names *)
(* ===================================================================== *)

Lemma private_name_inj (d1 d2 : BoundedStat.t) :
  BoundedStat.private_name d1 = BoundedStat.private_name d2 ->
  BoundedStat.name d1 = BoundedStat.name d2.
Proof. unfold BoundedStat.private_name. cbn. intros [= H]. exact H. Qed.

(** In the dictionary of the model, a write under one private name leaves
    the entries under the other private names alone. *)
Lemma set_keeps_other_names (d1 d2 : BoundedStat.t)
    (instance : gmap string Q) (value : PyValue) :
  BoundedStat.name d1 <> BoundedStat.name d2 ->
  BoundedStat.__get__ d2 (fst (BoundedStat.__set__ d1 instance value))
    = BoundedStat.__get__ d2 instance.
Proof.
  intros Hne. unfold BoundedStat.__set__, BoundedStat.__get__.
  destruct (BoundedStat.validate d1 value) as [v|e|]; try reflexivity.
  cbn [fst]. rewrite lookup_insert_ne; [reflexivity|].
  intros H. apply Hne, private_name_inj, H.
Qed.

Lemma Human_stats_cases (d : BoundedStat.t) :
  d ∈ Human_stats ->
  d = Human_hp \/ d = Human_mp \/ d = Human_strength \/ d = Human_agility
  \/ d = Human_intelligence.
Proof.
  unfold Human_stats. intros H.
  repeat (apply elem_of_cons in H as [H|H]; [auto 6|]).
  apply elem_of_nil in H. contradiction.
Qed.

(** X28.  The five stats of [Human] do not interfere.  The private name
    of none of them is the name of another, so that an assignment through
    one stat writes a plain attribute; and what one stat reads is not
    changed by an assignment through another, whether that assignment
    succeeds or raises. *)
Theorem Human_stats_are_independent (d1 d2 : BoundedStat.t)
    (instance : gmap string Q) (value : PyValue) :
  d1 ∈ Human_stats -> d2 ∈ Human_stats ->
  BoundedStat.private_name d1 <> BoundedStat.name d2 /\
  (d1 <> d2 ->
   BoundedStat.__get__ d2 (fst (BoundedStat.__set__ d1 instance value))
   = BoundedStat.__get__ d2 instance).
Proof.
  intros H1 H2.
  apply Human_stats_cases in H1. apply Human_stats_cases in H2.
  destruct H1 as [->|[->|[->|[->| ->]]]];
    destruct H2 as [->|[->|[->|[->| ->]]]];
    (split; [discriminate|]); intros Hne;
    first [ exfalso; apply Hne; reflexivity
          | apply set_keeps_other_names; discriminate ].
Qed.

Lemma Human_stats_witness :
  BoundedStat.__get__ Human_mp
    (fst (BoundedStat.__set__ Human_hp {[ "_mp" := 30 ]} (PyFloat 7)))
  = 30.
Proof.
  rewrite (proj2 (Human_stats_are_independent Human_hp Human_mp
                    {[ "_mp" := 30 ]} (PyFloat 7) ltac:(left)
                    ltac:(right; left))).
  - reflexivity.
  - discriminate.
Defined.

(* ===================================================================== *)
(** ** Inventories *)
(* ===================================================================== *)

Lemma inv_lookup_None (name : string) (items : Inventory) :
  inv_lookup name items = None <-> name ∉ inv_keys items.
Proof.
  induction items as [|[k v] r IH]; cbn.
  - split; [intros _; apply not_elem_of_nil | reflexivity].
  - destruct (String.eqb_spec k name) as [->|Hne].
    + split; [discriminate | intros H; exfalso; apply H; left].
    + rewrite IH. rewrite not_elem_of_cons. split; [auto | tauto].
Qed.

Lemma inv_lookup_store_eq (name : string) (v : Item * Z) (items : Inventory) :
  inv_lookup name (inv_store name v items) = Some v.
Proof.
  induction items as [|[k w] r IH]; cbn.
  - rewrite String.eqb_refl. reflexivity.
  - destruct (String.eqb k name) eqn:Hk; cbn; rewrite Hk; [reflexivity | exact IH].
Qed.

Lemma inv_lookup_store_ne (name name' : string) (v : Item * Z) (items : Inventory) :
  name' <> name ->
  inv_lookup name' (inv_store name v items) = inv_lookup name' items.
Proof.
  intros Hne. induction items as [|[k w] r IH]; cbn.
  - destruct (String.eqb_spec name name'); [congruence | reflexivity].
  - destruct (String.eqb_spec k name) as [->|Hk]; cbn.
    + destruct (String.eqb_spec name name'); [congruence | reflexivity].
    + rewrite IH. reflexivity.
Qed.

Lemma inv_keys_store (name : string) (v : Item * Z) (items : Inventory) :
  inv_keys (inv_store name v items)
  = match inv_lookup name items with
    | Some _ => inv_keys items
    | None => inv_keys items ++ [name]
    end.
Proof.
  induction items as [|[k w] r IH]; cbn; [reflexivity|].
  destruct (String.eqb k name) eqn:Hk; cbn; [reflexivity|].
  unfold inv_keys in IH. rewrite IH. destruct (inv_lookup name r); reflexivity.
Qed.

Lemma inv_keys_store_NoDup (name : string) (v : Item * Z) (items : Inventory) :
  NoDup (inv_keys items) -> NoDup (inv_keys (inv_store name v items)).
Proof.
  intros Hnd. rewrite inv_keys_store.
  destruct (inv_lookup name items) eqn:Hl; [exact Hnd|].
  apply NoDup_app. split; [exact Hnd|]. split.
  - intros x Hx Hx'. apply list_elem_of_singleton in Hx'. subst x.
    apply inv_lookup_None in Hl. contradiction.
  - apply NoDup_singleton.
Qed.

Lemma inv_lookup_del_ne (name name' : string) (items : Inventory) :
  name' <> name -> inv_lookup name' (inv_del name items) = inv_lookup name' items.
Proof.
  intros Hne. induction items as [|[k w] r IH]; cbn; [reflexivity|].
  destruct (String.eqb_spec k name) as [->|Hk]; cbn.
  - destruct (String.eqb_spec name name'); [congruence | reflexivity].
  - rewrite IH. reflexivity.
Qed.

Lemma inv_keys_del_sub (name : string) (items : Inventory) (x : string) :
  x ∈ inv_keys (inv_del name items) -> x ∈ inv_keys items.
Proof.
  induction items as [|[k w] r IH]; cbn; [auto|].
  destruct (String.eqb k name); cbn.
  - intros H. right. exact H.
  - intros H. apply elem_of_cons in H as [->|H]; [left | right; auto].
Qed.

Lemma inv_lookup_del_eq (name : string) (items : Inventory) :
  NoDup (inv_keys items) -> inv_lookup name (inv_del name items) = None.
Proof.
  induction items as [|[k w] r IH]; cbn; intros Hnd; [reflexivity|].
  apply NoDup_cons in Hnd as [Hk Hnd].
  destruct (String.eqb_spec k name) as [->|Hne]; cbn.
  - apply inv_lookup_None. exact Hk.
  - destruct (String.eqb_spec k name); [contradiction|]. apply IH, Hnd.
Qed.

Lemma inv_keys_del_NoDup (name : string) (items : Inventory) :
  NoDup (inv_keys items) -> NoDup (inv_keys (inv_del name items)).
Proof.
  induction items as [|[k w] r IH]; cbn; intros Hnd; [constructor|].
  apply NoDup_cons in Hnd as [Hk Hnd].
  destruct (String.eqb k name); cbn; [exact Hnd|].
  apply NoDup_cons. split; [|apply IH, Hnd].
  intros H. apply Hk. eapply inv_keys_del_sub, H.
Qed.

Lemma inv_del_store_fresh (name : string) (v : Item * Z) (items : Inventory) :
  inv_lookup name items = None -> inv_del name (inv_store name v items) = items.
Proof.
  induction items as [|[k w] r IH]; cbn.
  - rewrite String.eqb_refl. reflexivity.
  - destruct (String.eqb k name) eqn:Hk; [discriminate|].
    intros H. cbn. rewrite Hk, IH by exact H. reflexivity.
Qed.

(** X1.  [Inventory.add].  After adding [count] of an item, the entry under
    the item's name holds the item just passed and the count held before
    (0 when the name was absent) plus [count]; the entries under every
    other name are as they were; a new name goes to the end of the dict and
    a known one keeps its place; the names stay distinct. *)
Theorem Inventory_add_lookup (items : Inventory) (item : Item) (count : Z) :
  let name := item_name item in
  let items' := Inventory_add items item count in
  inv_lookup name items' = Some (item, (inv_count items name + count)%Z) /\
  (forall name', name' <> name -> inv_lookup name' items' = inv_lookup name' items) /\
  inv_keys items'
    = (if bool_decide (name ∈ inv_keys items) then inv_keys items
       else inv_keys items ++ [name]) /\
  (NoDup (inv_keys items) -> NoDup (inv_keys items')).
Proof.
  intros name items'. subst items'. unfold Inventory_add, inv_count. fold name.
  pose proof (inv_lookup_None name items) as Hnone.
  destruct (inv_lookup name items) as [[it cur]|] eqn:Hl.
  - split; [apply inv_lookup_store_eq|].
    split; [intros name' Hne; apply inv_lookup_store_ne, Hne|].
    split.
    + rewrite inv_keys_store, Hl. rewrite bool_decide_true; [reflexivity|].
      destruct (decide (name ∈ inv_keys items)) as [H|H]; [exact H|].
      apply Hnone in H. discriminate.
    + apply inv_keys_store_NoDup.
  - split; [rewrite Z.add_0_l; apply inv_lookup_store_eq|].
    split; [intros name' Hne; apply inv_lookup_store_ne, Hne|].
    split.
    + rewrite inv_keys_store, Hl. rewrite bool_decide_false; [reflexivity|].
      apply Hnone. reflexivity.
    + apply inv_keys_store_NoDup.
Qed.

Lemma Inventory_add_lookup_witness :
  let potion := {| item_name := "potion"; description := ""; hp_restore := 50; mp_restore := 0 |} in
  NoDup (inv_keys [("potion", (potion, 2%Z))]) /\
  NoDup (inv_keys (Inventory_add [("potion", (potion, 2%Z))] potion 3)).
Proof.
  cbv zeta.
  assert (H : NoDup (inv_keys [("potion",
             ({| item_name := "potion"; description := ""; hp_restore := 50; mp_restore := 0 |}, 2%Z))])).
  { apply NoDup_singleton. }
  split; [exact H|].
  exact (proj2 (proj2 (proj2 (Inventory_add_lookup _ _ 3))) H).
Defined.

(** X2.  [Inventory.remove_by_name], for an inventory with distinct names (a
    dict).  The call returns [False] and changes nothing when the name is
    absent or fewer than [count] are held.  Otherwise it returns [True];
    the entry is deleted when exactly [count] were held and holds
    [cur - count] of the same item when more were; the other entries are
    untouched and the names stay distinct. *)
Theorem Inventory_remove_by_name_spec (items : Inventory) (name : string) (count : Z) :
  NoDup (inv_keys items) ->
  let r := Inventory_remove_by_name items name count in
  match inv_lookup name items with
  | None => r = (items, false)
  | Some (item, cur) =>
      if (cur <? count)%Z then r = (items, false)
      else
        snd r = true /\
        inv_lookup name (fst r)
          = (if (cur =? count)%Z then None else Some (item, (cur - count)%Z)) /\
        (forall name', name' <> name ->
           inv_lookup name' (fst r) = inv_lookup name' items) /\
        NoDup (inv_keys (fst r))
  end.
Proof.
  intros Hnd r. subst r. unfold Inventory_remove_by_name.
  destruct (inv_lookup name items) as [[item cur]|] eqn:Hl; [|reflexivity].
  destruct (cur <? count)%Z; [reflexivity|].
  destruct (cur =? count)%Z; cbn [fst snd].
  - split; [reflexivity|]. split; [apply inv_lookup_del_eq, Hnd|].
    split; [intros name' Hne; apply inv_lookup_del_ne, Hne|].
    apply inv_keys_del_NoDup, Hnd.
  - split; [reflexivity|]. split; [apply inv_lookup_store_eq|].
    split; [intros name' Hne; apply inv_lookup_store_ne, Hne|].
    apply inv_keys_store_NoDup, Hnd.
Qed.

Lemma Inventory_remove_by_name_witness :
  Inventory_remove_by_name [("potion", (sample_potion, 2%Z))] "potion" 3
    = ([("potion", (sample_potion, 2%Z))], false) /\
  inv_lookup "potion"
    (fst (Inventory_remove_by_name [("potion", (sample_potion, 2%Z))] "potion" 1))
    = Some (sample_potion, 1%Z).
Proof.
  assert (Hnd : NoDup (inv_keys [("potion", (sample_potion, 2%Z))])).
  { apply NoDup_singleton. }
  split.
  - exact (Inventory_remove_by_name_spec _ "potion" 3 Hnd).
  - exact (proj1 (proj2 (Inventory_remove_by_name_spec _ "potion" 1 Hnd))).
Defined.

(** X3.  Round trip: adding [count] of an item whose name the inventory does
    not hold and removing [count] under that name succeeds and gives the
    inventory back as it was. *)
Theorem Inventory_add_remove_fresh (items : Inventory) (item : Item) (count : Z) :
  inv_lookup (item_name item) items = None ->
  Inventory_remove_by_name (Inventory_add items item count) (item_name item) count
  = (items, true).
Proof.
  intros Hl. unfold Inventory_add. rewrite Hl.
  unfold Inventory_remove_by_name. rewrite inv_lookup_store_eq.
  rewrite Z.ltb_irrefl, Z.eqb_refl. rewrite inv_del_store_fresh by exact Hl.
  reflexivity.
Qed.

Lemma Inventory_add_remove_fresh_witness :
  Inventory_remove_by_name (Inventory_add [] sample_potion 2) "potion" 2 = ([], true).
Proof. apply (Inventory_add_remove_fresh [] sample_potion 2). reflexivity. Defined.





(* ===================================================================== *)
(** ** The life of an effect *)
(* ===================================================================== *)







(** X15.  The shield pool is shared.  [ShieldEffect.apply] adds the amount
    [a] to the pool; damage [A] taken meanwhile is absorbed from the pool
    as a whole; [expire] then takes the full [a] off again, floored at 0.
    So the pool that was there before is what pays for the absorbed
    damage: the remainder is [max(0, S - min(S + a, A))], and [S] again
    when no damage came. *)
Theorem shield_pool_is_spent_last (src : Ref) (a : Q) (d d' : Z)
    (c : Character) (A : Q) :
  0 <= shield c -> 0 <= a -> 0 <= A ->
  let shielded := Effect_apply (ShieldEffect src a d) c in
  let after := Effect_expire (ShieldEffect src a d') (take_damage shielded A) in
  shield shielded == shield c + a /\
  shield after == Qmax 0 (shield c - Qmin (shield c + a) A) /\
  (A == 0 -> shield after == shield c).
Proof.
  intros Hs Ha HA shielded after. subst shielded after.
  unfold Effect_apply, Effect_expire, take_damage, py_min, py_max.
  destruct c as [k nm lv mh mm h m st ag it cc cm es sh cds inv]. unfold_stats.
  assert (Hspec : forall x : Q,
            x == Qmax 0 (sh - Qmin (sh + a) A) <->
            ((A <= sh + a /\ A <= sh /\ x == sh - A) \/
             (A <= sh + a /\ sh < A /\ x == 0) \/
             (sh + a < A /\ x == 0))).
  { intros x.
    destruct (Q.min_spec (sh + a) A) as [[? Hmin]|[? Hmin]];
      destruct (Q.max_spec 0 (sh - Qmin (sh + a) A)) as [[? Hmax]|[? Hmax]];
      set (mn := Qmin (sh + a) A) in *;
      set (mx := Qmax 0 (sh - mn)) in *; split; intros; lra. }
  destruct (Qlt_le_dec 0 (sh + a)) as [Hpos|Hnp].
  - destruct (Qlt_le_dec A (sh + a)) as [Hlt|Hge].
    + destruct (Qlt_le_dec 0 (A - A)) as [Habs|_]; [lra|]. unfold_stats.
      destruct (Qlt_le_dec 0 (sh + a - A - a)).
      * split; [lra|]. split; [apply Hspec; lra | intros; lra].
      * split; [lra|]. split; [apply Hspec; lra | intros; lra].
    + destruct (Qlt_le_dec 0 (A - (sh + a))); unfold_stats;
        (destruct (Qlt_le_dec 0 (sh + a - (sh + a) - a));
         (split; [lra|]; split; [apply Hspec; lra | intros; lra])).
  - destruct (Qlt_le_dec 0 A); unfold_stats;
      (destruct (Qlt_le_dec 0 (sh + a - a));
       (split; [lra|]; split; [apply Hspec; lra | intros; lra])).
Qed.

Lemma shield_pool_witness :
  let c := with_shield (new_Boss "b") 10 in
  let shielded := Effect_apply (ShieldEffect 0 49 2) c in
  shield (Effect_expire (ShieldEffect 0 49 0) (take_damage shielded 30))
  == Qmax 0 (shield c - Qmin (shield c + 49) 30).
Proof.
  cbv zeta.
  apply (shield_pool_is_spent_last 0 49 2 0 (with_shield (new_Boss "b") 10) 30);
    vm_compute; discriminate.
Defined.

(* ===================================================================== *)
(** ** The basic attack *)
(* ===================================================================== *)

Lemma random_random_range (s : State) :
  0 <= fst (random_random s) /\ fst (random_random s) < 1.
Proof.
  unfold random_random, bind, next_raw, ret. cbn [fst].
  set (n := tape (rng s) (pos (rng s))).
  pose proof (N.mod_lt n (2 ^ 53) ltac:(discriminate)) as Hlt.
  set (m := (n mod 2 ^ 53)%N) in *.
  change (2 ^ 53)%N with 9007199254740992%N in Hlt.
  change (2 ^ 53)%positive with 9007199254740992%positive.
  unfold Qle, Qlt. cbn [Qnum Qden].
  split; lia.
Qed.

Lemma random_random_rng (s : State) :
  snd (random_random s) = with_rng s {| tape := tape (rng s); pos := S (pos (rng s)) |}.
Proof. reflexivity. Qed.

Lemma basic_attack_unfold (self target : Ref) (s : State) :
  exists (crit : bool) (u damage : Q),
    snd (basic_attack self target s) =
      with_chars
        (with_rng s {| tape := tape (rng s); pos := S (S (pos (rng s))) |})
        (alter (fun t => take_damage t damage) target (chars s)) /\
    0 <= u /\ u < 1 /\
    damage == (0.9 + 0.2 * u) * attack_base (deref (chars s) self) crit /\
    (crit = true <-> fst (random_random s) < crit_chance (deref (chars s) self)).
Proof.
  set (s1 := snd (random_random s)).
  destruct (random_random_range s1) as [Hu0 Hu1].
  exists (if Qlt_le_dec (fst (random_random s)) (crit_chance (deref (chars s) self))
          then true else false),
         (fst (random_random s1)).
  eexists. split; [reflexivity|].
  split; [exact Hu0|]. split; [exact Hu1|]. split.
  - unfold attack_base, s1, random_random, next_raw, bind, ret.
    cbn [fst snd chars with_rng rng tape pos].
    destruct (Qlt_le_dec _ _); ring.
  - destruct (Qlt_le_dec _ _) as [H|H]; split; auto; try discriminate.
    intros H'. exfalso. lra.
Qed.



Lemma take_damage_hp_le (t : Character) (a : Q) :
  0 <= hp t -> hp (take_damage t a) <= hp t.
Proof.
  intros Hhp. unfold take_damage, py_min.
  destruct t as [k nm lv mh mm h m st ag it cc cm es sh cds inv].
  unfold_stats. unfold py_max. qcases; unfold_stats; lra.
Qed.

(** X27.  A basic attack never raises the hp of its target (hp being
    non-negative, as the descriptor keeps it).  It lowers the hp of a
    living, unshielded target, whatever the random numbers, when the base
    damage, with and without a critical hit, is at least [2^-50] and at
    least [hp / 2^50]: a damage so small that the arithmetic of the
    program, which rounds, would lose it is thereby excluded. *)
Theorem basic_attack_reduces_hp (self target : Ref) (s : State) :
  let a := deref (chars s) self in
  let t := deref (chars s) target in
  let t' := deref (chars (snd (basic_attack self target s))) target in
  (0 <= hp t -> hp t' <= hp t) /\
  ((target < length (chars s))%nat ->
   shield t <= 0 -> 0 < hp t ->
   (forall crit : bool, Qmax 1 (hp t) <= float_margin * attack_base a crit) ->
   hp t' < hp t).
Proof.
  cbv zeta.
  destruct (basic_attack_unfold self target s)
    as (crit & u & damage & Hs & Hu0 & Hu1 & Hd & _).
  rewrite Hs. cbn [chars with_chars]. split.
  - intros Hhp.
    destruct (le_lt_dec (length (chars s)) target) as [Hout|Hin].
    + rewrite deref_alter_invalid by exact Hout. lra.
    + rewrite deref_alter_eq by exact Hin. apply take_damage_hp_le, Hhp.
  - intros Hvalid Hsh Hhp Hmargin.
    rewrite deref_alter_eq by exact Hvalid.
    assert (Hbase : 0 < attack_base (deref (chars s) self) crit).
    { specialize (Hmargin crit). unfold float_margin in Hmargin.
      change (inject_Z (2 ^ 50)) with (1125899906842624 # 1) in Hmargin.
      pose proof (Q.le_max_l 1 (hp (deref (chars s) target))) as Hone.
      nra. }
    assert (Hdmg : 0 < damage). { rewrite Hd. nra. }
    clear Hmargin. unfold take_damage.
    destruct (Qlt_le_dec 0 (shield (deref (chars s) target))) as [H|_]; [lra|].
    destruct (Qlt_le_dec 0 damage) as [_|H]; [|lra].
    generalize dependent (deref (chars s) target). intros t Hsh Hhp.
    clear Hd Hbase.
    destruct t as [k nm lv mh mm h m st ag it cc cm es sh cds inv].
    unfold_stats. unfold py_max. qcases; lra.
Qed.

Lemma basic_attack_reduces_hp_witness :
  hp (deref (chars (snd (basic_attack 0 3 (main_state 0 "")))) 3)
  < hp (deref (chars (main_state 0 "")) 3).
Proof.
  apply (proj2 (basic_attack_reduces_hp 0 3 (main_state 0 ""))).
  - vm_compute. lia.
  - vm_compute. discriminate.
  - vm_compute. reflexivity.
  - intros [|]; vm_compute; discriminate.
Defined.

(* ===================================================================== *)
(** ** Amounts below zero *)
(* ===================================================================== *)

(** X29.  Amounts below zero are not rejected.  [take_damage] with a negative
    amount never touches hp, but with an active shield it raises the
    shield by that much, and without one it does nothing.  [spend_mp]
    with a negative amount succeeds and raises mp by that much. *)
Theorem negative_amounts_are_not_rejected (c : Character) (amount : Q) :
  amount < 0 ->
  hp (take_damage c amount) = hp c /\
  (0 < shield c -> shield (take_damage c amount) == shield c - amount) /\
  (shield c <= 0 -> take_damage c amount = c) /\
  (0 <= mp c ->
   snd (spend_mp c amount) = true /\
   mp (fst (spend_mp c amount)) == mp c - amount).
Proof.
  intros Hneg.
  destruct c as [k nm lv mh mm h m st ag it cc cm es sh cds inv].
  unfold take_damage, spend_mp, py_min, py_max. unfold_stats.
  repeat split; intros; qcases; cbv [fst snd]; unfold_stats;
    unfold py_max; qcases; try reflexivity; try lra.
Qed.

Lemma negative_amounts_witness :
  let c := with_shield (new_Warrior "w") 10 in
  shield (take_damage c (-5)) == shield c - (-5).
Proof.
  cbv zeta.
  apply (negative_amounts_are_not_rejected (with_shield (new_Warrior "w") 10) (-5)).
  - vm_compute. reflexivity.
  - vm_compute. reflexivity.
Defined.

(* ===================================================================== *)
(** ** [use_skill]: cast or fall back *)
(* ===================================================================== *)

(** X12.  [use_skill] when the signature skill is refused.  The warrior and
    the mage fall back to a basic attack on the target; the healer attacks
    the target only if one is given and alive, and does nothing otherwise.
    Without a target the warrior's and the mage's [use_skill] do nothing
    at all. *)
Theorem use_skill_falls_back_when_blocked (s : State) (self t : Ref)
    (target : option Ref) (allies : option (list Ref)) :
  let c := deref (chars s) self in
  (blocked c "power_strike" 8 ->
   Warrior_use_skill is_silenced self (Some t) s = basic_attack self t s) /\
  (blocked c "fireball" 20 ->
   Mage_use_skill is_silenced self (Some t) s = basic_attack self t s) /\
  (blocked c "mass_heal" 25 ->
   Healer_use_skill is_silenced self target allies s
   = match target with
     | Some t' =>
         if is_alive (deref (chars s) t') then basic_attack self t' s else (tt, s)
     | None => (tt, s)
     end) /\
  Warrior_use_skill is_silenced self None s = (tt, s) /\
  Mage_use_skill is_silenced self None s = (tt, s).
Proof.
  intros c. split; [|split; [|split; [|split]]]; try reflexivity.
  - intros H. unfold Warrior_use_skill, bind.
    rewrite (power_strike_refused s self t H). reflexivity.
  - intros H. unfold Mage_use_skill, bind.
    rewrite (fireball_refused s self t H). reflexivity.
  - intros H. unfold Healer_use_skill. cbv zeta. unfold bind at 1.
    rewrite (mass_heal_refused s self (default [] allies) H). cbn [negb].
    destruct target as [t'|]; [|reflexivity].
    rewrite obj_bind. destruct (is_alive (deref (chars s) t')); reflexivity.
Qed.

Lemma use_skill_falls_back_witness :
  let s := with_chars (main_state 0 "")
             (alter (fun c => with_mp c 0) 0%nat (chars (main_state 0 ""))) in
  Warrior_use_skill is_silenced 0 (Some 3%nat) s = basic_attack 0 3 s.
Proof.
  cbv zeta.
  apply (proj1 (use_skill_falls_back_when_blocked _ 0 3 None None)).
  right. right. vm_compute. reflexivity.
Defined.

(** X13.  [use_skill] when the signature skill goes through: the state after
    [use_skill] is the state after the skill alone, with no basic attack
    on top. *)
Theorem use_skill_casts_once_when_ready (s : State) (self t : Ref)
    (target : option Ref) (allies : option (list Ref)) :
  let c := deref (chars s) self in
  (ready c "power_strike" 8 ->
   Warrior_use_skill is_silenced self (Some t) s
   = (tt, snd (power_strike is_silenced self t s))) /\
  (ready c "fireball" 20 ->
   Mage_use_skill is_silenced self (Some t) s
   = (tt, snd (fireball is_silenced self t s))) /\
  (ready c "mass_heal" 25 ->
   Healer_use_skill is_silenced self target allies s
   = (tt, snd (mass_heal is_silenced self (default [] allies) s))).
Proof.
  intros c. split; [|split].
  - intros H. destruct (power_strike_succeeds s self t H) as (s' & Hrun & _).
    unfold Warrior_use_skill, bind. rewrite Hrun. reflexivity.
  - intros H. destruct (fireball_succeeds s self t H) as (s' & Hrun & _).
    unfold Mage_use_skill, bind. rewrite Hrun. reflexivity.
  - intros H.
    destruct (mass_heal_succeeds s self (default [] allies) H) as (s' & Hrun & _).
    unfold Healer_use_skill. cbv zeta. unfold bind. rewrite Hrun. reflexivity.
Qed.

Lemma use_skill_casts_once_witness :
  Warrior_use_skill is_silenced 0 (Some 3%nat) (main_state 0 "")
  = (tt, snd (power_strike is_silenced 0 3 (main_state 0 ""))).
Proof.
  apply (proj1 (use_skill_casts_once_when_ready (main_state 0 "") 0 3 None None)).
  split; [reflexivity|]. split; vm_compute; discriminate.
Defined.

(* ===================================================================== *)
(** ** Boss strategies *)
(* ===================================================================== *)

Lemma min_by_first (key : Ref -> Q) (xs pre mid : list Ref) (best : Ref) :
  (forall x, x ∈ pre -> key best < key x) ->
  (forall x, x ∈ mid -> key best <= key x) ->
  exists pre' post',
    pre ++ best :: mid ++ xs = pre' ++ min_by key best xs :: post' /\
    (forall x, x ∈ pre' -> key (min_by key best xs) < key x) /\
    (forall x, x ∈ post' -> key (min_by key best xs) <= key x).
Proof.
  revert pre mid best. induction xs as [|x r IH]; intros pre mid best Hpre Hmid.
  - exists pre, mid. rewrite app_nil_r. auto.
  - cbn [min_by]. destruct (Qlt_le_dec (key x) (key best)) as [Hlt|Hge].
    + destruct (IH (pre ++ best :: mid) [] x) as (pre' & post' & Heq & H1 & H2).
      * intros y Hy. apply elem_of_app in Hy as [Hy|Hy].
        -- specialize (Hpre y Hy). lra.
        -- apply elem_of_cons in Hy as [->|Hy]; [exact Hlt|].
           specialize (Hmid y Hy). lra.
      * intros y Hy. apply elem_of_nil in Hy. contradiction.
      * exists pre', post'. split; [|auto].
        rewrite <- Heq. cbn. rewrite <- !app_assoc. cbn. reflexivity.
    + destruct (IH pre (mid ++ [x]) best) as (pre' & post' & Heq & H1 & H2).
      * exact Hpre.
      * intros y Hy. apply elem_of_app in Hy as [Hy|Hy]; [auto|].
        apply list_elem_of_singleton in Hy. subst y. exact Hge.
      * exists pre', post'. split; [|auto].
        rewrite <- Heq. rewrite <- !app_assoc. reflexivity.
Qed.

Lemma max_by_first (key : Ref -> Q) (xs pre mid : list Ref) (best : Ref) :
  (forall x, x ∈ pre -> key x < key best) ->
  (forall x, x ∈ mid -> key x <= key best) ->
  exists pre' post',
    pre ++ best :: mid ++ xs = pre' ++ max_by key best xs :: post' /\
    (forall x, x ∈ pre' -> key x < key (max_by key best xs)) /\
    (forall x, x ∈ post' -> key x <= key (max_by key best xs)).
Proof.
  revert pre mid best. induction xs as [|x r IH]; intros pre mid best Hpre Hmid.
  - exists pre, mid. rewrite app_nil_r. auto.
  - cbn [max_by]. destruct (Qlt_le_dec (key best) (key x)) as [Hlt|Hge].
    + destruct (IH (pre ++ best :: mid) [] x) as (pre' & post' & Heq & H1 & H2).
      * intros y Hy. apply elem_of_app in Hy as [Hy|Hy].
        -- specialize (Hpre y Hy). lra.
        -- apply elem_of_cons in Hy as [->|Hy]; [exact Hlt|].
           specialize (Hmid y Hy). lra.
      * intros y Hy. apply elem_of_nil in Hy. contradiction.
      * exists pre', post'. split; [|auto].
        rewrite <- Heq. cbn. rewrite <- !app_assoc. cbn. reflexivity.
    + destruct (IH pre (mid ++ [x]) best) as (pre' & post' & Heq & H1 & H2).
      * exact Hpre.
      * intros y Hy. apply elem_of_app in Hy as [Hy|Hy]; [auto|].
        apply list_elem_of_singleton in Hy. subst y. exact Hge.
      * exists pre', post'. split; [|auto].
        rewrite <- Heq. rewrite <- !app_assoc. reflexivity.
Qed.

Lemma Aggressive_choice (cs : list Character) (boss : Ref)
    (allies enemies : list Ref) :
  let alive := living cs enemies in
  match choose_action AggressiveStrategy cs boss allies enemies with
  | (None, action) => action = ActWait /\ alive = []
  | (Some target, action) =>
      action = ActSmash /\
      target ∈ enemies /\ is_alive (deref cs target) = true /\
      exists before after,
        alive = before ++ target :: after /\
        (forall e, e ∈ before -> hp (deref cs target) < hp (deref cs e)) /\
        (forall e, e ∈ after -> hp (deref cs target) <= hp (deref cs e))
  end.
Proof.
  intros alive. unfold choose_action. fold alive.
  destruct alive as [|e r] eqn:Halive; [split; reflexivity|].
  destruct (min_by_first (fun x => hp (deref cs x)) r [] [] e)
    as (before & after & Heq & H1 & H2).
  { intros x Hx. apply elem_of_nil in Hx. contradiction. }
  { intros x Hx. apply elem_of_nil in Hx. contradiction. }
  cbn [app] in Heq.
  assert (Hin : min_by (fun x => hp (deref cs x)) e r ∈ living cs enemies).
  { fold alive. rewrite Halive, Heq. apply elem_of_app. right. left. }
  unfold living in Hin. apply list_elem_of_filter in Hin as [Ha Hin].
  split; [reflexivity|]. split; [exact Hin|]. split; [exact Ha|].
  exists before, after. auto.
Qed.

(** X8.  [AggressiveStrategy.choose_action]: with no enemy alive the boss
    waits; otherwise it smashes a living enemy of least hp, and among the
    living enemies of that hp the first one in the list. *)
Theorem AggressiveStrategy_targets_weakest (cs : list Character) (boss : Ref)
    (allies enemies : list Ref) :
  let alive := living cs enemies in
  match choose_action AggressiveStrategy cs boss allies enemies with
  | (None, action) => action = ActWait /\ alive = []
  | (Some target, action) =>
      action = ActSmash /\
      target ∈ enemies /\ is_alive (deref cs target) = true /\
      (forall e, e ∈ enemies -> is_alive (deref cs e) = true ->
         hp (deref cs target) <= hp (deref cs e)) /\
      exists before after,
        alive = before ++ target :: after /\
        (forall e, e ∈ before -> hp (deref cs target) < hp (deref cs e))
  end.
Proof.
  intros alive.
  pose proof (Aggressive_choice cs boss allies enemies) as H.
  cbv zeta in H. fold alive in H.
  destruct (choose_action AggressiveStrategy cs boss allies enemies)
    as [[t|] action]; [|exact H].
  destruct H as (Ha & Hin & Halive & before & after & Heq & Hb & Hafter).
  split; [exact Ha|]. split; [exact Hin|]. split; [exact Halive|]. split.
  - intros e He Hea.
    assert (Hel : e ∈ alive).
    { unfold alive, living. apply list_elem_of_filter. auto. }
    rewrite Heq in Hel. apply elem_of_app in Hel as [Hel|Hel].
    + specialize (Hb e Hel). lra.
    + apply elem_of_cons in Hel as [->|Hel]; [lra | auto].
  - exists before, after. auto.
Qed.

(** X9.  [DefensiveStrategy.choose_action]: while the boss's shield is below
    15% of its [max_hp] the choice is to shield itself, whatever the
    enemies; otherwise the boss waits when no enemy is alive and smashes
    the first living enemy of greatest strength when one is. *)
Theorem DefensiveStrategy_shields_then_targets_strongest (cs : list Character)
    (boss : Ref) (allies enemies : list Ref) :
  let b := deref cs boss in
  let alive := living cs enemies in
  (shield b < max_hp b * 0.15 ->
   choose_action DefensiveStrategy cs boss allies enemies = (Some boss, ActShield)) /\
  (max_hp b * 0.15 <= shield b ->
   match choose_action DefensiveStrategy cs boss allies enemies with
   | (None, action) => action = ActWait /\ alive = []
   | (Some target, action) =>
       action = ActSmash /\
       target ∈ enemies /\ is_alive (deref cs target) = true /\
       exists before after,
         alive = before ++ target :: after /\
         (forall e, e ∈ before -> strength (deref cs e) < strength (deref cs target)) /\
         (forall e, e ∈ after -> strength (deref cs e) <= strength (deref cs target))
   end).
Proof.
  intros b alive. unfold choose_action. fold b alive. split.
  - intros Hlow. destruct (Qlt_le_dec (shield b) (max_hp b * 0.15)); [reflexivity | lra].
  - intros Hhigh. destruct (Qlt_le_dec (shield b) (max_hp b * 0.15)); [lra|].
    destruct alive as [|e r] eqn:Halive; [split; reflexivity|].
    destruct (max_by_first (fun x => strength (deref cs x)) r [] [] e)
      as (before & after & Heq & H1 & H2).
    { intros x Hx. apply elem_of_nil in Hx. contradiction. }
    { intros x Hx. apply elem_of_nil in Hx. contradiction. }
    cbn [app] in Heq.
    assert (Hin : max_by (fun x => strength (deref cs x)) e r ∈ living cs enemies).
    { fold alive. rewrite Halive, Heq. apply elem_of_app. right. left. }
    unfold living in Hin. apply list_elem_of_filter in Hin as [Ha Hin].
    split; [reflexivity|]. split; [exact Hin|]. split; [exact Ha|].
    exists before, after. auto.
Qed.

Lemma DefensiveStrategy_witness :
  choose_action DefensiveStrategy (chars (main_state 0 "")) 3 [3%nat] [0; 1; 2]%nat
  = (Some 3%nat, ActShield).
Proof.
  apply (proj1 (DefensiveStrategy_shields_then_targets_strongest
                  (chars (main_state 0 "")) 3 [3%nat] [0; 1; 2]%nat)).
  vm_compute. reflexivity.
Defined.

Lemma phase_valid (cs : list Character) (r : Ref) :
  phase (deref cs r) <> 3%Z -> (r < length cs)%nat.
Proof.
  intros H. destruct (le_lt_dec (length cs) r) as [Hge|Hlt]; [|exact Hlt].
  exfalso. apply H. unfold deref. rewrite (lookup_ge_None_2 cs r) by lia.
  reflexivity.
Qed.

Lemma phase_apply_effect (c : Character) (e : Effect) :
  phase (apply_effect c e) = phase c.
Proof. destruct e; reflexivity. Qed.

(** X10.  [Boss.use_skill] in phase 2 with a shield below 15% of [max_hp]: the
    whole turn is one shield effect of [intelligence * 3.5] for 2 turns on
    the boss itself; the shield pool grows by that amount, no generator
    output is used and nobody else changes. *)
Theorem Boss_phase2_shields_itself (self : Ref) (target allies : list Ref) (s : State) :
  let b := deref (chars s) self in
  phase b = 2%Z -> shield b < max_hp b * 0.15 ->
  Boss_use_skill self target allies s
  = (tt, with_chars s
           (alter (fun c => apply_effect c (ShieldEffect self (intelligence b * 3.5) 2))
              self (chars s))) /\
  shield (deref (chars (snd (Boss_use_skill self target allies s))) self)
  == shield b + intelligence b * 3.5.
Proof.
  intros b Hphase Hlow.
  assert (Hvalid : (self < length (chars s))%nat).
  { apply phase_valid. fold b. rewrite Hphase. discriminate. }
  assert (Hrun : Boss_use_skill self target allies s
    = (tt, with_chars s
           (alter (fun c => apply_effect c (ShieldEffect self (intelligence b * 3.5) 2))
              self (chars s)))).
  { unfold Boss_use_skill. cbv zeta. rewrite obj_bind. fold b.
    unfold choose_strategy. rewrite Hphase. cbn [Z.eqb Pos.eqb].
    unfold bind at 1, gets at 1.
    unfold choose_action. fold b.
    destruct (Qlt_le_dec (shield b) (max_hp b * 0.15)) as [_|Hge]; [|lra].
    unfold bind at 1, shield_self at 1. rewrite obj_bind. fold b.
    unfold update at 1, modify at 1. rewrite obj_bind.
    cbn [chars with_chars]. rewrite deref_alter_eq by exact Hvalid. fold b.
    rewrite phase_apply_effect, Hphase. reflexivity. }
  split; [exact Hrun|].
  rewrite Hrun. cbn [snd chars with_chars].
  rewrite deref_alter_eq by exact Hvalid. fold b. cbn. reflexivity.
Qed.

Lemma Boss_phase2_witness :
  shield (deref (chars (snd (Boss_use_skill 3 [0; 1; 2]%nat [3%nat] wounded_boss_state))) 3)
  == shield (deref (chars wounded_boss_state) 3)
     + intelligence (deref (chars wounded_boss_state) 3) * 3.5.
Proof.
  apply (Boss_phase2_shields_itself 3 [0; 1; 2]%nat [3%nat] wounded_boss_state).
  - vm_compute. reflexivity.
  - vm_compute. reflexivity.
Defined.

(** X11.  [Boss.use_skill] in phase 1, the boss not being among its targets
    and some target alive: the whole turn is one [smash] of
    [strength * 2.2] on a living target of least hp; no generator output
    is used. *)
Theorem Boss_phase1_smashes_weakest (self : Ref) (target allies : list Ref) (s : State) :
  let b := deref (chars s) self in
  phase b = 1%Z -> self ∉ target -> living (chars s) target <> [] ->
  exists t,
    t ∈ target /\ is_alive (deref (chars s) t) = true /\
    (forall e, e ∈ target -> is_alive (deref (chars s) e) = true ->
       hp (deref (chars s) t) <= hp (deref (chars s) e)) /\
    Boss_use_skill self target allies s
    = (tt, with_chars s
             (alter (fun c => take_damage c (strength b * 2.2)) t (chars s))).
Proof.
  intros b Hphase Hself Hliving.
  pose proof (Aggressive_choice (chars s) self allies target) as Hchoice.
  cbv zeta in Hchoice.
  unfold Boss_use_skill. cbv zeta. rewrite obj_bind. fold b.
  unfold choose_strategy. rewrite Hphase. cbn [Z.eqb Pos.eqb].
  unfold bind at 1, gets at 1.
  destruct (choose_action AggressiveStrategy (chars s) self allies target)
    as [[t|] action].
  - destruct Hchoice as (-> & Hin & Halive & before & after & Heq & Hb & Ha).
    exists t. split; [exact Hin|]. split; [exact Halive|]. split.
    + intros e He Hea.
      assert (Hel : e ∈ living (chars s) target).
      { unfold living. apply list_elem_of_filter. auto. }
      rewrite Heq in Hel. apply elem_of_app in Hel as [Hel|Hel].
      * specialize (Hb e Hel). lra.
      * apply elem_of_cons in Hel as [->|Hel]; [lra | auto].
    + unfold bind at 1, smash at 1. rewrite obj_bind. fold b.
      unfold update at 1, modify at 1. rewrite obj_bind.
      cbn [chars with_chars].
      rewrite deref_alter_ne by (intros ->; contradiction). fold b.
      rewrite Hphase. reflexivity.
  - destruct Hchoice as [_ Hnil]. contradiction.
Qed.

Lemma Boss_phase1_witness :
  exists t,
    t ∈ [0; 1; 2]%nat /\
    Boss_use_skill 3 [0; 1; 2]%nat [3%nat] (main_state 0 "")
    = (tt, with_chars (main_state 0 "")
             (alter (fun c => take_damage c
                                (strength (deref (chars (main_state 0 "")) 3) * 2.2))
                t (chars (main_state 0 "")))).
Proof.
  destruct (Boss_phase1_smashes_weakest 3 [0; 1; 2]%nat [3%nat] (main_state 0 ""))
    as (t & Hin & _ & _ & Hrun).
  - vm_compute. reflexivity.
  - intros H. apply list_elem_of_In in H. cbn in H.
    destruct H as [H|[H|[H|[]]]]; discriminate H.
  - vm_compute. discriminate.
  - exists t. split; [exact Hin | exact Hrun].
Defined.

(* ===================================================================== *)
(** ** The iterator and the sort, in general *)
(* ===================================================================== *)

Lemma living_cons (cs : list Character) (c : Ref) (rest : list Ref) :
  living cs (c :: rest)
  = if is_alive (deref cs c) then c :: living cs rest else living cs rest.
Proof.
  unfold living. rewrite filter_cons.
  destruct (is_alive (deref cs c)) eqn:Ha.
  - rewrite decide_True by reflexivity. reflexivity.
  - rewrite decide_False by discriminate. reflexivity.
Qed.

Lemma TurnOrder_next_spec (order : list Ref) (s : State) :
  exists r rest,
    TurnOrder_next order s = ((r, rest), s) /\
    match r with
    | Some c =>
        exists dead,
          order = dead ++ c :: rest /\
          Forall (fun d => is_alive (deref (chars s) d) = false) dead /\
          is_alive (deref (chars s) c) = true
    | None =>
        rest = [] /\ Forall (fun d => is_alive (deref (chars s) d) = false) order
    end.
Proof.
  induction order as [|c order IH].
  - exists None, []. split; [reflexivity|]. split; [reflexivity | constructor].
  - cbn [TurnOrder_next]. rewrite obj_bind.
    destruct (is_alive (deref (chars s) c)) eqn:Ha.
    + exists (Some c), order. split; [reflexivity|].
      exists []. split; [reflexivity|]. split; [constructor | exact Ha].
    + destruct IH as (r & rest & Hrun & Hspec).
      exists r, rest. split; [exact Hrun|].
      destruct r as [c'|].
      * destruct Hspec as (dead & -> & Hdead & Hc').
        exists (c :: dead). split; [reflexivity|]. split; [|exact Hc'].
        constructor; assumption.
      * destruct Hspec as [-> Hall]. split; [reflexivity|].
        constructor; assumption.
Qed.

Lemma living_dead_prefix (cs : list Character) (dead l : list Ref) :
  Forall (fun d => is_alive (deref cs d) = false) dead ->
  living cs (dead ++ l) = living cs l.
Proof.
  induction 1 as [|d dead Hd _ IH]; [reflexivity|].
  cbn [app]. rewrite living_cons, Hd. exact IH.
Qed.

Lemma TurnOrder_drain_living (order : list Ref) (fuel : nat) (s : State) :
  (length order < fuel)%nat ->
  TurnOrder_drain fuel order s = (Some (living (chars s) order), s).
Proof.
  revert order. induction fuel as [|fuel IH]; intros order Hfuel; [lia|].
  cbn [TurnOrder_drain]. unfold bind at 1.
  destruct (TurnOrder_next_spec order s) as (r & rest & Hrun & Hspec).
  rewrite Hrun. destruct r as [c|].
  - destruct Hspec as (dead & -> & Hdead & Hc).
    rewrite living_dead_prefix by exact Hdead.
    rewrite living_cons, Hc.
    unfold bind. rewrite IH; [reflexivity|].
    rewrite length_app in Hfuel. cbn in Hfuel. lia.
  - destruct Hspec as [-> Hall].
    rewrite <- (app_nil_r order). rewrite living_dead_prefix by exact Hall.
    reflexivity.
Qed.

(** X16.  [TurnOrder.__next__] for any queue.  It changes no state; it pops
    the dead characters at the front and returns the first living one,
    with the rest of the queue behind it, or ends the iteration with an
    empty queue when all are dead.  Draining the iterator in a state that
    does not change yields the living characters of the queue, in order. *)
Theorem TurnOrder_skips_the_dead (order : list Ref) (s : State) :
  (exists r rest,
     TurnOrder_next order s = ((r, rest), s) /\
     match r with
     | Some c =>
         exists dead,
           order = dead ++ c :: rest /\
           Forall (fun d => is_alive (deref (chars s) d) = false) dead /\
           is_alive (deref (chars s) c) = true
     | None =>
         rest = [] /\
         Forall (fun d => is_alive (deref (chars s) d) = false) order
     end) /\
  TurnOrder_drain (S (length order)) order s
  = (Some (living (chars s) order), s).
Proof.
  split; [apply TurnOrder_next_spec | apply TurnOrder_drain_living; lia].
Qed.

(** *** Stability of the sort *)

Lemma insert_desc_same_key (key : Ref -> Q) (k : Q) (x : Ref) (l : list Ref) :
  List.filter (fun y => Qeq_bool (key y) k) (insert_desc key x l)
  = if Qeq_bool (key x) k
    then x :: List.filter (fun y => Qeq_bool (key y) k) l
    else List.filter (fun y => Qeq_bool (key y) k) l.
Proof.
  induction l as [|y l IH]; cbn [insert_desc List.filter].
  - destruct (Qeq_bool (key x) k); reflexivity.
  - destruct (Qlt_le_dec (key x) (key y)) as [Hlt|Hge]; cbn [List.filter].
    + rewrite IH. destruct (Qeq_bool (key x) k) eqn:Hx; [|reflexivity].
      destruct (Qeq_bool (key y) k) eqn:Hy; [|reflexivity].
      apply Qeq_bool_iff in Hx, Hy. lra.
    + destruct (Qeq_bool (key x) k); reflexivity.
Qed.

(** X17.  The sort of [prepare_round] is stable: the characters of equal
    agility come out in the order in which the shuffle left them. *)
Theorem sort_desc_is_stable (key : Ref -> Q) (k : Q) (l : list Ref) :
  List.filter (fun y => Qeq_bool (key y) k) (sort_desc key l)
  = List.filter (fun y => Qeq_bool (key y) k) l.
Proof.
  induction l as [|x l IH]; [reflexivity|].
  cbn [sort_desc List.filter]. rewrite insert_desc_same_key, IH.
  reflexivity.
Qed.

(* ===================================================================== *)
(** ** Cooldowns *)
(* ===================================================================== *)

Lemma for_each_update (f : Character -> Character) (refs : list Ref) (s : State) :
  for_each refs (fun c => update c f) s
  = (tt, with_chars s (foldl (fun cs c => alter f c cs) (chars s) refs)).
Proof.
  revert s. induction refs as [|c refs IH]; intros s.
  - cbn. rewrite with_chars_id. reflexivity.
  - cbn [for_each foldl]. unfold bind at 1, update at 1, modify at 1.
    rewrite IH. reflexivity.
Qed.

Lemma foldl_alter_other (f : Character -> Character) (refs : list Ref)
    (cs : list Character) (r : Ref) :
  r ∉ refs -> deref (foldl (fun cs c => alter f c cs) cs refs) r = deref cs r.
Proof.
  revert cs. induction refs as [|c refs IH]; intros cs Hr; [reflexivity|].
  cbn [foldl]. apply not_elem_of_cons in Hr as [Hne Hr].
  rewrite IH by exact Hr. apply deref_alter_ne. congruence.
Qed.

Lemma foldl_alter_member (f : Character -> Character) (refs : list Ref)
    (cs : list Character) (r : Ref) :
  NoDup refs -> r ∈ refs -> (r < length cs)%nat ->
  deref (foldl (fun cs c => alter f c cs) cs refs) r = f (deref cs r).
Proof.
  revert cs. induction refs as [|c refs IH]; intros cs Hnd Hr Hvalid.
  - apply elem_of_nil in Hr. contradiction.
  - apply NoDup_cons in Hnd as [Hc Hnd]. cbn [foldl].
    apply elem_of_cons in Hr as [->|Hr].
    + rewrite foldl_alter_other by exact Hc. apply deref_alter_eq, Hvalid.
    + assert (c <> r) by (intros ->; contradiction).
      rewrite IH; [|exact Hnd | exact Hr | rewrite length_alter; exact Hvalid].
      rewrite deref_alter_ne by assumption. reflexivity.
Qed.

Lemma cooldown_of_cool_down (ch : Character) (skill : string) :
  cooldown_of (cool_down ch) skill = cooled (cooldown_of ch skill).
Proof.
  unfold cooldown_of, cool_down. cbn [cooldowns with_cooldowns].
  rewrite lookup_fmap. destruct (cooldowns ch !! skill); reflexivity.
Qed.

Lemma tick_cooldowns_chars (b : Battle) (s : State) :
  tick_cooldowns b s
  = (tt, with_chars s (foldl (fun cs c => alter cool_down c cs) (chars s) (combatants b))).
Proof.
  unfold tick_cooldowns.
  change (fun c => update c (fun ch => with_cooldowns ch
            ((fun v => if (0 <? v)%Z then (v - 1)%Z else v) <$> cooldowns ch)))
    with (fun c => update c cool_down).
  apply for_each_update.
Qed.

Lemma foldl_alter_length (f : Character -> Character) (refs : list Ref)
    (cs : list Character) :
  length (foldl (fun cs c => alter f c cs) cs refs) = length cs.
Proof.
  revert cs. induction refs as [|c refs IH]; intros cs; [reflexivity|].
  cbn [foldl]. rewrite IH. apply length_alter.
Qed.

(** X18.  [Battle.tick_cooldowns], the combatants being distinct: every
    combatant has each positive cooldown counter lowered by one and the
    others left alone; nothing else of a combatant changes, and neither
    do the characters outside the battle, the random generator, the
    console, the log or the round counter. *)
Theorem tick_cooldowns_spec (b : Battle) (s : State) :
  NoDup (combatants b) ->
  let s' := snd (tick_cooldowns b s) in
  (forall r, r ∈ combatants b -> (r < length (chars s))%nat ->
     deref (chars s') r = cool_down (deref (chars s) r) /\
     forall skill,
       cooldown_of (deref (chars s') r) skill
       = cooled (cooldown_of (deref (chars s) r) skill)) /\
  (forall r, r ∉ combatants b -> deref (chars s') r = deref (chars s) r) /\
  rng s' = rng s /\ stdin s' = stdin s /\ entries s' = entries s /\ round s' = round s.
Proof.
  intros Hnd s'. subst s'. rewrite tick_cooldowns_chars.
  cbn [snd chars with_chars rng stdin entries round].
  split; [|split; [|repeat split]].
  - intros r Hr Hvalid.
    rewrite (foldl_alter_member cool_down _ _ r Hnd Hr Hvalid).
    split; [reflexivity|]. intros skill. apply cooldown_of_cool_down.
  - intros r Hr. apply foldl_alter_other, Hr.
Qed.

Lemma tick_cooldowns_witness :
  let s := snd (power_strike is_silenced 0 3 (main_state 0 "")) in
  cooldown_of (deref (chars (snd (tick_cooldowns main_battle s))) 0) "power_strike"
  = cooled (cooldown_of (deref (chars s) 0) "power_strike").
Proof.
  cbv zeta.
  assert (Hnd : NoDup (combatants main_battle)).
  { vm_compute. repeat constructor; intros H; apply list_elem_of_In in H; cbn in H;
      intuition discriminate. }
  refine (proj2 (proj1 (tick_cooldowns_spec main_battle _ Hnd) 0%nat _ _) _).
  - vm_compute. apply list_elem_of_In. left. reflexivity.
  - vm_compute. lia.
Defined.

Lemma cooled_iter (n : nat) (v : Z) :
  (0 <= v)%Z -> Nat.iter n cooled v = Z.max 0 (v - Z.of_nat n).
Proof.
  intros Hv. induction n as [|n IH].
  - cbn. lia.
  - rewrite Nat.iter_succ, IH. unfold cooled.
    destruct (Z.ltb_spec 0 (Z.max 0 (v - Z.of_nat n))); lia.
Qed.

(** X19.  A cooldown counter [v >= 0] stands at [max(0, v - n)] after [n]
    calls of [tick_cooldowns]: it reaches 0 after [v] rounds and stays
    there. *)
Theorem cooldown_runs_out (b : Battle) (n : nat) (s : State) (r : Ref) (skill : string) :
  NoDup (combatants b) -> r ∈ combatants b -> (r < length (chars s))%nat ->
  (0 <= cooldown_of (deref (chars s) r) skill)%Z ->
  let s' := Nat.iter n (fun st => snd (tick_cooldowns b st)) s in
  cooldown_of (deref (chars s') r) skill
  = Z.max 0 (cooldown_of (deref (chars s) r) skill - Z.of_nat n).
Proof.
  intros Hnd Hr Hvalid Hv s'. subst s'.
  rewrite <- (cooled_iter n _ Hv).
  induction n as [|n IH]; [reflexivity|].
  rewrite !Nat.iter_succ. rewrite <- IH.
  set (sn := Nat.iter n (fun st => snd (tick_cooldowns b st)) s) in *.
  assert (Hlen : length (chars sn) = length (chars s)).
  { subst sn. clear IH. induction n as [|m IHm]; [reflexivity|].
    rewrite Nat.iter_succ, tick_cooldowns_chars. cbn [snd chars with_chars].
    rewrite foldl_alter_length. exact IHm. }
  rewrite tick_cooldowns_chars. cbn [snd chars with_chars].
  rewrite (foldl_alter_member cool_down _ _ r Hnd Hr) by (rewrite Hlen; exact Hvalid).
  apply cooldown_of_cool_down.
Qed.

Lemma cooldown_runs_out_witness :
  let s := snd (power_strike is_silenced 0 3 (main_state 0 "")) in
  cooldown_of
    (deref (chars (Nat.iter 3 (fun st => snd (tick_cooldowns main_battle st)) s)) 0)
    "power_strike"
  = Z.max 0 (cooldown_of (deref (chars s) 0) "power_strike" - 3).
Proof.
  cbv zeta.
  apply (cooldown_runs_out main_battle 3).
  - vm_compute. repeat constructor; intros H; apply list_elem_of_In in H; cbn in H;
      intuition discriminate.
  - vm_compute. apply list_elem_of_In. left. reflexivity.
  - vm_compute. lia.
  - vm_compute. discriminate.
Defined.

(* ===================================================================== *)
(** ** The hero menu *)
(* ===================================================================== *)

(** X5.  [_hero_menu_action]: every answer other than "0", "2" and "3" (after
    [strip]), "1" or any mistyped input alike, is a basic attack on the
    boss, and the battle goes on. *)
Theorem menu_default_is_basic_attack (silenced : Character -> bool)
    (b : Battle) (hero : Ref) (s : State) :
  let choice := str_strip (fst (input s)) in
  choice <> "0" -> choice <> "2" -> choice <> "3" ->
  hero_menu_action silenced b hero s
  = (false, snd (basic_attack hero (boss b) (snd (input s)))).
Proof.
  intros choice H0 H2 H3. unfold hero_menu_action.
  unfold bind at 1. subst choice.
  destruct (input s) as [line s1]. cbn [fst snd] in *. cbv zeta.
  destruct (String.eqb_spec (str_strip line) "0"); [contradiction|].
  destruct (String.eqb_spec (str_strip line) "2"); [contradiction|].
  destruct (String.eqb_spec (str_strip line) "3"); [contradiction|].
  destruct (String.eqb (str_strip line) "1");
    unfold bind; destruct (basic_attack hero (boss b) s1) as [[] s2]; reflexivity.
Qed.

Lemma menu_default_witness :
  hero_menu_action is_silenced main_battle 0 (main_state 0 "7")
  = (false, snd (basic_attack 0 3 (snd (input (main_state 0 "7"))))).
Proof.
  apply (menu_default_is_basic_attack is_silenced main_battle 0 (main_state 0 "7"));
    vm_compute; discriminate.
Defined.

(** X6.  [_hero_menu_action]: choosing "0" and then answering anything but
    "yes" (case and surrounding blanks aside) returns [False] and costs
    the hero the turn: two lines of input are read, and neither the
    characters nor the random generator nor the log change. *)
Theorem menu_unconfirmed_exit_is_noop (silenced : Character -> bool)
    (b : Battle) (hero : Ref) (s : State) :
  str_strip (lines (stdin s) (cursor (stdin s))) = "0" ->
  str_lower (str_strip (lines (stdin s) (S (cursor (stdin s))))) <> "yes" ->
  exists s',
    hero_menu_action silenced b hero s = (false, s') /\
    chars s' = chars s /\ rng s' = rng s /\ entries s' = entries s /\
    cursor (stdin s') = S (S (cursor (stdin s))).
Proof.
  intros Hchoice Hconfirm. unfold hero_menu_action.
  unfold bind at 1, input at 1. cbv zeta. rewrite Hchoice, String.eqb_refl.
  unfold bind at 1, input at 1. cbn [stdin with_stdin lines cursor].
  destruct (String.eqb_spec
              (str_lower (str_strip (lines (stdin s) (S (cursor (stdin s)))))) "yes")
    as [Heq|_]; [contradiction|].
  eexists. split; [reflexivity|]. repeat split.
Qed.

Lemma menu_unconfirmed_exit_witness :
  exists s',
    hero_menu_action is_silenced main_battle 0 hesitant_state = (false, s') /\
    chars s' = chars hesitant_state.
Proof.
  destruct (menu_unconfirmed_exit_is_noop is_silenced main_battle 0 hesitant_state)
    as (s' & Hrun & Hchars & _).
  - vm_compute. reflexivity.
  - vm_compute. discriminate.
  - exists s'. split; [exact Hrun | exact Hchars].
Defined.

Lemma list_items_lookup_name (items : Inventory) (k : nat) (nm : string) :
  option_map (fun '(nm0, _, _) => nm0) (Inventory_list_items items !! k) = Some nm ->
  nm ∈ inv_keys items.
Proof.
  unfold Inventory_list_items. rewrite list_lookup_fmap.
  destruct (items !! k) as [[n [i c]]|] eqn:Hlk; [|discriminate].
  cbn. intros H. injection H as <-.
  unfold inv_keys. apply list_elem_of_fmap. exists (n, (i, c)).
  split; [reflexivity|]. apply list_elem_of_lookup. eauto.
Qed.

(** X7.  [_choose_item_from_hero].  With an empty inventory nothing is read
    and [None] is returned.  Otherwise exactly one line is read, no
    character changes, an empty line gives [None], and a name that is
    returned is a name of the hero's inventory. *)
Theorem choose_item_edge_cases (hero : Ref) (s : State) :
  let items := inventory (deref (chars s) hero) in
  (items = [] -> choose_item_from_hero hero s = (None, s)) /\
  (items <> [] ->
   chars (snd (choose_item_from_hero hero s)) = chars s /\
   cursor (stdin (snd (choose_item_from_hero hero s))) = S (cursor (stdin s)) /\
   (forall nm, fst (choose_item_from_hero hero s) = Some nm -> nm ∈ inv_keys items) /\
   (str_strip (lines (stdin s) (cursor (stdin s))) = "" ->
    fst (choose_item_from_hero hero s) = None)).
Proof.
  intros items. unfold choose_item_from_hero. rewrite obj_bind. fold items.
  split.
  - intros ->. reflexivity.
  - intros Hne.
    destruct (Inventory_list_items items) as [|p l] eqn:Hli.
    { destruct items; [contradiction | discriminate]. }
    rewrite <- Hli. unfold bind, input. cbv zeta.
    set (line := lines (stdin s) (cursor (stdin s))).
    destruct (String.eqb_spec (str_strip line) "") as [Hempty|Hnonempty].
    { cbn. repeat split; try discriminate. }
    destruct (py_int (str_strip line)) as [n|]; cbn [fst snd].
    + destruct (_ && _)%bool; cbn [fst snd ret chars with_stdin stdin cursor].
      * repeat split. all: try (intros; contradiction).
        intros nm Hnm. exact (list_items_lookup_name _ _ _ Hnm).
      * repeat split; try discriminate; intros; contradiction.
    + unfold ret. cbn. repeat split; try discriminate; intros; contradiction.
Qed.

Lemma choose_item_witness :
  choose_item_from_hero 3 (main_state 0 "1") = (None, main_state 0 "1") /\
  fst (choose_item_from_hero 0 (main_state 0 "")) = None.
Proof.
  split.
  - apply (proj1 (choose_item_edge_cases 3 (main_state 0 "1"))). reflexivity.
  - apply (proj2 (choose_item_edge_cases 0 (main_state 0 ""))).
    + vm_compute. discriminate.
    + reflexivity.
Defined.

(* ===================================================================== *)
(** ** What a battle leaves fixed *)
(* ===================================================================== *)

Lemma same_base_refl c : same_base c c.
Proof. repeat split. Qed.

Lemma same_base_trans c1 c2 c3 : same_base c1 c2 -> same_base c2 c3 -> same_base c1 c3.
Proof.
  unfold same_base. intros H1 H2.
  destruct H1 as (?&?&?&?&?&?&?&?), H2 as (?&?&?&?&?&?&?&?).
  repeat split; congruence.
Qed.

Lemma same_base_take_damage c a : same_base c (take_damage c a).
Proof.
  unfold take_damage.
  destruct (Qlt_le_dec 0 (shield c)); destruct (Qlt_le_dec 0 _); repeat split.
Qed.

Lemma same_base_spend_mp c cost : same_base c (fst (spend_mp c cost)).
Proof. unfold spend_mp. destruct (Qlt_le_dec (mp c) cost); repeat split. Qed.

Lemma same_base_apply_effect c e : same_base c (apply_effect c e).
Proof. destruct e; repeat split. Qed.

Ltac base_facts :=
  first
    [ exact same_base_refl | exact same_base_trans
    | exact same_base_take_damage
    | solve [intros; apply same_base_spend_mp]
    | solve [intros; apply same_base_apply_effect]
    | solve [intros; repeat split] ].

Lemma same_base_start_turn c : same_base c (start_turn_effects c).
Proof. apply R_start_turn_effects; base_facts. Qed.

Lemma Forall2_deref (R : Character -> Character -> Prop) (cs cs' : list Character) (r : Ref) :
  R null_character null_character ->
  Forall2 R cs cs' -> R (deref cs r) (deref cs' r).
Proof.
  intros Hnull H. unfold deref.
  destruct (cs !! r) as [c|] eqn:Hc.
  - destruct (Forall2_lookup_l _ _ _ _ _ H Hc) as (c' & Hc' & Hrel).
    rewrite Hc'. exact Hrel.
  - apply lookup_ge_None in Hc. rewrite (Forall2_length _ _ _ H) in Hc.
    apply lookup_ge_None in Hc. rewrite Hc. exact Hnull.
Qed.

(** X20.  [Battle.run] keeps the cast: the number of characters, and for each
    of them the class, name, level, strength, agility, intelligence,
    critical chance and critical multiplier, are the same after the battle
    as before. *)
Theorem battle_keeps_base_attributes (silenced : Character -> bool) (b : Battle)
    (max_rounds : Z) (s : State) :
  let s' := snd (run silenced b max_rounds s) in
  length (chars s') = length (chars s) /\
  forall r, same_base (deref (chars s) r) (deref (chars s') r).
Proof.
  intros s'. subst s'.
  assert (H : Forall2 same_base (chars s) (chars (snd (run silenced b max_rounds s)))).
  { apply evolves_run; first [base_facts | exact same_base_start_turn]. }
  split; [symmetry; eapply Forall2_length, H|].
  intros r. apply Forall2_deref; [apply same_base_refl | exact H].
Qed.

Lemma keeps_nonneg_set_hp c v : keeps_nonneg c (set_hp c v).
Proof.
  unfold keeps_nonneg, vitals_nonneg, set_hp. unfold_stats. intros [_ H].
  split; [apply py_max_0_nonneg | exact H].
Qed.

Lemma keeps_nonneg_set_mp c v : keeps_nonneg c (set_mp c v).
Proof.
  unfold keeps_nonneg, vitals_nonneg, set_mp. unfold_stats. intros [H _].
  split; [exact H | apply py_max_0_nonneg].
Qed.

Lemma keeps_nonneg_take_damage c a : keeps_nonneg c (take_damage c a).
Proof.
  unfold take_damage.
  destruct (Qlt_le_dec 0 (shield c)); destruct (Qlt_le_dec 0 _);
    try (intros H; exact H).
  - intros H. apply (keeps_nonneg_set_hp (with_shield c _)). exact H.
  - apply keeps_nonneg_set_hp.
Qed.

Lemma keeps_nonneg_spend_mp c cost : keeps_nonneg c (fst (spend_mp c cost)).
Proof.
  unfold spend_mp. destruct (Qlt_le_dec (mp c) cost); cbn [fst].
  - intros H; exact H.
  - apply keeps_nonneg_set_mp.
Qed.

Lemma keeps_nonneg_apply_effect c e : keeps_nonneg c (apply_effect c e).
Proof. destruct e; intros H; exact H. Qed.

Ltac nonneg_facts :=
  first
    [ solve [unfold keeps_nonneg; auto]
    | exact keeps_nonneg_take_damage
    | solve [intros; apply keeps_nonneg_set_hp]
    | solve [intros; apply keeps_nonneg_set_mp]
    | solve [intros; apply keeps_nonneg_spend_mp]
    | solve [intros; apply keeps_nonneg_apply_effect]
    | solve [intros ? ? H; exact H] ].

Lemma keeps_nonneg_start_turn c : keeps_nonneg c (start_turn_effects c).
Proof. apply R_start_turn_effects; nonneg_facts. Qed.

(** X21.  If no character has negative hp or mp when [Battle.run] starts,
    none has when it returns. *)
Theorem battle_keeps_vitals_nonneg (silenced : Character -> bool) (b : Battle)
    (max_rounds : Z) (s : State) :
  Forall vitals_nonneg (chars s) ->
  Forall vitals_nonneg (chars (snd (run silenced b max_rounds s))).
Proof.
  intros Hs.
  assert (H : Forall2 keeps_nonneg (chars s) (chars (snd (run silenced b max_rounds s)))).
  { apply evolves_run; first [nonneg_facts | exact keeps_nonneg_start_turn]. }
  induction H as [|c c' l l' Hc _ IH]; [constructor|].
  apply Forall_cons in Hs as [Hb Hs]. constructor; auto.
Qed.

Lemma battle_keeps_vitals_nonneg_witness :
  Forall vitals_nonneg (chars (snd (run is_silenced main_battle 2 (main_state 0 "1")))).
Proof.
  apply battle_keeps_vitals_nonneg.
  unfold main_state, make_sample_party. cbn [chars app].
  repeat constructor; vm_compute; discriminate.
Defined.

(* ===================================================================== *)
(** ** The battle log and the outcome *)
(* ===================================================================== *)

Lemma turn_log_quiet (s s' : State) (flow : Flow) :
  entries s' = entries s -> (forall v, flow <> Return v) ->
  turn_log s flow s' [].
Proof.
  intros H Hflow. split; [rewrite app_nil_r; exact H|].
  split; [constructor|]. intros v Hv. destruct (Hflow v Hv).
Qed.

Lemma turn_log_app (s s1 s' : State) (flow : Flow) (m1 m2 : list LogEntry) :
  entries s1 = entries s ++ m1 -> Forall is_turn_entry m1 ->
  turn_log s1 flow s' m2 -> turn_log s flow s' (m1 ++ m2).
Proof.
  intros H1 F1 (H2 & F2 & Hret). split; [|split].
  - rewrite H2, H1, app_assoc. reflexivity.
  - apply Forall_app. auto.
  - intros v Hv. destruct (Hret v Hv) as (-> & Hj & mid' & ->).
    split; [reflexivity|]. split; [exact Hj|].
    exists (m1 ++ mid'). rewrite app_assoc. reflexivity.
Qed.

Lemma hero_menu_action_entries (silenced : Character -> bool) (b : Battle)
    (hero : Ref) (s : State) :
  entries (snd (hero_menu_action silenced b hero s)) = entries s.
Proof. apply (preserves_hero_menu_action entries); intros; reflexivity. Qed.

Lemma retaliation_log (b : Battle) (before : Q) (s s' : State) (flow : Flow) :
  retaliation b before s = (flow, s') ->
  (forall v, flow <> Return v) /\
  exists mid, entries s' = entries s ++ mid /\ Forall is_turn_entry mid.
Proof.
  unfold retaliation. unfold bind at 1, gets at 1. cbv zeta.
  destruct (_ && _ && _)%bool.
  - unfold bind, random_choice, randbelow, next_raw, broadcast, record, smash,
      modify, obj, gets, update, modify, ret. cbn.
    destruct (negb _); intros [= <- <-]; (split; [discriminate|]);
      (eexists; split; [reflexivity|]; repeat constructor).
  - intros [= <- <-]. split; [discriminate|].
    exists []. rewrite app_nil_r. split; [reflexivity | constructor].
Qed.

Lemma hero_turn_log (silenced : Character -> bool) (b : Battle) (hero : Ref)
    (s s' : State) (flow : Flow) :
  hero_turn silenced b hero s = (flow, s') ->
  exists mid, turn_log s flow s' mid.
Proof.
  unfold hero_turn. rewrite obj_bind. cbv beta zeta. unfold bind at 1.
  pose proof (hero_menu_action_entries silenced b hero s) as Hmenu.
  destruct (hero_menu_action silenced b hero s) as [exit_battle s1].
  cbn [snd] in Hmenu. destruct exit_battle.
  - unfold bind, broadcast, record, dump, modify, ret. cbn. intros [= <- <-].
    exists [PlayerExit]. split; [cbn; rewrite Hmenu; reflexivity|].
    split; [repeat constructor|]. intros v [= <-].
    split; [reflexivity|]. split; [reflexivity|]. exists []. reflexivity.
  - unfold bind at 1.
    destruct (retaliation b _ s1) as [flow1 s2] eqn:E.
    apply retaliation_log in E. destruct E as (Hflow & mid & Hmid & Fmid).
    rewrite Hmenu in Hmid.
    assert (Hquiet : forall fl s3, (forall v, fl <> Return v) ->
              entries s3 = entries s2 -> turn_log s fl s3 mid).
    { intros fl s3 Hfl He. split; [rewrite He; exact Hmid|].
      split; [exact Fmid|]. intros v Hv. destruct (Hfl v Hv). }
    destruct flow1 as [| |v].
    + unfold bind, gets, ret. cbn. destruct (_ || _)%bool; intros [= <- <-];
        exists mid; apply Hquiet; (discriminate || reflexivity).
    + intros [= <- <-]. exists mid. apply Hquiet; (discriminate || reflexivity).
    + exfalso. apply (Hflow v). reflexivity.
Qed.

Lemma actor_turn_log (silenced : Character -> bool) (b : Battle) (actor : Ref)
    (s s' : State) (flow : Flow) :
  actor_turn silenced b actor s = (flow, s') ->
  exists mid, turn_log s flow s' mid.
Proof.
  unfold actor_turn. rewrite obj_bind. cbv beta.
  destruct (negb (is_alive (deref (chars s) actor))).
  { intros [= <- <-]. exists []. apply turn_log_quiet; (discriminate || reflexivity). }
  unfold bind at 1, update at 1, modify at 1. rewrite obj_bind. cbv beta.
  set (s1 := with_chars s (alter start_turn_effects actor (chars s))).
  destruct (negb (is_alive (deref (chars s1) actor))).
  { intros [= <- <-]. exists []. apply turn_log_quiet; (discriminate || reflexivity). }
  destruct (CharClass_eqb (cls (deref (chars s1) actor)) Boss).
  - unfold bind at 1.
    pose proof (Boss_use_skill_entries actor (party b) [boss b] s1) as He.
    destruct (Boss_use_skill actor (party b) [boss b] s1) as [[] s2].
    cbn [snd] in He. unfold bind, gets, ret. cbn.
    destruct (negb _); intros [= <- <-]; exists [];
      apply turn_log_quiet; (discriminate || exact He).
  - intros E. apply hero_turn_log in E. destruct E as (mid & Hlog).
    exists mid. exact Hlog.
Qed.

Lemma for_actors_log (silenced : Character -> bool) (b : Battle)
    (order : list Ref) (s s' : State) (flow : Flow) :
  for_actors silenced b order s = (flow, s') ->
  exists mid, turn_log s flow s' mid.
Proof.
  revert s. induction order as [|c rest IH]; intros s; cbn [for_actors].
  - intros [= <- <-]. exists []. apply turn_log_quiet; (discriminate || reflexivity).
  - rewrite obj_bind. destruct (is_alive (deref (chars s) c)); [|apply IH].
    unfold bind at 1.
    destruct (actor_turn silenced b c s) as [flow1 s1] eqn:E.
    apply actor_turn_log in E. destruct E as (m1 & Hlog).
    destruct flow1 as [| |v].
    + intros E. apply IH in E. destruct E as (m2 & Hlog').
      exists (m1 ++ m2). destruct Hlog as (H1 & F1 & _).
      eapply turn_log_app; eassumption.
    + intros [= <- <-]. exists m1. exact Hlog.
    + intros [= <- <-]. exists m1. exact Hlog.
Qed.

Lemma prepare_round_log (combatants : list Ref) (s : State) :
  entries (snd (prepare_round combatants s)) = entries s /\
  battle_log_json (snd (prepare_round combatants s)) = battle_log_json s /\
  chars (snd (prepare_round combatants s)) = chars s /\
  round (snd (prepare_round combatants s)) = round s.
Proof.
  repeat split.
  - apply (preserves_prepare_round entries); intros; reflexivity.
  - apply (preserves_prepare_round battle_log_json); intros; reflexivity.
  - apply (preserves_prepare_round chars); intros; reflexivity.
  - apply (preserves_prepare_round round); intros; reflexivity.
Qed.

Lemma tick_cooldowns_log (b : Battle) (s : State) :
  entries (snd (tick_cooldowns b s)) = entries s /\
  battle_log_json (snd (tick_cooldowns b s)) = battle_log_json s.
Proof.
  split.
  - apply (preserves_tick_cooldowns entries); intros; reflexivity.
  - apply (preserves_tick_cooldowns battle_log_json); intros; reflexivity.
Qed.

Lemma one_round_log (silenced : Character -> bool) (b : Battle)
    (s s' : State) (flow : Flow) :
  one_round silenced b s = (flow, s') ->
  exists mid,
    entries s' =
      entries s ++
      RoundBegin (round s)
        :: RoundHeader (round s) (phase (deref (chars s) (boss b)))
        :: mid ++ [RoundEnd (round s)] /\
    Forall is_turn_entry mid /\
    forall v, flow = Return v ->
      v = false /\
      (exists mid', mid = mid' ++ [PlayerExit]) /\
      battle_log_json s' =
        Some (entries s ++
              RoundBegin (round s)
                :: RoundHeader (round s) (phase (deref (chars s) (boss b)))
                :: mid).
Proof.
  unfold one_round. unfold bind at 1, gets at 1.
  unfold bind at 1, record at 1, modify at 1.
  rewrite obj_bind. cbv beta.
  unfold bind at 1, broadcast at 1, record at 1, modify at 1.
  cbn [chars with_entries entries].
  set (hd := entries s ++ [RoundBegin (round s)] ++
             [RoundHeader (round s) (phase (deref (chars s) (boss b)))]).
  set (s1 := with_entries _ _).
  assert (Hs1 : entries s1 = hd).
  { subst s1 hd. cbn. rewrite <- app_assoc. reflexivity. }
  unfold bind at 1.
  destruct (prepare_round_log (combatants b) s1) as (He2 & _).
  destruct (prepare_round (combatants b) s1) as [order s2]. cbn [snd] in He2.
  unfold bind at 1.
  destruct (for_actors silenced b order s2) as [flow1 s3] eqn:E.
  apply for_actors_log in E. destruct E as (mid & Hm & Fm & Hret).
  rewrite He2, Hs1 in Hm.
  assert (Hshape : forall l : list LogEntry,
            hd ++ l = entries s ++ RoundBegin (round s)
              :: RoundHeader (round s) (phase (deref (chars s) (boss b))) :: l).
  { intros l. subst hd. rewrite <- !app_assoc. reflexivity. }
  destruct flow1 as [| |v].
  - destruct (tick_cooldowns_log b s3) as (Het & _).
    unfold bind at 1. destruct (tick_cooldowns b s3) as [[] s4]. cbn [snd] in Het.
    unfold bind, record, modify, ret. cbn. intros [= <- <-]. exists mid.
    split; [cbn; rewrite Het, Hm, <- app_assoc; apply Hshape|].
    split; [exact Fm | discriminate].
  - destruct (tick_cooldowns_log b s3) as (Het & _).
    unfold bind at 1. destruct (tick_cooldowns b s3) as [[] s4]. cbn [snd] in Het.
    unfold bind, record, modify, ret. cbn. intros [= <- <-]. exists mid.
    split; [cbn; rewrite Het, Hm, <- app_assoc; apply Hshape|].
    split; [exact Fm | discriminate].
  - unfold bind, record, modify, ret. cbn. intros [= <- <-]. exists mid.
    split; [cbn; rewrite Hm, <- app_assoc; apply Hshape|].
    split; [exact Fm|]. intros v' [= <-].
    destruct (Hret v eq_refl) as (-> & Hj & Hlast).
    split; [reflexivity|]. split; [exact Hlast|].
    cbn. rewrite Hj, Hm. f_equal. apply Hshape.
Qed.

(** X22.  One iteration of the loop of [Battle.run] (the [with log_round]
    block).  It appends to the log the round's begin record, the header
    with the boss's phase at the start of the round, then only
    retaliation and exit records, and last the round's end record, also
    when the player leaves.  In that case [run] returns [False], the exit
    record is the last before the end record, and the dumped file stops
    at the exit record: the end record is written after the dump. *)
Theorem round_log_is_bracketed (silenced : Character -> bool) (b : Battle)
    (s : State) :
  let flow := fst (one_round silenced b s) in
  let s' := snd (one_round silenced b s) in
  let opening :=
    [RoundBegin (round s);
     RoundHeader (round s) (phase (deref (chars s) (boss b)))] in
  exists mid,
    entries s' = entries s ++ opening ++ mid ++ [RoundEnd (round s)] /\
    Forall is_turn_entry mid /\
    forall v, flow = Return v ->
      v = false /\
      (exists mid', mid = mid' ++ [PlayerExit]) /\
      battle_log_json s' = Some (entries s ++ opening ++ mid).
Proof.
  cbv zeta. destruct (one_round silenced b s) as [flow s'] eqn:E.
  apply one_round_log in E. exact E.
Qed.

Lemma round_log_witness :
  exists mid,
    Forall is_turn_entry mid /\
    battle_log_json (snd (one_round is_silenced main_battle leaving_state))
    = Some (entries leaving_state
            ++ [RoundBegin (round leaving_state);
                RoundHeader (round leaving_state)
                  (phase (deref (chars leaving_state) (boss main_battle)))]
            ++ mid).
Proof.
  destruct (round_log_is_bracketed is_silenced main_battle leaving_state)
    as (mid & _ & Hmid & Hexit).
  exists mid. split; [exact Hmid|].
  apply (Hexit false). vm_compute. reflexivity.
Defined.

Lemma battle_loop_outcome (silenced : Character -> bool) (fuel : nat)
    (b : Battle) (max_rounds : Z) (s s' : State) (e : LoopEnd) :
  battle_loop silenced fuel b max_rounds s = (e, s') ->
  exists blocks,
    entries s' = entries s ++ blocks /\
    match e with
    | Exhausted => True
    | Finished =>
        round_blocks (round s) blocks (round s') /\
        loop_condition b max_rounds s' = false
    | Returned v =>
        v = false /\
        round_blocks (round s) blocks (round s' + 1) /\
        exists pre, entries s' = pre ++ [PlayerExit; RoundEnd (round s')] /\
                    battle_log_json s' = Some (pre ++ [PlayerExit])
    end.
Proof.
  revert s s' e. induction fuel as [|fuel IH]; intros s s' e; cbn [battle_loop];
    unfold bind at 1 2, gets at 1 2; cbn beta;
    change ((round s <=? max_rounds)%Z && is_alive (deref (chars s) (boss b))
            && any_alive (chars s) (party b))%bool
      with (loop_condition b max_rounds s);
    destruct (loop_condition b max_rounds s) eqn:Hcond.
  - intros [= <- <-]. exists []. rewrite app_nil_r. auto.
  - intros [= <- <-]. exists []. rewrite app_nil_r.
    split; [reflexivity|]. split; [constructor | exact Hcond].
  - unfold bind at 1.
    pose proof (one_round_round silenced b s) as Hr.
    destruct (one_round silenced b s) as [flow s1] eqn:E. cbn [snd] in Hr.
    apply one_round_log in E. destruct E as (mid & He & Fm & Hret).
    set (ph := phase (deref (chars s) (boss b))) in *.
    assert (Hnext : forall s2 e2,
              battle_loop silenced fuel b max_rounds
                (with_round s1 (round s1 + 1)%Z) = (e2, s2) ->
              exists blocks,
                entries s2 = entries s ++ blocks /\
                match e2 with
                | Exhausted => True
                | Finished =>
                    round_blocks (round s) blocks (round s2) /\
                    loop_condition b max_rounds s2 = false
                | Returned v =>
                    v = false /\
                    round_blocks (round s) blocks (round s2 + 1) /\
                    exists pre,
                      entries s2 = pre ++ [PlayerExit; RoundEnd (round s2)] /\
                      battle_log_json s2 = Some (pre ++ [PlayerExit])
                end).
    { intros s2 e2 E2. apply IH in E2. destruct E2 as (rest & He2 & Hout).
      cbn [entries round with_round] in He2, Hout. rewrite Hr in Hout.
      exists (RoundBegin (round s) :: RoundHeader (round s) ph
                :: mid ++ RoundEnd (round s) :: rest).
      split.
      { rewrite He2, He. rewrite <- app_assoc. cbn. rewrite <- app_assoc.
        reflexivity. }
      destruct e2 as [| |v]; [exact I | |].
      - destruct Hout as (Hb & Hc). split; [|exact Hc].
        constructor; assumption.
      - destruct Hout as (Hv & Hb & Hpre). split; [exact Hv|].
        split; [|exact Hpre]. constructor; assumption. }
    destruct flow as [| |v].
    + unfold bind, modify. cbn beta iota. cbn [snd]. apply Hnext.
    + unfold bind, modify. cbn beta iota. cbn [snd]. apply Hnext.
    + intros [= <- <-]. destruct (Hret v eq_refl) as (-> & (mid' & ->) & Hj).
      eexists. split; [exact He|]. split; [reflexivity|]. rewrite Hr. split.
      * constructor; [exact Fm | constructor].
      * exists (entries s ++ RoundBegin (round s) :: RoundHeader (round s) ph :: mid').
        split.
        -- rewrite He. rewrite <- !app_assoc. reflexivity.
        -- rewrite Hj, <- app_assoc. reflexivity.
  - intros [= <- <-]. exists []. rewrite app_nil_r.
    split; [reflexivity|]. split; [constructor | exact Hcond].
Qed.

Lemma run_outcome (silenced : Character -> bool) (b : Battle)
    (max_rounds : Z) (s s' : State) (res : option bool) :
  run silenced b max_rounds s = (res, s') ->
  exists (e : Ending) (blocks : list LogEntry),
    res = Some (verdict e) /\
    entries s' = entries s ++ BattleStart :: blocks ++ closing e /\
    match e with
    | PartyWon =>
        round_blocks (round s) blocks (round s') /\
        is_alive (deref (chars s') (boss b)) = false /\
        battle_log_json s' = Some (entries s')
    | BossWon =>
        round_blocks (round s) blocks (round s') /\
        is_alive (deref (chars s') (boss b)) = true /\
        ((max_rounds < round s')%Z \/ any_alive (chars s') (party b) = false) /\
        battle_log_json s' = Some (entries s')
    | PlayerLeft =>
        round_blocks (round s) blocks (round s' + 1) /\
        exists pre, entries s' = pre ++ [PlayerExit; RoundEnd (round s')] /\
                    battle_log_json s' = Some (pre ++ [PlayerExit])
    end.
Proof.
  unfold run. unfold bind at 1. unfold broadcast at 1, record at 1, modify at 1.
  unfold bind at 1, gets at 1. cbn [entries with_entries round].
  set (s0 := with_entries s (entries s ++ [BattleStart])).
  change (round s) with (round s0).
  pose proof (battle_loop_terminates silenced
                (Z.to_nat (max_rounds - round s0 + 1)) b max_rounds s0) as Ht.
  unfold bind at 1.
  destruct (battle_loop silenced _ b max_rounds s0) as [e s1] eqn:E.
  cbn [fst] in Ht. apply battle_loop_outcome in E.
  destruct E as (blocks & He & Hout).
  assert (Hshape : forall l, entries s0 ++ blocks ++ l
                             = entries s ++ BattleStart :: blocks ++ l).
  { intros l. subst s0. cbn. rewrite <- app_assoc. reflexivity. }
  destruct e as [| |v].
  - exfalso. apply Ht; [lia | reflexivity].
  - destruct Hout as (Hb & Hcond). rewrite obj_bind. cbv beta.
    destruct (is_alive (deref (chars s1) (boss b))) eqn:Halive.
    + unfold bind, broadcast, record, dump, modify, ret. cbn.
      intros [= <- <-]. exists BossWon, blocks. cbn.
      split; [reflexivity|]. split; [rewrite He, <- app_assoc; apply Hshape|].
      split; [exact Hb|]. split; [exact Halive|]. split; [|reflexivity].
      unfold loop_condition in Hcond. rewrite Halive in Hcond.
      destruct (Z.leb_spec (round s1) max_rounds) as [Hle|Hgt]; [|left; exact Hgt].
      right. cbn in Hcond. exact Hcond.
    + unfold bind, broadcast, record, dump, modify, ret. cbn.
      intros [= <- <-]. exists PartyWon, blocks. cbn.
      split; [reflexivity|]. split; [rewrite He, <- app_assoc; apply Hshape|].
      split; [exact Hb|]. split; [exact Halive | reflexivity].
  - destruct Hout as (-> & Hb & Hpre). unfold ret. intros [= <- <-].
    exists PlayerLeft, blocks. cbn. split; [reflexivity|].
    split; [rewrite He; specialize (Hshape []); rewrite !app_nil_r in Hshape;
            rewrite app_nil_r; exact Hshape|].
    split; [exact Hb | exact Hpre].
Qed.

(** X23.  The shape of the whole log.  [Battle.run] appends the start record,
    then one bracketed block per round played, numbered consecutively
    from the round counter at the start, then the verdict record (none
    when the player left).  The round counter ends one past the last
    round played, except on exit, where it stays at the round of the
    exit. *)
Theorem battle_log_grammar (silenced : Character -> bool) (b : Battle)
    (max_rounds : Z) (s : State) :
  let s' := snd (run silenced b max_rounds s) in
  exists (e : Ending) (blocks : list LogEntry),
    fst (run silenced b max_rounds s) = Some (verdict e) /\
    entries s' = entries s ++ BattleStart :: blocks ++ closing e /\
    round_blocks (round s) blocks
      (match e with PlayerLeft => round s' + 1 | _ => round s' end)%Z.
Proof.
  cbv zeta. destruct (run silenced b max_rounds s) as [res s'] eqn:E.
  apply run_outcome in E. destruct E as (e & blocks & Hres & He & Hout).
  exists e, blocks. split; [exact Hres|]. split; [exact He|].
  destruct e; tauto.
Qed.

(** X24.  The verdict of [Battle.run].  [True] is returned only with the boss
    dead.  [False] is returned either at the end of the loop with the
    boss alive, which means that the rounds ran out or that the whole
    party is dead, or on the player's exit.  In the first two cases the
    dumped log is the whole log; on exit it is the log up to the exit
    record. *)
Theorem run_verdict (silenced : Character -> bool) (b : Battle)
    (max_rounds : Z) (s : State) :
  let res := fst (run silenced b max_rounds s) in
  let s' := snd (run silenced b max_rounds s) in
  let boss_alive := is_alive (deref (chars s') (boss b)) in
  (res = Some true ->
     boss_alive = false /\ battle_log_json s' = Some (entries s')) /\
  (res = Some false ->
     (boss_alive = true /\
      ((max_rounds < round s')%Z \/ any_alive (chars s') (party b) = false) /\
      battle_log_json s' = Some (entries s')) \/
     (exists pre,
        entries s' = pre ++ [PlayerExit; RoundEnd (round s')] /\
        battle_log_json s' = Some (pre ++ [PlayerExit]))).
Proof.
  cbv zeta. destruct (run silenced b max_rounds s) as [res s'] eqn:E.
  apply run_outcome in E. destruct E as (e & blocks & Hres & He & Hout).
  cbn [fst snd]. rewrite Hres.
  destruct e; cbn [verdict]; (split; intros Hv; try discriminate Hv).
  - tauto.
  - left. tauto.
  - right. tauto.
Qed.

Lemma run_verdict_witness :
  exists log,
    battle_log_json (snd (run is_silenced main_battle 50 leaving_state)) = Some log.
Proof.
  destruct (proj2 (run_verdict is_silenced main_battle 50 leaving_state))
    as [(_ & _ & Hj)|(pre & _ & Hj)].
  - vm_compute. reflexivity.
  - eexists. exact Hj.
  - eexists. exact Hj.
Defined.

(** X25.  [Battle.run] when the loop condition fails at once ([max_rounds]
    below the round counter, the boss dead, or no hero alive): no round
    is played and no character changes; the log gets the start record
    and the verdict, is dumped, and the boss wins unless it is dead. In
    particular a living boss wins a battle of zero rounds. *)
Theorem run_without_rounds (silenced : Character -> bool) (b : Battle)
    (max_rounds : Z) (s : State) :
  loop_condition b max_rounds s = false ->
  let boss_alive := is_alive (deref (chars s) (boss b)) in
  let log := entries s ++ [BattleStart; if boss_alive then BossWins else PartyWins] in
  run silenced b max_rounds s =
    (Some (negb boss_alive),
     with_battle_log_json (with_entries s log) (Some log)).
Proof.
  intros Hcond. cbv zeta. unfold run.
  unfold bind at 1. unfold broadcast at 1, record at 1, modify at 1.
  unfold bind at 1, gets at 1. cbn [entries with_entries round].
  set (s0 := with_entries s (entries s ++ [BattleStart])).
  assert (Hloop : forall fuel,
            battle_loop silenced fuel b max_rounds s0 = (Finished, s0)).
  { intros fuel. destruct fuel; cbn [battle_loop]; unfold bind, gets; cbn beta;
      change ((round s0 <=? max_rounds)%Z
              && is_alive (deref (chars s0) (boss b))
              && any_alive (chars s0) (party b))%bool
        with (loop_condition b max_rounds s);
      rewrite Hcond; reflexivity. }
  unfold bind at 1. rewrite Hloop. rewrite obj_bind. cbv beta.
  change (chars s0) with (chars s).
  destruct (is_alive (deref (chars s) (boss b)));
    unfold bind, broadcast, record, dump, modify, ret; cbn;
    rewrite <- app_assoc; reflexivity.
Qed.

Lemma run_without_rounds_witness :
  fst (run is_silenced main_battle 0 (main_state 0 "")) = Some false.
Proof.
  rewrite (run_without_rounds is_silenced main_battle 0 (main_state 0 "")).
  - vm_compute. reflexivity.
  - vm_compute. reflexivity.
Defined.
